(** * tw_pywrap: argument mapping, overwrite reconciliation and dispatch

    A shallow embedding of [tw_pywrap/helper.py] and [tw_pywrap/tower.py].

    Python values are modelled by the inductive [value]; dictionaries that are
    iterated ([item.items()]) are association lists in insertion order, the
    dictionary built by [get_values_from_cmd_args] (only ever read by key) is a
    [gmap].  Exceptions are the [Raise] results of [result]; the temporary-file
    store and the log of issued [tw] commands are threaded by a small
    state-and-exception monad. *)

From Stdlib Require Import String Ascii ZArith List Bool Lia DecimalString.
From stdpp Require Import base gmap strings list.
Import ListNotations.

Local Open Scope string_scope.
Local Open Scope list_scope.

Set Warnings "-register-all".

(** ** Python values *)

(** The values [yaml.safe_load] and [json.loads] produce, restricted to
    [None], booleans, integers, strings, lists and string-keyed dictionaries
    (floats, dates and non-string keys are outside the model).  A string is a
    sequence of characters, one [ascii] per Python character. *)
Inductive value : Type :=
| VNone
| VBool (b : bool)
| VInt (n : Z)
| VStr (s : string)
| VList (l : list value)
| VDict (d : list (string * value)).

Definition dict : Type := list (string * value).

Inductive exn : Type :=
| KeyError (k : string)
| NameError (n : string)
| TypeError
| AttributeError
| IndexError
| DecodeError.

Inductive result (A : Type) : Type :=
| Ok (a : A)
| Raise (e : exn).
Arguments Ok {A} a.
Arguments Raise {A} e.

Definition rbind {A B} (r : result A) (k : A -> result B) : result B :=
  match r with
  | Ok a => k a
  | Raise e => Raise e
  end.

Declare Scope py_scope.
Delimit Scope py_scope with py.
Notation "'let?' x ':=' c 'in' k" := (rbind c (fun x => k))
  (at level 10, x name, c at level 100, k at level 200) : py_scope.
Local Open Scope py_scope.

(** A [for] loop whose body may raise: the accumulator is the loop state. *)
Fixpoint for_r {A B} (xs : list A) (body : B -> A -> result B) (acc : B)
  : result B :=
  match xs with
  | [] => Ok acc
  | x :: xs' => let? acc' := body acc x in for_r xs' body acc'
  end.

(** State and exceptions: the state survives a raised exception. *)
Definition M (S A : Type) : Type := S -> result A * S.

Definition ret {S A} (a : A) : M S A := fun s => (Ok a, s).
Definition raise {S A} (e : exn) : M S A := fun s => (Raise e, s).
Definition bind {S A B} (m : M S A) (k : A -> M S B) : M S B :=
  fun s => match m s with
           | (Ok a, s') => k a s'
           | (Raise e, s') => (Raise e, s')
           end.
Definition lift {S A} (r : result A) : M S A := fun s => (r, s).

Notation "'let*' x ':=' c 'in' k" := (bind c (fun x => k))
  (at level 10, x name, c at level 100, k at level 200) : py_scope.
Notation "'run' c 'then' k" := (bind c (fun _ => k))
  (at level 10, c at level 100, k at level 200) : py_scope.

Fixpoint for_m {S A B} (xs : list A) (body : B -> A -> M S B) (acc : B)
  : M S B :=
  match xs with
  | [] => ret acc
  | x :: xs' => let* acc' := body acc x in for_m xs' body acc'
  end.

(** ** Strings *)

(** [s.startswith(p)] *)
Definition startswith (p s : string) : bool := String.prefix p s.

(** [s[n:]] *)
Fixpoint str_drop (n : nat) (s : string) : string :=
  match n, s with
  | O, _ => s
  | S _, EmptyString => EmptyString
  | S n', String _ s' => str_drop n' s'
  end.

(** [sub in s] on strings *)
Fixpoint contains (sub s : string) : bool :=
  String.prefix sub s ||
  match s with
  | EmptyString => false
  | String _ s' => contains sub s'
  end.

(** The characters of a string, as iterating a [str] yields them. *)
Fixpoint chars (s : string) : list string :=
  match s with
  | EmptyString => []
  | String c s' => String c EmptyString :: chars s'
  end.

(** [s.replace(a, b)] for single characters [a], [b]. *)
Fixpoint replace_char (a b : ascii) (s : string) : string :=
  match s with
  | EmptyString => EmptyString
  | String c s' =>
      String (if Ascii.eqb c a then b else c) (replace_char a b s')
  end.

(** The characters [str.isspace] accepts among the 256 a string of the
    model is made of: the space, the controls 9 to 13 and 28 to 31, the
    next-line control U+0085 and the no-break space U+00A0. *)
Definition is_space (c : ascii) : bool :=
  let n := nat_of_ascii c in
  (Nat.eqb n 32) || ((Nat.leb 9 n) && (Nat.leb n 13))
  || ((Nat.leb 28 n) && (Nat.leb n 31))
  || Nat.eqb n 133 || Nat.eqb n 160.

(** [s.split()]: split on runs of whitespace, no empty pieces. *)
Fixpoint split_ws (cur : string) (s : string) : list string :=
  match s with
  | EmptyString => if String.eqb cur "" then [] else [cur]
  | String c s' =>
      if is_space c
      then (if String.eqb cur "" then [] else [cur]) ++ split_ws "" s'
      else split_ws (cur +:+ String c EmptyString) s'
  end.
Definition py_split (s : string) : list string := split_ws "" s.

(** [x in xs] for a list of strings *)
Definition in_list (x : string) (xs : list string) : bool :=
  existsb (String.eqb x) xs.

(** ** Dictionaries in insertion order *)

Fixpoint dict_lookup (k : string) (d : dict) : option value :=
  match d with
  | [] => None
  | (k', v) :: d' => if String.eqb k k' then Some v else dict_lookup k d'
  end.

(** [d[k]] *)
Definition dict_item (d : dict) (k : string) : result value :=
  match dict_lookup k d with
  | Some v => Ok v
  | None => Raise (KeyError k)
  end.

(** [d.get(k)] on a dictionary: a missing key reads as [None]. *)
Definition dict_get (d : dict) (k : string) : value :=
  match dict_lookup k d with
  | Some v => v
  | None => VNone
  end.

Definition dict_remove (k : string) (d : dict) : dict :=
  List.filter (fun kv => negb (String.eqb k (fst kv))) d.

(** [d.pop(k, default)]: the value and the dictionary without the key. *)
Definition dict_pop (k : string) (default : value) (d : dict) : value * dict :=
  (match dict_lookup k d with Some v => v | None => default end,
   dict_remove k d).

Definition dict_keys (d : dict) : list string := map fst d.

(** A Python dictionary has each key once. *)
Definition wf_dict (d : dict) : Prop := List.NoDup (dict_keys d).

(** [for x in v]: lists yield their elements, dictionaries their keys,
    strings their characters; nothing else is iterable. *)
Definition py_iter (v : value) : result (list value) :=
  match v with
  | VList l => Ok l
  | VDict d => Ok (map VStr (dict_keys d))
  | VStr s => Ok (map VStr (chars s))
  | _ => Raise TypeError
  end.

(** [v is True] *)
Definition is_True (v : value) : bool :=
  match v with VBool true => true | _ => false end.

(** [a == b]: [None] equals itself only; booleans and integers compare as
    numbers, [True] being 1 and [False] 0; strings equal strings, lists
    compare element by element, and two dictionaries (each key once) are
    equal when they have as many keys and every key of the first has an
    equal value in the second. *)
Fixpoint py_eq (a b : value) {struct a} : bool :=
  match a, b with
  | VNone, VNone => true
  | VBool x, VBool y => Bool.eqb x y
  | VBool x, VInt n => Z.eqb (if x then 1 else 0) n
  | VInt m, VBool y => Z.eqb m (if y then 1 else 0)
  | VInt m, VInt n => Z.eqb m n
  | VStr s, VStr s' => String.eqb s s'
  | VList l, VList l' =>
      (fix eq_items (l l' : list value) {struct l} : bool :=
         match l, l' with
         | [], [] => true
         | x :: l1, y :: l1' => py_eq x y && eq_items l1 l1'
         | _, _ => false
         end) l l'
  | VDict d, VDict d' =>
      Nat.eqb (length d) (length d')
      && (fix eq_entries (d : list (string * value)) {struct d} : bool :=
            match d with
            | [] => true
            | (k, v) :: d1 =>
                match dict_lookup k d' with
                | Some v' => py_eq v v'
                | None => false
                end
                && eq_entries d1
            end) d
  | _, _ => false
  end.

Definition decimal (n : Z) : string := NilZero.string_of_int (Z.to_int n).

(** ** Sample environments

    Concrete collaborators, used to run the model on explicit inputs. *)

(** Recognises the two web schemes. *)
Definition http_is_url (s : string) : bool :=
  startswith "http://" s || startswith "https://" s.

Fixpoint filler (n : nat) : string :=
  match n with
  | O => EmptyString
  | S n' => String "x" (filler n')
  end.

(** A path longer than every path in use. *)
Definition longer_name (used : list string) : string :=
  "/tmp/" +:+ filler (S (list_max (map String.length used))) +:+ ".yaml".

Definition bracket_repr (v : value) : string :=
  match v with
  | VList _ => "[...]"
  | _ => "{...}"
  end.

(** An executor whose commands print nothing. *)
Definition silent_exec (t : list (list string)) (cmd : list string) : string :=
  "".

(** Two workspaces of the same name under two organizations, and the
    listing that holds them, whatever the text decoded. *)
Definition other_dev : dict :=
  [ ("orgName", VStr "other"); ("workspaceName", VStr "dev");
    ("workspaceId", VInt 11) ].

Definition acme_dev : dict :=
  [ ("orgName", VStr "acme"); ("workspaceName", VStr "dev");
    ("workspaceId", VInt 22) ].

Definition listed_workspaces : list value := [VDict other_dev; VDict acme_dev].

Definition two_workspaces : value :=
  VDict [ ("workspaces", VList listed_workspaces) ].

Definition listing_loads (text : string) : result value := Ok two_workspaces.

Definition always_exists (json_data name_key : string) (name_value : value)
  : result bool := Ok true.

Definition no_key_value (data : value) (key : string) (v : value)
    (target : string) : result value := Ok VNone.

(** A configuration document with a single organizations section. *)
Definition organizations_only (file_path : string) : result value :=
  Ok (VDict [ ("organizations", VList [ VDict [ ("name", VStr "acme") ] ]) ]).

(** Sample items. *)
Definition datasets_scenario : dict :=
  [ ("file-path", VStr "env.csv"); ("name", VStr "envs");
    ("workspace", VStr "ws1"); ("description", VStr "desc");
    ("header", VBool true) ].

Definition datasets_without_path : dict :=
  [ ("name", VStr "envs"); ("workspace", VStr "ws1");
    ("description", VStr "desc") ].

Definition pipeline_with_params : dict :=
  [ ("name", VStr "x"); ("params", VDict [("outdir", VStr "results")]);
    ("url", VStr "https://github.com/nf-core/rnaseq") ].

Definition launch_with_params : dict :=
  [ ("name", VStr "x"); ("params", VDict [("outdir", VStr "results")]);
    ("pipeline", VStr "rnaseq") ].

Definition pipeline_by_name : dict :=
  [ ("pipeline", VStr "rnaseq"); ("name", VStr "x") ].

Definition launch_with_file_path : dict :=
  [ ("pipeline", VStr "rnaseq"); ("file-path", VStr "main.nf") ].


Definition organization_plain : dict :=
  [ ("name", VStr "acme"); ("description", VStr "research");
    ("overwrite", VBool true) ].

Definition organization_dashed : dict := [ ("name", VStr "--acme") ].

Definition workspace_item : dict :=
  [ ("name", VStr "dev"); ("organization", VStr "acme");
    ("overwrite", VBool true) ].

Definition workspace_item_args : list string :=
  ["--name"; "dev"; "--organization"; "acme"].

(** A team with two members, one without a name, and one with neither
    name, organization nor members. *)
Definition team_item : dict :=
  [ ("name", VStr "devs"); ("organization", VStr "acme");
    ("members", VList [VStr "ann@acme.org"; VStr "bob@acme.org"]) ].

Definition team_without_name : dict :=
  [ ("organization", VStr "acme"); ("members", VList [VStr "ann@acme.org"]) ].

Definition team_described : dict :=
  [ ("description", VStr "core"); ("color", VStr "blue") ].

(** Argument lists as the mappers produce them. *)
Definition credentials_args : list string :=
  ["--name"; "aws"; "--workspace"; "acme/dev"].

Definition participant_args : list string :=
  ["--name"; "devs"; "--type"; "TEAM"; "--workspace"; "acme/dev"].

Definition team_args : list string :=
  ["--name"; "devs"; "--organization"; "acme"].

Definition credentials_item : dict :=
  [ ("name", VStr "aws"); ("workspace", VStr "acme/dev") ].

Definition organization_overwrite_first : dict :=
  [ ("overwrite", VBool false); ("name", VStr "acme");
    ("description", VStr "research") ].

(** A lookup that finds the identifier 7, a decoder that yields a list, and
    a document whose organizations section is a mapping. *)
Definition found_seven (data : value) (key : string) (v : value)
    (target : string) : result value := Ok (VInt 7).

Definition list_loads (text : string) : result value :=
  Ok (VList [VStr "workspaces"]).

Definition organizations_as_mapping (file_path : string) : result value :=
  Ok (VDict [ ("organizations", VDict [ ("name", VStr "acme") ]) ]).

(** Each key once, as a check. *)
Fixpoint distinct (l : list string) : bool :=
  match l with
  | [] => true
  | k :: l' => negb (in_list k l') && distinct l'
  end.

(** ** The argument mapper and the block parser *)

Section Helper.

Set Default Proof Using "Type".

(** [repr] of a list or a dictionary, the form [str] gives a container. *)
Variable py_repr : value -> string.

(** The name [tempfile] picks, given the names of the files created so
    far. *)
Variable mktemp : list string -> string.

(** [yaml.safe_load] of the file at a path. *)
Variable yaml_load : string -> result value.

(** [str(v)] *)
Definition py_str (v : value) : string :=
  match v with
  | VNone => "None"
  | VBool true => "True"
  | VBool false => "False"
  | VInt n => decimal n
  | VStr s => s
  | VList _ | VDict _ => py_repr v
  end.

(** The temporary files written so far: path and content. *)
Definition tempfs : Type := list (string * value).

(** Modelled from the spec: [utils.create_temp_yaml] is not part of the
    sources at hand.  The specification has every [params] mapping
    "serialized to a uniquely named temporary file on local disk", "each
    uniquely named per invocation, never reused", and the path of that file
    is what the mapper emits after [--params-file]. *)
Definition create_temp_yaml (params : value) : M tempfs string :=
  fun fs =>
    let name := mktemp (map fst fs) in
    (Ok name, fs ++ [(name, params)]).

(** [f"--{key}"] *)
Definition flag (key : string) : string := "--" +:+ key.

Definition parse_generic_block (item : dict) : list string :=
  fold_left
    (fun cmd_args '(key, value) => cmd_args ++ [flag key; py_str value])
    item [].

Definition parse_credentials_block (item : dict) : list string :=
  fold_left
    (fun cmd_args '(key, value) =>
       if String.eqb key "type"
       then cmd_args ++ [py_str value]
       else cmd_args ++ [flag key; py_str value])
    item [].

Definition parse_compute_envs_block (item : dict) : list string :=
  fold_left
    (fun cmd_args '(key, value) =>
       if String.eqb key "file-path"
       then cmd_args ++ [py_str value]
       else cmd_args ++ [flag key; py_str value])
    item [].

(** The loop over the members of a team, inside [parse_teams_block]. *)
Definition teams_member_step (item : dict) (acc : list (list string))
    (member : value) : result (list (list string)) :=
  let? name := dict_item item "name" in
  let? organization := dict_item item "organization" in
  Ok (acc ++ [[ "--team"; py_str name;
                "--organization"; py_str organization;
                "add"; "--member"; py_str member ]]).

(** One turn of the loop of [parse_teams_block], on [cmd_args] and
    [members_cmd_args]. *)
Definition teams_step (item : dict)
    (acc : list string * list (list string)) (kv : string * value)
  : result (list string * list (list string)) :=
  let cmd_keys := ["name"; "organization"; "description"] in
  let members_keys := ["name"; "organization"; "members"] in
  let '(cmd_args, members_cmd_args) := acc in
  let '(key, value) := kv in
  if in_list key cmd_keys
  then Ok (cmd_args ++ [flag key; py_str value], members_cmd_args)
  else if in_list key members_keys && String.eqb key "members"
  then
    let? members := py_iter value in
    let? members_cmd_args' :=
      for_r members (teams_member_step item) members_cmd_args in
    Ok (cmd_args, members_cmd_args')
  else Ok (cmd_args, members_cmd_args).

Definition parse_teams_block (item : dict)
  : result (list string * list (list string)) :=
  for_r item (teams_step item) ([], []).

Definition actions_step (cmd_args : list string) (kv : string * value)
  : M tempfs (list string) :=
  let '(key, value) := kv in
  if String.eqb key "type"
  then ret (cmd_args ++ [py_str value])
  else if String.eqb key "params"
  then
    let* temp_file_name := create_temp_yaml value in
    ret (cmd_args ++ ["--params-file"; temp_file_name])
  else ret (cmd_args ++ [flag key; py_str value]).

Definition parse_actions_block (item : dict) : M tempfs (list string) :=
  for_m item actions_step [].

Definition datasets_step (item : dict) (cmd_args : list string)
    (kv : string * value) : result (list string) :=
  let '(key, value) := kv in
  let? cmd_args1 :=
    (if String.eqb key "file-path"
     then
       let? file_path := dict_item item "file-path" in
       let? name := dict_item item "name" in
       let? workspace := dict_item item "workspace" in
       let? description := dict_item item "description" in
       Ok (cmd_args ++ [ py_str file_path;
                         "--name"; py_str name;
                         "--workspace"; py_str workspace;
                         "--description"; py_str description ])
     else Ok cmd_args) in
  Ok (if String.eqb key "header" && is_True value
      then cmd_args1 ++ ["--header"]
      else cmd_args1).

Definition parse_datasets_block (item : dict) : result (list string) :=
  for_r item (datasets_step item) [].

(** The three accumulators of [parse_pipelines_block]. *)
Record pipelines_acc : Type := {
  pa_cmd_args : list string;
  pa_repo_args : list string;
  pa_params_args : list string;
}.

Definition pipelines_step (acc : pipelines_acc) (kv : string * value)
  : M tempfs pipelines_acc :=
  let '(key, value) := kv in
  if String.eqb key "url"
  then ret {| pa_cmd_args := pa_cmd_args acc;
              pa_repo_args := pa_repo_args acc ++ [py_str value];
              pa_params_args := pa_params_args acc |}
  else if String.eqb key "params"
  then
    let* temp_file_name := create_temp_yaml value in
    ret {| pa_cmd_args := pa_cmd_args acc;
           pa_repo_args := pa_repo_args acc;
           pa_params_args :=
             pa_params_args acc ++ ["--params-file"; temp_file_name] |}
  else if String.eqb key "file-path"
  then ret {| pa_cmd_args := pa_cmd_args acc;
              pa_repo_args := pa_repo_args acc ++ [py_str value];
              pa_params_args := pa_params_args acc |}
  else ret {| pa_cmd_args := pa_cmd_args acc ++ [flag key; py_str value];
              pa_repo_args := pa_repo_args acc;
              pa_params_args := pa_params_args acc |}.

Definition parse_pipelines_block (item : dict) : M tempfs (list string) :=
  let* acc :=
    for_m item pipelines_step
      {| pa_cmd_args := []; pa_repo_args := []; pa_params_args := [] |} in
  (* First append the url related arguments then append the remaining
     ones *)
  ret (pa_repo_args acc ++ pa_params_args acc ++ pa_cmd_args acc).

(** One turn of the loop of [parse_launch_block], on [repo_args] and
    [cmd_args]. *)
Definition launch_step (acc : list string * list string)
    (kv : string * value) : M tempfs (list string * list string) :=
  let '(repo_args, cmd_args) := acc in
  let '(key, value) := kv in
  if String.eqb key "pipeline" || String.eqb key "url"
  then ret (repo_args ++ [py_str value], cmd_args)
  else if String.eqb key "params"
  then
    let* temp_file_name := create_temp_yaml value in
    ret (repo_args, cmd_args ++ ["--params-file"; temp_file_name])
  else ret (repo_args, cmd_args ++ [flag key; py_str value]).

Definition parse_launch_block (item : dict) : M tempfs (list string) :=
  let* acc := for_m item launch_step ([], []) in
  ret (fst acc ++ snd acc).

(** What a mapper returns: a flat argument list, or for [teams] the pair of
    the creation arguments and the per-member argument lists. *)
Inductive mapped : Type :=
| Args (cmd_args : list string)
| TeamArgs (cmd_args : list string) (members_cmd_args : list (list string)).

(** [{"cmd_args": ..., "overwrite": ...}] *)
Record CommandSpec : Type := {
  cmd_args : mapped;
  overwrite : value;
}.

Definition parser : Type := dict -> M tempfs mapped.

Definition generic_parser : parser :=
  fun item => ret (Args (parse_generic_block item)).

Definition block_to_function : list (string * parser) :=
  [ ("credentials", fun item => ret (Args (parse_credentials_block item)));
    ("compute-envs", fun item => ret (Args (parse_compute_envs_block item)));
    ("teams", fun item =>
       let* r := lift (parse_teams_block item) in
       ret (TeamArgs (fst r) (snd r)));
    ("actions", fun item =>
       let* a := parse_actions_block item in ret (Args a));
    ("datasets", fun item =>
       let* a := lift (parse_datasets_block item) in ret (Args a));
    ("pipelines", fun item =>
       let* a := parse_pipelines_block item in ret (Args a));
    ("launch", fun item =>
       let* a := parse_launch_block item in ret (Args a)) ].

(** [block_to_function.get(block_name, parse_generic_block)] *)
Fixpoint get_parser (table : list (string * parser)) (block_name : string)
  : parser :=
  match table with
  | [] => generic_parser
  | (name, fn) :: table' =>
      if String.eqb block_name name then fn else get_parser table' block_name
  end.

(** [item.pop("overwrite", False)] needs a dictionary: a list rejects the
    two-argument call, other values have no [pop]. *)
Definition parse_block (block_name : string) (item : value)
  : M tempfs CommandSpec :=
  let parse_fn := get_parser block_to_function block_name in
  match item with
  | VDict d =>
      let '(overwrite, d') := dict_pop "overwrite" (VBool false) d in
      let* cmd_args := parse_fn d' in
      ret {| cmd_args := cmd_args; overwrite := overwrite |}
  | VList _ => raise TypeError
  | _ => raise AttributeError
  end.

(** The names bound in the module [helper]: its four imports and its
    functions.  Builtins aside, any other name is unbound. *)
Definition helper_module_names : list string :=
  [ "json"; "yaml"; "tower"; "utils";
    "parse_yaml_block"; "parse_all_yaml"; "parse_block";
    "parse_generic_block"; "parse_credentials_block";
    "parse_compute_envs_block"; "parse_teams_block"; "parse_actions_block";
    "parse_datasets_block"; "parse_pipelines_block"; "parse_launch_block";
    "handle_add_block"; "handle_info"; "handle_teams";
    "handle_participants"; "handle_compute_envs"; "handle_pipelines";
    "handle_launch"; "get_delete_identifier"; "handle_overwrite";
    "get_values_from_cmd_args"; "find_workspace_id" ].

(** Evaluating a global name of the module. *)
Definition global_name (names : list string) (n : string) : result unit :=
  if in_list n names then Ok tt else Raise (NameError n).

(** [data.get(block_name)]: only a dictionary has [get]. *)
Definition document_get (data : value) (k : string) : result value :=
  match data with
  | VDict d => Ok (dict_get d k)
  | _ => Raise AttributeError
  end.

(** [parse_yaml_block], with the module's global names as a parameter. *)
Definition parse_yaml_block_in (names : list string)
    (file_path block_name : string)
  : M tempfs (string * list CommandSpec) :=
  let* data := lift (yaml_load file_path) in
  let* block := lift (document_get data block_name) in
  let* block :=
    (match block with
     | VNone =>
         (* logging.warn(...) *)
         run lift (global_name names "logging") then
         ret (VList [VDict []])
     | _ => ret block
     end) in
  let* items := lift (py_iter block) in
  let* cmd_args_list :=
    for_m items
      (fun cmd_args_list item =>
         let* spec := parse_block block_name item in
         ret (cmd_args_list ++ [spec]))
      [] in
  ret (block_name, cmd_args_list).

Definition parse_yaml_block : string -> string
                              -> M tempfs (string * list CommandSpec) :=
  parse_yaml_block_in helper_module_names.

(** ** The command wrapper, [tower.py] *)

(** A command is the token list handed to the shell; the log of a run is
    the list of commands issued, oldest first. *)
Definition command : Type := list string.
Definition trace : Type := list command.

(** The captured standard output of a command, given the commands run
    before it. *)
Variable tw_exec : trace -> command -> string.

Fixpoint all_str (vs : list value) : option (list string) :=
  match vs with
  | [] => Some []
  | VStr s :: vs' =>
      match all_str vs' with
      | Some l => Some (s :: l)
      | None => None
      end
  | _ :: _ => None
  end.

(** [Tower._tw_run(cmd)] called without keyword arguments: every token
    is asked [startswith], which only a string has. *)
Definition _tw_run (cmd : list value) : M trace string :=
  let command := VStr "tw" :: cmd in
  match all_str command with
  | Some tokens => fun t => (Ok (tw_exec t tokens), t ++ [tokens])
  | None => raise AttributeError
  end.

Record TwCommand : Type := { tc_cmd : string }.

(** [Tower.__getattr__(cmd)] *)
Definition tw_getattr (cmd : string) : TwCommand :=
  {| tc_cmd := replace_char "_" "-" cmd |}.

(** [TwCommand.__call__] on positional arguments *)
Definition TwCommand_call (c : TwCommand) (args : list value)
  : M trace string :=
  _tw_run (map VStr (py_split (tc_cmd c)) ++ args).

(** ** Handlers *)

(** [utils.is_url], not part of the sources at hand. *)
Variable is_url : string -> bool.

(** One turn of the loop of [handle_participants], on the new argument
    list and [skip_next]. *)
Definition strip_role_step (st : list string * bool) (arg : string)
  : list string * bool :=
  let '(new_args, skip_next) := st in
  if skip_next || String.eqb arg "--role"
  then (new_args, negb skip_next)
  else (new_args ++ [arg], skip_next).

Definition strip_role_loop (args : list string) : list string * bool :=
  fold_left strip_role_step args ([], false).

Definition handle_participants (args : list string) : M trace unit :=
  let new_args := fst (strip_role_loop args) in
  run TwCommand_call (tw_getattr "participants")
        (VStr "add" :: map VStr new_args) then
  run TwCommand_call (tw_getattr "participants")
        (VStr "update" :: map VStr args) then
  ret tt.

(** The loop of [handle_pipelines] over the arguments still to inspect:
    the [add] branch leaves the loop, the [import] branch goes on. *)
Fixpoint pipelines_loop (method : TwCommand) (args rest : list string)
  : M trace unit :=
  match rest with
  | [] => ret tt
  | arg :: rest' =>
      if is_url arg
      then run TwCommand_call method (VStr "add" :: map VStr args) then
           ret tt
      else if contains ".json" arg
      then run TwCommand_call method (VStr "import" :: map VStr args) then
           pipelines_loop method args rest'
      else pipelines_loop method args rest'
  end.

Definition handle_pipelines (args : list string) : M trace unit :=
  let method := tw_getattr "pipelines" in
  pipelines_loop method args args.

(** ** Overwrite *)

(** [json.loads] *)
Variable json_loads : string -> result value.

(** [utils.find_key_value_in_dict] and [utils.check_if_exists], not part of
    the sources at hand. *)
Variable find_key_value_in_dict :
  value -> string -> value -> string -> result value.
Variable check_if_exists : string -> string -> value -> result bool.

(** One turn of the loop of [get_values_from_cmd_args], on [values] and
    [key]; an empty [key] is as false as [None]. *)
Definition get_values_step (keys : list string)
    (st : gmap string value * option string) (arg : string)
  : gmap string value * option string :=
  let '(values, key) := st in
  if startswith "--" arg
  then (values, Some (str_drop 2 arg))
  else
    (match key with
     | Some k =>
         if negb (String.eqb k "") && in_list k keys
         then <[k := VStr arg]> values
         else values
     | None => values
     end, None).

Definition get_values_from_cmd_args (cmd_args keys : list string)
  : gmap string value :=
  let values : gmap string value :=
    fold_left (fun values key => <[key := VNone]> values) keys ∅ in
  fst (fold_left (get_values_step keys) cmd_args (values, None)).

(** The loop of [find_workspace_id]; [get] is asked of each element. *)
Fixpoint find_workspace_loop (workspaces : list value)
    (organization workspace_name : value) : result value :=
  match workspaces with
  | [] => Ok VNone
  | VDict workspace :: rest =>
      if py_eq (dict_get workspace "orgName") organization
         && py_eq (dict_get workspace "workspaceName")
                           workspace_name
      then Ok (dict_get workspace "workspaceId")
      else find_workspace_loop rest organization workspace_name
  | _ :: _ => Raise AttributeError
  end.

Definition find_workspace_id (json_data : string)
    (organization workspace_name : value) : result value :=
  let? json_data := json_loads json_data in
  let? present :=
    (match json_data with
     | VDict d =>
         Ok (match dict_lookup "workspaces" d with
             | Some _ => true
             | None => false
             end)
     | VList l =>
         Ok (existsb (fun v => py_eq v (VStr "workspaces")) l)
     | VStr s => Ok (contains "workspaces" s)
     | _ => Raise TypeError
     end) in
  if present
  then
    let? workspaces :=
      (match json_data with
       | VDict d => dict_item d "workspaces"
       | _ => Raise TypeError
       end) in
    let? workspaces := py_iter workspaces in
    find_workspace_loop workspaces organization workspace_name
  else Ok VNone.

(** [tw_args[k]] *)
Definition tw_item (tw_args : gmap string value) (k : string)
  : result value :=
  match tw_args !! k with
  | Some v => Ok v
  | None => Raise (KeyError k)
  end.

Definition get_delete_identifier (block yaml_key : string)
    (key_value : value) (target_key : string) (tw_args : value)
  : M trace value :=
  let base_method := tw_getattr "-o json" in
  let* block_data :=
    (if String.eqb block "teams"
     then TwCommand_call base_method
            [VStr block; VStr "list"; VStr "-o"; tw_args]
     else TwCommand_call base_method [VStr block; VStr "list"]) in
  let* data := lift (json_loads block_data) in
  lift (find_key_value_in_dict data yaml_key key_value target_key).

(** An entry of [block_operations]. *)
Record operation : Type := {
  op_keys : list string;
  op_method_args : gmap string value -> M trace (list value);
  op_name_key : string;
}.

Definition generic_deletion : list string :=
  [ "credentials"; "secrets"; "compute-envs"; "datasets"; "actions";
    "pipelines" ].

Definition base_block_operations : list (string * operation) :=
  [ ("organizations",
     {| op_keys := ["name"];
        op_method_args := fun tw_args =>
          let* name := lift (tw_item tw_args "name") in
          ret [VStr "delete"; VStr "--name"; name];
        op_name_key := "orgName" |});
    ("teams",
     {| op_keys := ["name"; "organization"];
        op_method_args := fun tw_args =>
          let* name := lift (tw_item tw_args "name") in
          let* organization := lift (tw_item tw_args "organization") in
          let* id := get_delete_identifier "teams" "name" name "teamId"
                       organization in
          let* organization := lift (tw_item tw_args "organization") in
          ret [VStr "delete"; VStr "--id"; VStr (py_str id);
               VStr "--organization"; organization];
        op_name_key := "name" |});
    ("participants",
     {| op_keys := ["name"; "type"; "workspace"];
        op_method_args := fun tw_args =>
          let* name := lift (tw_item tw_args "name") in
          let* type := lift (tw_item tw_args "type") in
          let* workspace := lift (tw_item tw_args "workspace") in
          ret [VStr "delete"; VStr "--name"; name; VStr "--type"; type;
               VStr "--workspace"; workspace];
        op_name_key := "email" |});
    ("workspaces",
     {| op_keys := ["name"; "organization"];
        op_method_args := fun tw_args =>
          let* name := lift (tw_item tw_args "name") in
          ret [VStr "delete"; VStr "--id"; VStr (py_str name)];
        op_name_key := "workspaceId" |}) ].

Definition generic_operation : operation :=
  {| op_keys := ["name"; "workspace"];
     op_method_args := fun tw_args =>
       let* name := lift (tw_item tw_args "name") in
       let* workspace := lift (tw_item tw_args "workspace") in
       ret [VStr "delete"; VStr "--name"; name;
            VStr "--workspace"; workspace];
     op_name_key := "name" |}.

Fixpoint ops_lookup (block : string) (ops : list (string * operation))
  : option operation :=
  match ops with
  | [] => None
  | (b, op) :: ops' =>
      if String.eqb block b then Some op else ops_lookup block ops'
  end.

(** [ops[block] = op] *)
Fixpoint ops_set (block : string) (op : operation)
    (ops : list (string * operation)) : list (string * operation) :=
  match ops with
  | [] => [(block, op)]
  | (b, op') :: ops' =>
      if String.eqb block b
      then (b, op) :: ops'
      else (b, op') :: ops_set block op ops'
  end.

(** The table [handle_overwrite] consults for [block]. *)
Definition block_operations (block : string)
  : list (string * operation) :=
  if in_list block generic_deletion
  then ops_set block generic_operation base_block_operations
  else base_block_operations.

(** [args[0]], then iterated as the command arguments: the first list of a
    [teams] pair, or the characters of the first string of a flat list. *)
Definition first_as_cmd_args (args : mapped) : result (list string) :=
  match args with
  | TeamArgs cmd_args _ => Ok cmd_args
  | Args [] => Raise IndexError
  | Args (s :: _) => Ok (chars s)
  end.

(** [args] iterated as the command arguments: each element is asked
    [startswith], which the lists of a [teams] pair do not have. *)
Definition as_cmd_args (args : mapped) : result (list string) :=
  match args with
  | Args cmd_args => Ok cmd_args
  | TeamArgs _ _ => Raise AttributeError
  end.

Definition set_name_key (nk : string) (op : operation) : operation :=
  {| op_keys := op_keys op;
     op_method_args := op_method_args op;
     op_name_key := nk |}.

(** What the branches of [handle_overwrite] leave for the existence check. *)
Record looked_up : Type := {
  lu_tw_args : gmap string value;
  lu_json_data : string;
  lu_operation : operation;
}.

Definition handle_overwrite (block : string) (args : mapped)
  : M trace unit :=
  match ops_lookup block (block_operations block) with
  | None => ret tt
  | Some operation =>
      let keys_to_get := op_keys operation in
      let json_method := tw_getattr "-o json" in
      let* lu :=
        (if String.eqb block "teams"
         then
           let* cmd_args := lift (first_as_cmd_args args) in
           let tw_args := get_values_from_cmd_args cmd_args keys_to_get in
           let* organization := lift (tw_item tw_args "organization") in
           let* json_data :=
             TwCommand_call json_method
               [VStr block; VStr "list"; VStr "-o"; organization] in
           ret {| lu_tw_args := tw_args; lu_json_data := json_data;
                  lu_operation := operation |}
         else if in_list block generic_deletion
                 || String.eqb block "participants"
         then
           let* cmd_args := lift (as_cmd_args args) in
           let tw_args := get_values_from_cmd_args cmd_args keys_to_get in
           let* workspace := lift (tw_item tw_args "workspace") in
           let* json_data :=
             TwCommand_call json_method
               [VStr block; VStr "list"; VStr "-w"; workspace] in
           ret {| lu_tw_args := tw_args; lu_json_data := json_data;
                  lu_operation :=
                    match tw_args !! "type" with
                    | Some (VStr "TEAM") => set_name_key "teamName" operation
                    | _ => operation
                    end |}
         else if String.eqb block "workspaces"
         then
           let* cmd_args := lift (as_cmd_args args) in
           let tw_args := get_values_from_cmd_args cmd_args keys_to_get in
           let* json_data :=
             TwCommand_call json_method [VStr block; VStr "list"] in
           let* organization := lift (tw_item tw_args "organization") in
           let* name := lift (tw_item tw_args "name") in
           let* workspaceId :=
             lift (find_workspace_id json_data organization name) in
           ret {| lu_tw_args := <["name" := workspaceId]> tw_args;
                  lu_json_data := json_data;
                  lu_operation := operation |}
         else
           let* cmd_args := lift (as_cmd_args args) in
           let tw_args := get_values_from_cmd_args cmd_args keys_to_get in
           let* json_data :=
             TwCommand_call json_method [VStr block; VStr "list"] in
           ret {| lu_tw_args := tw_args; lu_json_data := json_data;
                  lu_operation := operation |}) in
      let* name := lift (tw_item (lu_tw_args lu) "name") in
      let* found :=
        lift (check_if_exists (lu_json_data lu)
                (op_name_key (lu_operation lu)) name) in
      if found
      then
        let* method_args :=
          op_method_args (lu_operation lu) (lu_tw_args lu) in
        run TwCommand_call (tw_getattr block) method_args then
        ret tt
      else ret tt
  end.

(** ** The remaining handlers and callers *)

(** [handle_info] and [handle_launch] pass the arguments on as they are. *)
Definition handle_info (args : list string) : M trace unit :=
  let method := tw_getattr "info" in
  run TwCommand_call method (map VStr args) then ret tt.

Definition handle_launch (args : list string) : M trace unit :=
  let method := tw_getattr "launch" in
  run TwCommand_call method (map VStr args) then ret tt.

(** [tw.compute_envs]: the attribute name goes through [__getattr__]. *)
Definition handle_compute_envs (args : list string) : M trace unit :=
  run TwCommand_call (tw_getattr "compute_envs")
        (VStr "import" :: map VStr args) then
  ret tt.

(** [handle_teams], on the pair [parse_teams_block] returns. *)
Definition handle_teams (args : list string * list (list string))
  : M trace unit :=
  let '(cmd_args, members_cmd_args) := args in
  run TwCommand_call (tw_getattr "teams")
        (VStr "add" :: map VStr cmd_args) then
  run for_m members_cmd_args
        (fun _ sublist =>
           run TwCommand_call (tw_getattr "teams")
                 (VStr "members" :: map VStr sublist) then
           ret tt)
        tt then
  ret tt.

(** [d[k] = v] on an insertion-ordered dictionary: an existing key keeps
    its place, a new one goes last. *)
Fixpoint assoc_set {A} (k : string) (v : A) (d : list (string * A))
  : list (string * A) :=
  match d with
  | [] => [(k, v)]
  | (k', v') :: d' =>
      if String.eqb k k' then (k', v) :: d' else (k', v') :: assoc_set k v d'
  end.

Definition parse_all_yaml (file_path : string) (block_names : list string)
  : M tempfs (list (string * list CommandSpec)) :=
  for_m block_names
    (fun cmd_args_dict block_name =>
       let* parsed := parse_yaml_block file_path block_name in
       ret (assoc_set (fst parsed) (snd parsed) cmd_args_dict))
    [].

(** Truth value of a Python value. *)
Definition truthy (v : value) : bool :=
  match v with
  | VNone => false
  | VBool b => b
  | VInt n => negb (Z.eqb n 0)
  | VStr s => negb (String.eqb s "")
  | VList l => match l with [] => false | _ :: _ => true end
  | VDict d => match d with [] => false | _ :: _ => true end
  end.

(** The body of [Tower._tw_run(cmd, **kwargs)], its parameters bound: the
    keyword arguments [to_json], [config] and [params_file] add tokens
    around the command. *)
Definition _tw_run_kwargs (cmd : list value) (kwargs : dict)
  : M trace string :=
  let command := [VStr "tw"] in
  let command :=
    if truthy (dict_get kwargs "to_json")
    then command ++ [VStr "-o"; VStr "json"] else command in
  let command := command ++ cmd in
  let command :=
    match dict_get kwargs "config" with
    | VNone => command
    | config_path => command ++ [VStr ("--config=" +:+ py_str config_path)]
    end in
  let command :=
    match dict_lookup "params_file" kwargs with
    | Some params_path =>
        command ++ [VStr ("--params-file=" +:+ py_str params_path)]
    | None => command
    end in
  match all_str command with
  | Some tokens => fun t => (Ok (tw_exec t tokens), t ++ [tokens])
  | None => raise AttributeError
  end.

(** [TwCommand.__call__] with keyword arguments: they are passed on to
    [_tw_run(cmd, *args, **kwargs)], where [self] and [cmd] are bound by
    position, so that a keyword of either name is a [TypeError], raised
    before anything is run. *)
Definition TwCommand_call_kwargs (c : TwCommand) (args : list value)
    (kwargs : dict) : M trace string :=
  if in_list "self" (dict_keys kwargs) || in_list "cmd" (dict_keys kwargs)
  then raise TypeError
  else _tw_run_kwargs (map VStr (py_split (tc_cmd c)) ++ args) kwargs.

(** [getattr(tw, name)]: Python looks the name up on the instance, on the
    class and on [object], and calls [__getattr__] only for a name it does
    not find there.  The class binds [TwCommand], [_tw_run] and special
    names, [object] special names only: [TwCommand] apart, every name so
    bound starts with an underscore.  Any other name reaches
    [__getattr__]; the names that may not are outside the model. *)
Definition getattr_tw (name : string) : option TwCommand :=
  if String.eqb name "TwCommand" || startswith "_" name
  then None
  else Some (tw_getattr name).

(** * The vocabulary of the properties *)

(** The command line a call with string arguments puts on the log. *)
Definition command_line (c : TwCommand) (args : list string) : command :=
  "tw" :: py_split (tc_cmd c) ++ args.

(** The argument list without the [--role <value>] pairs, read left to
    right as the specification words it: a [--role] token goes, and so does
    the token right after it. *)
Fixpoint without_role_pairs (args : list string) : list string :=
  match args with
  | [] => []
  | a :: rest =>
      if String.eqb a "--role"
      then match rest with
           | [] => []
           | _ :: rest' => without_role_pairs rest'
           end
      else a :: without_role_pairs rest
  end.

(** The commands the loop of [handle_pipelines] issues over the arguments
    still to inspect. *)
Fixpoint pipelines_issued (args rest : list string) : list command :=
  match rest with
  | [] => []
  | arg :: rest' =>
      if is_url arg then [["tw"; "pipelines"; "add"] ++ args]
      else if contains ".json" arg
      then (["tw"; "pipelines"; "import"] ++ args)
           :: pipelines_issued args rest'
      else pipelines_issued args rest'
  end.

(** [--k] at position [i], immediately followed by the non-flag [v]. *)
Definition occurs_at (k : string) (args : list string) (i : nat)
    (v : string) : Prop :=
  args !! i = Some (flag k) /\ args !! S i = Some v
  /\ startswith "--" v = false.

Definition never_occurs (k : string) (args : list string) : Prop :=
  forall i v, ~ occurs_at k args i v.

(** [v] follows the last such occurrence of [--k]. *)
Definition last_occurrence (k : string) (args : list string) (v : string)
  : Prop :=
  exists pre post,
    args = pre ++ flag k :: v :: post
    /\ startswith "--" v = false
    /\ never_occurs k post.

(** The reverse mapping as C10 words it, for all requested keys. *)
Definition reverse_map_key_exact (cmd_args keys : list string) : Prop :=
  let values := get_values_from_cmd_args cmd_args keys in
  dom values = (list_to_set keys : gset string)
  /\ forall k, k ∈ keys ->
       (never_occurs k cmd_args -> values !! k = Some VNone)
       /\ (forall v, last_occurrence k cmd_args v ->
                     values !! k = Some (VStr v)).

Definition init_values (keys : list string) (m : gmap string value)
  : gmap string value :=
  fold_left (fun values key => <[key := VNone]> values) keys m.

(** What each entry of an item contributes to the argument list. *)
Definition generic_chunk (kv : string * value) : list string :=
  [flag (fst kv); py_str (snd kv)].

Definition credentials_chunk (kv : string * value) : list string :=
  if String.eqb (fst kv) "type" then [py_str (snd kv)] else generic_chunk kv.

Definition compute_envs_chunk (kv : string * value) : list string :=
  if String.eqb (fst kv) "file-path"
  then [py_str (snd kv)] else generic_chunk kv.

Definition teams_chunk (kv : string * value) : list string :=
  if in_list (fst kv) ["name"; "organization"; "description"]
  then generic_chunk kv else [].

(** The entries before and after the entry of a key. *)
Fixpoint dict_before (k : string) (d : dict) : dict :=
  match d with
  | [] => []
  | (k', v) :: d' =>
      if String.eqb k k' then [] else (k', v) :: dict_before k d'
  end.

Fixpoint dict_after (k : string) (d : dict) : dict :=
  match d with
  | [] => []
  | (k', v) :: d' => if String.eqb k k' then d' else dict_after k d'
  end.

Definition header_flags (l : dict) : list string :=
  flat_map
    (fun kv =>
       if String.eqb (fst kv) "header" && is_True (snd kv)
       then ["--header"] else [])
    l.

(** The fields the specification requires of a datasets item. *)
Definition datasets_required : list string :=
  ["file-path"; "name"; "workspace"; "description"].

(** The datasets mapping as C5 words it. *)
Definition datasets_mapping_as_specified (item : dict) : Prop :=
  ((exists f, In f datasets_required /\ dict_lookup f item = None) ->
   exists k, parse_datasets_block item = Raise (KeyError k))
  /\ (forall fp n w d,
        dict_lookup "file-path" item = Some fp ->
        dict_lookup "name" item = Some n ->
        dict_lookup "workspace" item = Some w ->
        dict_lookup "description" item = Some d ->
        parse_datasets_block item =
        Ok ([ py_str fp; "--name"; py_str n; "--workspace"; py_str w;
              "--description"; py_str d ]
            ++ (if is_True (dict_get item "header")
                then ["--header"] else []))).

(** The contribution of each entry, [path] being the path of the
    temporary file of the [params] entry. *)
Definition actions_chunk (path : string) (kv : string * value)
  : list string :=
  if String.eqb (fst kv) "type" then [py_str (snd kv)]
  else if String.eqb (fst kv) "params" then ["--params-file"; path]
  else generic_chunk kv.

Definition pipelines_repo_chunk (kv : string * value) : list string :=
  if String.eqb (fst kv) "url" then [py_str (snd kv)]
  else if String.eqb (fst kv) "params" then []
  else if String.eqb (fst kv) "file-path" then [py_str (snd kv)]
  else [].

Definition params_chunk (path : string) (kv : string * value)
  : list string :=
  if String.eqb (fst kv) "url" then []
  else if String.eqb (fst kv) "params" then ["--params-file"; path]
  else [].

Definition pipelines_cmd_chunk (kv : string * value) : list string :=
  if String.eqb (fst kv) "url" then []
  else if String.eqb (fst kv) "params" then []
  else if String.eqb (fst kv) "file-path" then []
  else generic_chunk kv.

Definition launch_repo_chunk (kv : string * value) : list string :=
  if String.eqb (fst kv) "pipeline" || String.eqb (fst kv) "url"
  then [py_str (snd kv)] else [].

Definition launch_cmd_chunk (path : string) (kv : string * value)
  : list string :=
  if String.eqb (fst kv) "pipeline" || String.eqb (fst kv) "url" then []
  else if String.eqb (fst kv) "params" then ["--params-file"; path]
  else generic_chunk kv.

(** The store after mapping an item whose [params], if any, is written
    to a fresh file. *)
Definition store_after (fs : tempfs) (item : dict) : tempfs :=
  match dict_lookup "params" item with
  | Some params => fs ++ [(mktemp (map fst fs), params)]
  | None => fs
  end.

(** The accumulators of [parse_pipelines_block] after the entries [l]. *)
Definition pipelines_acc_after (path : string) (acc : pipelines_acc)
    (l : dict) : pipelines_acc :=
  {| pa_cmd_args := pa_cmd_args acc ++ flat_map pipelines_cmd_chunk l;
     pa_repo_args := pa_repo_args acc ++ flat_map pipelines_repo_chunk l;
     pa_params_args :=
       pa_params_args acc ++ flat_map (params_chunk path) l |}.

(** The keys each mapper turns into positional repository arguments. *)
Definition pipelines_positional (k : string) : bool :=
  String.eqb k "url" || String.eqb k "file-path".

Definition launch_positional (k : string) : bool :=
  String.eqb k "pipeline" || String.eqb k "url".

Definition positional_args (pos : string -> bool) (item : dict)
  : list string :=
  map (fun kv => py_str (snd kv)) (List.filter (fun kv => pos (fst kv)) item).

(** The fields that are neither positional nor [params]. *)
Definition remaining_fields (pos : string -> bool) (item : dict) : dict :=
  List.filter
    (fun kv => negb (pos (fst kv)) && negb (String.eqb (fst kv) "params"))
    item.

(** The positional fields as C6 words them, for pipelines and launch
    items alike. *)
Definition claimed_positional (k : string) : bool :=
  String.eqb k "url" || String.eqb k "pipeline" || String.eqb k "file-path".

(** The order C6 words: the positional arguments, then the
    [--params-file <path>] pair of a [params] field, then the flags of the
    remaining fields. *)
Definition repo_params_flags (pos : string -> bool) (item : dict)
    (out : list string) : Prop :=
  exists params_args,
    out = positional_args pos item ++ params_args
          ++ flat_map generic_chunk (remaining_fields pos item)
    /\ match dict_lookup "params" item with
       | Some _ => exists path, params_args = ["--params-file"; path]
       | None => params_args = []
       end.

(** The order of [parse_launch_block]: the positional arguments, then the
    other fields in the order of the item, [params] among them. *)
Definition repo_then_fields (pos : string -> bool) (item : dict)
    (out : list string) : Prop :=
  exists path,
    out = positional_args pos item
          ++ flat_map
               (fun kv => if String.eqb (fst kv) "params"
                          then ["--params-file"; path]
                          else generic_chunk kv)
               (List.filter (fun kv => negb (pos (fst kv))) item).

Definition wrap_args (r : result (list string) * tempfs)
  : result mapped * tempfs :=
  match r with
  | (Ok a, fs) => (Ok (Args a), fs)
  | (Raise e, fs) => (Raise e, fs)
  end.

(** What the mapper selected for a block returns on an item. *)
Definition mapper_result (block_name : string) (item : dict) (fs : tempfs)
  : result mapped * tempfs :=
  if String.eqb block_name "credentials"
  then (Ok (Args (parse_credentials_block item)), fs)
  else if String.eqb block_name "compute-envs"
  then (Ok (Args (parse_compute_envs_block item)), fs)
  else if String.eqb block_name "teams"
  then (match parse_teams_block item with
        | Ok r => Ok (TeamArgs (fst r) (snd r))
        | Raise e => Raise e
        end, fs)
  else if String.eqb block_name "actions"
  then wrap_args (parse_actions_block item fs)
  else if String.eqb block_name "datasets"
  then wrap_args (parse_datasets_block item, fs)
  else if String.eqb block_name "pipelines"
  then wrap_args (parse_pipelines_block item fs)
  else if String.eqb block_name "launch"
  then wrap_args (parse_launch_block item fs)
  else (Ok (Args (parse_generic_block item)), fs).

(** The argument list built for one member of a team. *)
Definition member_args (name organization member : value) : list string :=
  [ "--team"; py_str name; "--organization"; py_str organization;
    "add"; "--member"; py_str member ].

Definition member_of (item : dict) (members : list value)
    (m : list string) : Prop :=
  exists name organization member,
    dict_lookup "name" item = Some name
    /\ dict_lookup "organization" item = Some organization
    /\ In member members
    /\ m = member_args name organization member.

(** A member list of a team item: built from its [name], its
    [organization] and one element of its [members]. *)
Definition team_member_of (item l : dict) (m : list string) : Prop :=
  exists value members,
    In ("members", value) l /\ py_iter value = Ok members
    /\ member_of item members m.




Definition entry_free (tok : string) (kv : string * value) : Prop :=
  flag (fst kv) <> tok /\ py_str (snd kv) <> tok.


(** The blocks whose mapper writes [params] to a temporary file. *)
Definition temp_file_blocks : list string :=
  ["actions"; "pipelines"; "launch"].

Definition writes_params (block_name : string) (d : dict) : bool :=
  in_list block_name temp_file_blocks
  && match dict_lookup "params" d with Some _ => true | None => false end.

(** Two runs of the mapper on the same item, the second on the store the
    first one leaves, as C7 words them. *)
Definition mapping_twice_identical (block_name : string) (item : value)
    (fs : tempfs) : Prop :=
  let run1 := parse_block block_name item fs in
  let run2 := parse_block block_name item (snd run1) in
  fst run2 = fst run1.

(** The [keys] of the deletion policy of a block, if it has one. *)
Definition policy_keys (block : string) : option (list string) :=
  match ops_lookup block (block_operations block) with
  | Some operation => Some (op_keys operation)
  | None => None
  end.

(** The argument list [handle_overwrite] reverse-maps: the first
    component for [teams], the whole list otherwise. *)
Definition reconciler_args (block : string) (m : mapped)
  : result (list string) :=
  if String.eqb block "teams" then first_as_cmd_args m else as_cmd_args m.

(** The round trip as C8 words it. *)
Definition round_trip_recovers (block : string) (d : dict) (fs : tempfs)
  : Prop :=
  forall keys spec fs' args,
    policy_keys block = Some keys ->
    parse_block block (VDict d) fs = (Ok spec, fs') ->
    reconciler_args block (cmd_args spec) = Ok args ->
    forall k v,
      k ∈ keys -> dict_lookup k d = Some v ->
      get_values_from_cmd_args args keys !! k = Some (VStr (py_str v)).

(** The values of an item are no flags. *)
Definition values_not_flags (d : dict) : Prop :=
  forall k v, In (k, v) d -> startswith "--" (py_str v) = false.

Definition list_workspaces_cmd : command :=
  ["tw"; "-o"; "json"; "workspaces"; "list"].

Definition delete_workspace_cmd (id : string) : command :=
  ["tw"; "workspaces"; "delete"; "--id"; id].

(** A listed workspace has both the organization and the name asked for. *)
Definition workspace_matches (organization workspace_name : value)
    (workspace : dict) : bool :=
  py_eq (dict_get workspace "orgName") organization
  && py_eq (dict_get workspace "workspaceName") workspace_name.

(** The arguments [handle_pipelines] inspects before the first URL. *)
Fixpoint before_url (args : list string) : list string :=
  match args with
  | [] => []
  | a :: rest => if is_url a then [] else a :: before_url rest
  end.

(** Every character of a string passes a test. *)
Fixpoint all_chars (p : ascii -> bool) (s : string) : bool :=
  match s with
  | EmptyString => true
  | String c s' => p c && all_chars p s'
  end.

Definition no_space (s : string) : bool :=
  all_chars (fun c => negb (is_space c)) s.

Definition no_underscore (s : string) : bool :=
  all_chars (fun c => negb (Ascii.eqb c "_")) s.

(** The command line of a call with string arguments and keyword
    arguments. *)
Definition kwargs_command_line (c : TwCommand) (args : list string)
    (kwargs : dict) : command :=
  ("tw" :: if truthy (dict_get kwargs "to_json") then ["-o"; "json"] else [])
  ++ (py_split (tc_cmd c) ++ args)
  ++ match dict_get kwargs "config" with
     | VNone => []
     | config_path => ["--config=" +:+ py_str config_path]
     end
  ++ match dict_lookup "params_file" kwargs with
     | Some params_path => ["--params-file=" +:+ py_str params_path]
     | None => []
     end.

(** The keys some mapper treats in a way of its own. *)
Definition special_keys : list string :=
  ["type"; "file-path"; "params"; "url"; "pipeline"].

(** The fields [parse_datasets_block] reads. *)
Definition datasets_fields : list string :=
  ["file-path"; "name"; "workspace"; "description"; "header"].

(** The blocks with a mapper of their own. *)
Definition mapped_blocks : list string :=
  [ "credentials"; "compute-envs"; "teams"; "actions"; "datasets";
    "pipelines"; "launch" ].

(** The specification of an item of a block without a mapper of its own. *)
Definition generic_spec (d : dict) : CommandSpec :=
  {| cmd_args := Args (parse_generic_block (dict_remove "overwrite" d));
     overwrite := match dict_lookup "overwrite" d with
                  | Some v => v
                  | None => VBool false
                  end |}.

(** * Properties *)

(** The collaborators a goal does not mention are dropped before a
    propositional solver is run, so that no proof depends on them. *)
Ltac drop_env :=
  try clear check_if_exists; try clear find_key_value_in_dict;
  try clear json_loads; try clear is_url; try clear tw_exec;
  try clear yaml_load; try clear mktemp; try clear py_repr.

Ltac tauto_closed := drop_env; tauto.

(** ** Strings and flags *)

Lemma flag_startswith (k : string) : startswith "--" (flag k) = true.
Proof.
  unfold startswith, flag. apply String.prefix_correct.
  simpl. destruct k; reflexivity.
Qed.

Lemma flag_drop (k : string) : str_drop 2 (flag k) = k.
Proof. reflexivity. Qed.

Lemma flag_inj (k k' : string) : flag k = flag k' -> k = k'.
Proof. unfold flag. simpl. intros H. now inversion H. Qed.

Lemma startswith_flag (a : string) :
  startswith "--" a = true -> a = flag (str_drop 2 a).
Proof.
  unfold startswith, flag. intros H. apply String.prefix_correct in H.
  destruct a as [|c1 [|c2 a]]; simpl in H; try discriminate.
  destruct a; simpl in H; inversion H; reflexivity.
Qed.

Lemma nonflag_neq_flag (v k : string) :
  startswith "--" v = false -> v <> flag k.
Proof. intros Hv ->. rewrite flag_startswith in Hv. discriminate. Qed.

Lemma in_list_elem (x : string) (xs : list string) :
  in_list x xs = true <-> x ∈ xs.
Proof.
  unfold in_list. rewrite existsb_exists, list_elem_of_In. split.
  - intros (y & Hy & Heq). apply String.eqb_eq in Heq. now subst.
  - intros H. exists x. split; [assumption | apply String.eqb_refl].
Qed.

(** ** Issuing commands *)

Lemma all_str_strs (l : list string) : all_str (map VStr l) = Some l.
Proof. induction l as [|a l IH]; cbn; [reflexivity | now rewrite IH]. Qed.

Lemma all_str_app_strs (l : list string) (vs : list value) :
  all_str (map VStr l ++ vs) =
  match all_str vs with Some r => Some (l ++ r) | None => None end.
Proof.
  induction l as [|a l IH]; cbn.
  - destruct (all_str vs); reflexivity.
  - rewrite IH. destruct (all_str vs); reflexivity.
Qed.

Lemma TwCommand_call_strs (c : TwCommand) (args : list string) (t : trace) :
  TwCommand_call c (map VStr args) t =
  (Ok (tw_exec t (command_line c args)), t ++ [command_line c args]).
Proof.
  unfold TwCommand_call, _tw_run, command_line.
  change (VStr "tw" :: map VStr (py_split (tc_cmd c)) ++ map VStr args)
    with (map VStr ["tw"] ++ (map VStr (py_split (tc_cmd c)) ++ map VStr args)).
  rewrite !all_str_app_strs, all_str_strs. reflexivity.
Qed.

Lemma TwCommand_call_verb (c : TwCommand) (verb : string)
    (args : list string) (t : trace) :
  TwCommand_call c (VStr verb :: map VStr args) t =
  (Ok (tw_exec t (command_line c (verb :: args))),
   t ++ [command_line c (verb :: args)]).
Proof. exact (TwCommand_call_strs c (verb :: args) t). Qed.

(** ** Participants *)

Lemma strip_role_loop_from (args : list string) :
  (forall acc, fst (fold_left strip_role_step args (acc, false))
               = acc ++ without_role_pairs args)
  /\ (forall acc, fst (fold_left strip_role_step args (acc, true))
                  = acc ++ match args with
                           | [] => []
                           | _ :: rest => without_role_pairs rest
                           end).
Proof.
  induction args as [|b rest [IHf IHt]]; split; intros acc; simpl.
  - now rewrite app_nil_r.
  - now rewrite app_nil_r.
  - destruct (String.eqb b "--role"); simpl.
    + apply IHt.
    + rewrite IHf. now rewrite <- app_assoc.
  - apply IHf.
Qed.

Lemma strip_role_loop_spec (args : list string) :
  fst (strip_role_loop args) = without_role_pairs args.
Proof.
  unfold strip_role_loop.
  exact (proj1 (strip_role_loop_from args) []).
Qed.

(** C2: for every argument list, [handle_participants] issues exactly two
    commands, in order: [participants add] with the arguments minus every
    [--role] token and the token right after it, then [participants update]
    with the arguments as supplied. *)
Theorem handle_participants_add_then_update (args : list string) (t : trace) :
  handle_participants args t =
  (Ok tt,
   t ++ [ ["tw"; "participants"; "add"] ++ without_role_pairs args;
          ["tw"; "participants"; "update"] ++ args ]).
Proof.
  unfold handle_participants, bind.
  rewrite !TwCommand_call_verb, strip_role_loop_spec.
  unfold ret, command_line. simpl.
  now rewrite <- app_assoc.
Qed.

(** ** Pipelines *)

Lemma pipelines_loop_trace (args rest : list string) (t : trace) :
  pipelines_loop (tw_getattr "pipelines") args rest t =
  (Ok tt, t ++ pipelines_issued args rest).
Proof.
  revert t. induction rest as [|arg rest IH]; intros t; simpl.
  - unfold ret. now rewrite app_nil_r.
  - destruct (is_url arg).
    + unfold bind. rewrite TwCommand_call_verb. reflexivity.
    + destruct (contains ".json" arg).
      * unfold bind. rewrite TwCommand_call_verb, IH.
        unfold command_line. simpl. now rewrite <- app_assoc.
      * apply IH.
Qed.

(** No argument is a URL and none contains [.json]: nothing is issued. *)
Lemma handle_pipelines_no_match (args : list string) (t : trace) :
  Forall (fun a => is_url a = false /\ contains ".json" a = false) args ->
  handle_pipelines args t = (Ok tt, t).
Proof.
  intros H. unfold handle_pipelines. rewrite pipelines_loop_trace.
  enough (forall rest,
    Forall (fun a => is_url a = false /\ contains ".json" a = false) rest ->
    pipelines_issued args rest = []) as E
    by (rewrite (E args H); now rewrite app_nil_r).
  induction 1 as [|a rest [Hu Hj] _ IH]; simpl; [reflexivity|].
  now rewrite Hu, Hj.
Qed.

(** The first argument that is a URL or contains [.json] is a URL: one
    [add] and nothing else. *)
Lemma handle_pipelines_url_first (pre post : list string) (a : string)
    (t : trace) :
  Forall (fun a => is_url a = false /\ contains ".json" a = false) pre ->
  is_url a = true ->
  handle_pipelines (pre ++ a :: post) t =
  (Ok tt, t ++ [["tw"; "pipelines"; "add"] ++ pre ++ a :: post]).
Proof.
  intros Hpre Ha. unfold handle_pipelines. rewrite pipelines_loop_trace.
  assert (E : forall args,
    pipelines_issued args (pre ++ a :: post)
    = [["tw"; "pipelines"; "add"] ++ args]).
  { intros args. induction Hpre as [|b pre [Hu Hj] _ IH]; simpl.
    - now rewrite Ha.
    - now rewrite Hu, Hj. }
  now rewrite E.
Qed.

(** Every [.json] argument met before the first URL issues an [import] of
    its own, and a URL met afterwards still issues the [add]. *)
Lemma handle_pipelines_json_then (a : string) (rest : list string)
    (t : trace) :
  is_url a = false -> contains ".json" a = true ->
  handle_pipelines (a :: rest) t =
  (Ok tt,
   t ++ (["tw"; "pipelines"; "import"] ++ a :: rest)
        :: pipelines_issued (a :: rest) rest).
Proof.
  intros Hu Hj. unfold handle_pipelines. rewrite pipelines_loop_trace.
  simpl. now rewrite Hu, Hj.
Qed.

(** C1, at an argument list with two [.json] tokens and no URL: the loop
    does not leave after the first match, and [import] is issued twice. *)
Theorem handle_pipelines_imports_twice (t : trace) :
  is_url "pipeline.json" = false ->
  is_url "--name" = false ->
  is_url "my.json" = false ->
  handle_pipelines ["pipeline.json"; "--name"; "my.json"] t =
  (Ok tt,
   t ++ [ ["tw"; "pipelines"; "import"; "pipeline.json"; "--name"; "my.json"];
          ["tw"; "pipelines"; "import"; "pipeline.json"; "--name"; "my.json"]
        ]).
Proof.
  intros H1 H2 H3. unfold handle_pipelines. rewrite pipelines_loop_trace.
  simpl. rewrite H1, H2, H3. reflexivity.
Qed.

(** ** The block parser on an absent section *)

Lemma logging_unbound : global_name helper_module_names "logging"
                        = Raise (NameError "logging").
Proof. reflexivity. Qed.

(** C4, as the code has it: when the section is absent from the document
    (or present and null), [parse_yaml_block] raises [NameError] on the
    name [logging], which the module never imports, before the empty item
    is put in place; no file is written. *)
Theorem parse_yaml_block_absent_section_raises
    (file_path block_name : string) (d : dict) (fs : tempfs) :
  yaml_load file_path = Ok (VDict d) ->
  dict_lookup block_name d = None ->
  parse_yaml_block file_path block_name fs
  = (Raise (NameError "logging"), fs).
Proof.
  intros Hload Hnone.
  unfold parse_yaml_block, parse_yaml_block_in, bind, lift.
  rewrite Hload. simpl. unfold dict_get. rewrite Hnone. reflexivity.
Qed.

(** The mapper of any block, run on the empty item. *)
Lemma get_parser_empty_item (block_name : string) (fs : tempfs) :
  exists m, get_parser block_to_function block_name [] fs = (Ok m, fs)
            /\ (m = Args [] \/ m = TeamArgs [] []).
Proof.
  unfold block_to_function. simpl.
  repeat match goal with
         | |- context [if String.eqb block_name ?s then _ else _] =>
             destruct (String.eqb block_name s);
             [eexists; split; [reflexivity | auto] |]
         end.
  eexists; split; [reflexivity | auto].
Qed.

(** Were [logging] bound in the module, the absent section would be
    parsed as one empty item: one default-mapped specification, not to be
    overwritten. *)
Lemma parse_yaml_block_absent_section_with_logging
    (names : list string) (file_path block_name : string) (d : dict)
    (fs : tempfs) :
  in_list "logging" names = true ->
  yaml_load file_path = Ok (VDict d) ->
  dict_lookup block_name d = None ->
  exists m,
    parse_yaml_block_in names file_path block_name fs
    = (Ok (block_name, [ {| cmd_args := m; overwrite := VBool false |} ]),
       fs)
    /\ (m = Args [] \/ m = TeamArgs [] []).
Proof.
  intros Hlog Hload Hnone.
  destruct (get_parser_empty_item block_name fs) as (m & Hm & Hshape).
  exists m. split; [|exact Hshape].
  assert (Hitem : parse_block block_name (VDict []) fs
                  = (Ok {| cmd_args := m; overwrite := VBool false |}, fs)).
  { unfold parse_block, dict_pop.
    change (dict_remove "overwrite" []) with (@nil (string * value)).
    cbn [dict_lookup]. unfold bind. now rewrite Hm. }
  unfold parse_yaml_block_in, bind, lift.
  rewrite Hload. cbn [document_get]. unfold dict_get. rewrite Hnone.
  unfold global_name. rewrite Hlog.
  unfold ret. cbn [py_iter for_m]. unfold bind. now rewrite Hitem.
Qed.

(** ** Reverse mapping of an argument list *)

Lemma init_values_lookup (keys : list string) (m : gmap string value)
    (k : string) :
  init_values keys m !! k = if decide (k ∈ keys) then Some VNone else m !! k.
Proof.
  unfold init_values. revert m.
  induction keys as [|a keys IH]; intros m; cbn [fold_left].
  - rewrite decide_False; [reflexivity | apply not_elem_of_nil].
  - rewrite IH. destruct (decide (k ∈ keys)) as [Hin|Hnin].
    + rewrite decide_True; [reflexivity | apply elem_of_cons; now right].
    + destruct (decide (k = a)) as [->|Hne].
      * rewrite decide_True by (apply elem_of_cons; now left).
        apply lookup_insert_eq.
      * rewrite decide_False.
        -- now apply lookup_insert_ne.
        -- rewrite elem_of_cons. tauto_closed.
Qed.

Lemma init_values_dom (keys : list string) :
  dom (init_values keys ∅) = (list_to_set keys : gset string).
Proof.
  apply set_eq. intros k. rewrite elem_of_dom, init_values_lookup.
  rewrite elem_of_list_to_set, lookup_empty.
  case_decide; split; intros H'; done.
Qed.

Lemma get_values_step_dom (keys : list string)
    (st : gmap string value * option string) (arg : string) :
  dom (fst st) = (list_to_set keys : gset string) ->
  dom (fst (get_values_step keys st arg)) = (list_to_set keys : gset string).
Proof.
  destruct st as [vals key]. unfold get_values_step. simpl. intros Hd.
  destruct (startswith "--" arg); simpl; [exact Hd|].
  destruct key as [k|]; [|exact Hd].
  destruct (negb (String.eqb k "") && in_list k keys) eqn:E; [|exact Hd].
  apply andb_true_iff in E as [_ Hin]. apply in_list_elem in Hin.
  rewrite dom_insert_L, Hd.
  apply (elem_of_list_to_set (C := gset string)) in Hin.
  apply set_eq. intros x. rewrite elem_of_union, elem_of_singleton.
  split; [intros [->|]; assumption | now right].
Qed.

Lemma get_values_loop_dom (keys cmd_args : list string)
    (st : gmap string value * option string) :
  dom (fst st) = (list_to_set keys : gset string) ->
  dom (fst (fold_left (get_values_step keys) cmd_args st))
  = (list_to_set keys : gset string).
Proof.
  revert st. induction cmd_args as [|a l IH]; intros st Hd; simpl.
  - exact Hd.
  - apply IH. now apply get_values_step_dom.
Qed.

Lemma never_occurs_tail (k a : string) (rest : list string) :
  never_occurs k (a :: rest) -> never_occurs k rest.
Proof. intros H i v Ho. apply (H (S i) v). exact Ho. Qed.

(** The loop leaves the value of [k] alone over arguments in which [--k]
    never meets a value. *)
Lemma get_values_loop_unchanged (keys : list string) (k : string)
    (post : list string) :
  forall (vals : gmap string value) (key : option string),
    (key = Some k ->
     match post with [] => True | b :: _ => startswith "--" b = true end) ->
    never_occurs k post ->
    fst (fold_left (get_values_step keys) post (vals, key)) !! k = vals !! k.
Proof.
  induction post as [|a rest IH]; intros vals key Hkey Hno; simpl.
  - reflexivity.
  - destruct (startswith "--" a) eqn:Ha.
    + rewrite IH; [reflexivity | | now apply never_occurs_tail in Hno].
      intros [= Hk]. destruct rest as [|b rest']; [exact I|].
      destruct (startswith "--" b) eqn:Hb; [reflexivity|].
      exfalso. apply (Hno 0%nat b). repeat split; simpl; try assumption.
      rewrite <- Hk. f_equal. now apply startswith_flag.
    + assert (Hne : key <> Some k).
      { intros ->. specialize (Hkey eq_refl). simpl in Hkey. congruence. }
      rewrite IH; [| discriminate | now apply never_occurs_tail in Hno].
      destruct key as [k'|]; [|reflexivity].
      destruct (negb (String.eqb k' "") && in_list k' keys); [|reflexivity].
      apply lookup_insert_ne. congruence.
Qed.

Lemma get_values_never (cmd_args keys : list string) (k : string) :
  k ∈ keys -> never_occurs k cmd_args ->
  get_values_from_cmd_args cmd_args keys !! k = Some VNone.
Proof.
  intros Hin Hno. unfold get_values_from_cmd_args.
  rewrite get_values_loop_unchanged; [| discriminate | assumption].
  fold (init_values keys ∅). rewrite init_values_lookup.
  now rewrite decide_True.
Qed.

Lemma get_values_last (cmd_args keys : list string) (k v : string) :
  k ∈ keys -> k <> "" -> last_occurrence k cmd_args v ->
  get_values_from_cmd_args cmd_args keys !! k = Some (VStr v).
Proof.
  intros Hin Hne (pre & post & -> & Hv & Hno).
  unfold get_values_from_cmd_args. rewrite fold_left_app.
  destruct (fold_left (get_values_step keys) pre _) as [vals key].
  cbn [fold_left]. unfold get_values_step at 3.
  rewrite flag_startswith, flag_drop. unfold get_values_step at 2.
  rewrite Hv. apply in_list_elem in Hin. rewrite Hin.
  apply String.eqb_neq in Hne. rewrite Hne. cbn [negb andb].
  rewrite get_values_loop_unchanged; [| discriminate | assumption].
  apply lookup_insert_eq.
Qed.

(** The empty key is never given a value. *)
Lemma get_values_loop_empty_key (keys cmd_args : list string) :
  forall (vals : gmap string value) (key : option string),
    fst (fold_left (get_values_step keys) cmd_args (vals, key)) !! ""
    = vals !! "".
Proof.
  induction cmd_args as [|a rest IH]; intros vals key; simpl.
  - reflexivity.
  - destruct (startswith "--" a); rewrite IH; [reflexivity|].
    destruct key as [k'|]; [|reflexivity].
    destruct (String.eqb k' "") eqn:E; simpl; [reflexivity|].
    destruct (in_list k' keys); [|reflexivity].
    apply lookup_insert_ne. apply String.eqb_neq in E. congruence.
Qed.

(** C10, as the code has it: the reverse mapping is total, its key set is
    exactly the requested keys, a requested key whose flag never meets a
    value maps to [None], and a non-empty requested key maps to the value
    after the last occurrence of its flag followed by a non-flag token;
    the empty key always maps to [None]. *)
Theorem get_values_total_key_exact (cmd_args keys : list string) :
  let values := get_values_from_cmd_args cmd_args keys in
  dom values = (list_to_set keys : gset string)
  /\ forall k, k ∈ keys ->
       (never_occurs k cmd_args -> values !! k = Some VNone)
       /\ (k <> "" -> forall v, last_occurrence k cmd_args v ->
                               values !! k = Some (VStr v))
       /\ (k = "" -> values !! k = Some VNone).
Proof.
  split.
  - unfold get_values_from_cmd_args. apply get_values_loop_dom.
    apply init_values_dom.
  - intros k Hin. repeat split.
    + now apply get_values_never.
    + intros Hne v. now apply get_values_last.
    + intros ->. unfold get_values_from_cmd_args.
      rewrite get_values_loop_empty_key.
      fold (init_values keys ∅). rewrite init_values_lookup.
      now rewrite decide_True.
Qed.

(** ** The mappers, entry by entry *)

Lemma fold_left_chunks {A} (g : list string -> A -> list string)
    (f : A -> list string) (l : list A) (acc : list string) :
  (forall acc x, g acc x = acc ++ f x) ->
  fold_left g l acc = acc ++ flat_map f l.
Proof.
  intros Hg. revert acc. induction l as [|x l IH]; intros acc; simpl.
  - now rewrite app_nil_r.
  - rewrite IH, Hg. now rewrite <- app_assoc.
Qed.

Lemma parse_generic_block_chunks (item : dict) :
  parse_generic_block item = flat_map generic_chunk item.
Proof.
  unfold parse_generic_block.
  rewrite (fold_left_chunks _ generic_chunk); [reflexivity|].
  now intros acc [k v].
Qed.

Lemma parse_credentials_block_chunks (item : dict) :
  parse_credentials_block item = flat_map credentials_chunk item.
Proof.
  unfold parse_credentials_block.
  rewrite (fold_left_chunks _ credentials_chunk); [reflexivity|].
  intros acc [k v]. unfold credentials_chunk. simpl.
  now destruct (String.eqb k "type").
Qed.

Lemma parse_compute_envs_block_chunks (item : dict) :
  parse_compute_envs_block item = flat_map compute_envs_chunk item.
Proof.
  unfold parse_compute_envs_block.
  rewrite (fold_left_chunks _ compute_envs_chunk); [reflexivity|].
  intros acc [k v]. unfold compute_envs_chunk. simpl.
  now destruct (String.eqb k "file-path").
Qed.

(** *** Dictionaries *)

Lemma dict_lookup_In (k : string) (d : dict) (v : value) :
  dict_lookup k d = Some v -> In (k, v) d.
Proof.
  induction d as [|[k' v'] d IH]; simpl; [discriminate|].
  destruct (String.eqb k k') eqn:E.
  - apply String.eqb_eq in E. intros [= ->]. left. now subst.
  - intros H. right. now apply IH.
Qed.

Lemma dict_lookup_notin (k : string) (d : dict) :
  ~ In k (dict_keys d) -> dict_lookup k d = None.
Proof.
  induction d as [|[k' v'] d IH]; simpl; [reflexivity|].
  intros H. destruct (String.eqb k k') eqn:E.
  - apply String.eqb_eq in E. subst. tauto_closed.
  - apply IH. tauto_closed.
Qed.

Lemma dict_lookup_None_notin (k : string) (d : dict) :
  dict_lookup k d = None -> ~ In k (dict_keys d).
Proof.
  induction d as [|[k' v'] d IH]; simpl; [tauto_closed|].
  destruct (String.eqb k k') eqn:E; [discriminate|].
  apply String.eqb_neq in E. intros H [Heq|Hin]; [congruence|].
  now apply IH.
Qed.

Lemma dict_lookup_wf (k : string) (v : value) (d : dict) :
  wf_dict d -> In (k, v) d -> dict_lookup k d = Some v.
Proof.
  unfold wf_dict. induction d as [|[k' v'] d IH]; simpl; [tauto_closed|].
  intros Hnd [Heq|Hin].
  - injection Heq as -> ->. now rewrite String.eqb_refl.
  - apply List.NoDup_cons_iff in Hnd as [Hnotin Hnd].
    destruct (String.eqb k k') eqn:E.
    + apply String.eqb_eq in E. subst. exfalso. apply Hnotin.
      apply (in_map fst) in Hin. exact Hin.
    + now apply IH.
Qed.

Lemma dict_lookup_middle (k : string) (v : value) (l1 l2 : dict) :
  ~ In k (dict_keys l1) ->
  dict_lookup k (l1 ++ (k, v) :: l2) = Some v.
Proof.
  induction l1 as [|[k' v'] l1 IH]; simpl; intros H.
  - now rewrite String.eqb_refl.
  - destruct (String.eqb k k') eqn:E.
    + apply String.eqb_eq in E. subst. tauto_closed.
    + apply IH. tauto_closed.
Qed.

Lemma wf_dict_split (l1 l2 : dict) (k : string) (v : value) :
  wf_dict (l1 ++ (k, v) :: l2) ->
  ~ In k (dict_keys l1) /\ ~ In k (dict_keys l2)
  /\ wf_dict l1 /\ wf_dict l2.
Proof.
  unfold wf_dict, dict_keys. rewrite map_app. simpl. intros H.
  pose proof (List.NoDup_remove_2 _ _ _ H) as Hnot.
  pose proof (List.NoDup_remove_1 _ _ _ H) as Hnd.
  rewrite in_app_iff in Hnot.
  repeat split; try tauto_closed.
  - now apply List.NoDup_app_remove_r in Hnd.
  - now apply List.NoDup_app_remove_l in Hnd.
Qed.

Lemma dict_remove_In (k0 k : string) (v : value) (d : dict) :
  In (k, v) (dict_remove k0 d) <-> In (k, v) d /\ k <> k0.
Proof.
  unfold dict_remove. rewrite filter_In. simpl.
  rewrite negb_true_iff, String.eqb_neq. split; intros [H1 H2]; split;
    auto.
Qed.

Lemma dict_remove_wf (k0 : string) (d : dict) :
  wf_dict d -> wf_dict (dict_remove k0 d).
Proof.
  unfold wf_dict, dict_keys, dict_remove.
  induction d as [|[k v] d IH]; simpl; intros H; [constructor|].
  apply List.NoDup_cons_iff in H as [Hnotin Hnd].
  destruct (negb (String.eqb k0 k)); simpl; [|now apply IH].
  apply List.NoDup_cons; [|now apply IH].
  intros Hin. apply Hnotin. apply in_map_iff in Hin as ([k' v'] & <- & Hin).
  apply filter_In in Hin as [Hin _]. now apply (in_map fst) in Hin.
Qed.

Lemma dict_remove_lookup_ne (k0 k : string) (d : dict) :
  k <> k0 -> dict_lookup k (dict_remove k0 d) = dict_lookup k d.
Proof.
  intros Hne. unfold dict_remove.
  induction d as [|[k' v'] d IH]; simpl; [reflexivity|].
  destruct (String.eqb k0 k') eqn:E0; simpl.
  - apply String.eqb_eq in E0. subst k'.
    apply String.eqb_neq in Hne. now rewrite Hne.
  - destruct (String.eqb k k'); [reflexivity | exact IH].
Qed.

Lemma dict_split_at (k : string) (v : value) (d : dict) :
  dict_lookup k d = Some v ->
  d = dict_before k d ++ (k, v) :: dict_after k d
  /\ ~ In k (dict_keys (dict_before k d)).
Proof.
  induction d as [|[k' v'] d IH]; simpl; [discriminate|].
  destruct (String.eqb k k') eqn:E.
  - apply String.eqb_eq in E. subst. intros [= ->]. simpl. tauto_closed.
  - apply String.eqb_neq in E. intros H. destruct (IH H) as [Heq Hnot].
    simpl. split; [now rewrite <- Heq | intros [?|?]; [congruence | tauto_closed]].
Qed.

Lemma for_r_app {A B} (l1 l2 : list A) (body : B -> A -> result B)
    (acc : B) :
  for_r (l1 ++ l2) body acc =
  (let? acc' := for_r l1 body acc in for_r l2 body acc').
Proof.
  revert acc. induction l1 as [|x l1 IH]; intros acc; simpl; [reflexivity|].
  destruct (body acc x); simpl; [apply IH | reflexivity].
Qed.

(** ** Datasets *)

Lemma datasets_loop_without_file_path (item l : dict) (acc : list string) :
  ~ In "file-path" (dict_keys l) ->
  for_r l (datasets_step item) acc = Ok (acc ++ header_flags l).
Proof.
  revert acc. induction l as [|[k v] l IH]; intros acc Hnot; simpl.
  - now rewrite app_nil_r.
  - simpl in Hnot. destruct (String.eqb k "file-path") eqn:E.
    { apply String.eqb_eq in E. subst. tauto_closed. }
    simpl. rewrite IH by tauto_closed.
    destruct (String.eqb k "header" && is_True v); simpl.
    + now rewrite <- app_assoc.
    + reflexivity.
Qed.

Lemma datasets_step_file_path (item : dict) (acc : list string)
    (fp : value) :
  dict_lookup "file-path" item = Some fp ->
  datasets_step item acc ("file-path", fp) =
  match dict_lookup "name" item, dict_lookup "workspace" item,
        dict_lookup "description" item with
  | Some n, Some w, Some d =>
      Ok (acc ++ [ py_str fp; "--name"; py_str n; "--workspace"; py_str w;
                   "--description"; py_str d ])
  | None, _, _ => Raise (KeyError "name")
  | Some _, None, _ => Raise (KeyError "workspace")
  | Some _, Some _, None => Raise (KeyError "description")
  end.
Proof.
  intros Hfp. unfold datasets_step, dict_item. rewrite Hfp.
  cbn [String.eqb Ascii.eqb Bool.eqb andb rbind].
  destruct (dict_lookup "name" item) as [n|]; [|reflexivity].
  destruct (dict_lookup "workspace" item) as [w|]; [|reflexivity].
  destruct (dict_lookup "description" item) as [d|]; reflexivity.
Qed.

(** The datasets mapper on an item that has [file-path]. *)
Lemma parse_datasets_block_with_path (item : dict) (fp : value) :
  wf_dict item ->
  dict_lookup "file-path" item = Some fp ->
  parse_datasets_block item =
  match dict_lookup "name" item, dict_lookup "workspace" item,
        dict_lookup "description" item with
  | Some n, Some w, Some d =>
      Ok (header_flags (dict_before "file-path" item)
          ++ [ py_str fp; "--name"; py_str n; "--workspace"; py_str w;
               "--description"; py_str d ]
          ++ header_flags (dict_after "file-path" item))
  | None, _, _ => Raise (KeyError "name")
  | Some _, None, _ => Raise (KeyError "workspace")
  | Some _, Some _, None => Raise (KeyError "description")
  end.
Proof.
  intros Hwf Hfp. unfold parse_datasets_block.
  destruct (dict_split_at _ _ _ Hfp) as [Hsplit Hbefore].
  set (b := dict_before "file-path" item) in *.
  set (a := dict_after "file-path" item) in *.
  assert (Hafter : ~ In "file-path" (dict_keys a)).
  { rewrite Hsplit in Hwf. now apply wf_dict_split in Hwf. }
  assert (Hloop : for_r item (datasets_step item) [] =
                  (let? acc := datasets_step item (header_flags b)
                                 ("file-path", fp) in
                   for_r a (datasets_step item) acc)).
  { rewrite Hsplit at 1. rewrite for_r_app.
    rewrite datasets_loop_without_file_path by assumption.
    reflexivity. }
  rewrite Hloop, (datasets_step_file_path _ _ _ Hfp).
  destruct (dict_lookup "name" item) as [n|]; [|reflexivity].
  destruct (dict_lookup "workspace" item) as [w|]; [|reflexivity].
  destruct (dict_lookup "description" item) as [d|]; [|reflexivity].
  cbn [rbind].
  rewrite datasets_loop_without_file_path by assumption.
  now rewrite <- app_assoc.
Qed.

(** The datasets mapper on an item without [file-path]. *)
Lemma parse_datasets_block_without_path (item : dict) :
  dict_lookup "file-path" item = None ->
  parse_datasets_block item = Ok (header_flags item).
Proof.
  intros Hfp. unfold parse_datasets_block.
  apply dict_lookup_None_notin in Hfp.
  now rewrite datasets_loop_without_file_path.
Qed.

(** C5, as the code has it: an item without [file-path] is not rejected,
    only its [header] is mapped; an item with [file-path] fails with the
    [KeyError] of the first of [name], [workspace], [description] that is
    absent, and when all are present it maps to the file path and the three
    flags in fixed order, the bare [--header] of a true [header] placed
    before or after them as [header] comes before or after [file-path] in
    the item. *)
Theorem parse_datasets_block_cases (item : dict) :
  wf_dict item ->
  match dict_lookup "file-path" item with
  | None => parse_datasets_block item = Ok (header_flags item)
  | Some fp =>
      match dict_lookup "name" item, dict_lookup "workspace" item,
            dict_lookup "description" item with
      | Some n, Some w, Some d =>
          parse_datasets_block item =
          Ok (header_flags (dict_before "file-path" item)
              ++ [ py_str fp; "--name"; py_str n; "--workspace"; py_str w;
                   "--description"; py_str d ]
              ++ header_flags (dict_after "file-path" item))
      | None, _, _ => parse_datasets_block item = Raise (KeyError "name")
      | Some _, None, _ =>
          parse_datasets_block item = Raise (KeyError "workspace")
      | Some _, Some _, None =>
          parse_datasets_block item = Raise (KeyError "description")
      end
  end.
Proof.
  intros Hwf.
  destruct (dict_lookup "file-path" item) as [fp|] eqn:Hfp.
  - rewrite (parse_datasets_block_with_path item fp Hwf Hfp).
    destruct (dict_lookup "name" item) as [n|]; [|reflexivity].
    destruct (dict_lookup "workspace" item) as [w|]; [|reflexivity].
    destruct (dict_lookup "description" item) as [d|]; reflexivity.
  - now apply parse_datasets_block_without_path.
Qed.

(** ** The mappers that write a temporary file *)

Lemma not_params_key (k : string) (l : dict) (v : value) :
  ~ In "params" (dict_keys ((k, v) :: l)) ->
  String.eqb k "params" = false /\ ~ In "params" (dict_keys l).
Proof.
  simpl. intros H. split; [|tauto_closed].
  apply String.eqb_neq. intros ->. tauto_closed.
Qed.

Lemma actions_step_no_params (path k : string) (v : value)
    (acc : list string) (fs : tempfs) :
  String.eqb k "params" = false ->
  actions_step acc (k, v) fs = (Ok (acc ++ actions_chunk path (k, v)), fs).
Proof.
  intros Hk. unfold actions_step, actions_chunk. cbn [fst snd]. rewrite Hk.
  now destruct (String.eqb k "type").
Qed.

Lemma actions_step_params (v : value) (acc : list string) (fs : tempfs) :
  actions_step acc ("params", v) fs
  = (Ok (acc ++ actions_chunk (mktemp (map fst fs)) ("params", v)),
     fs ++ [(mktemp (map fst fs), v)]).
Proof. reflexivity. Qed.

Lemma actions_loop_no_params (l : dict) (path : string) :
  ~ In "params" (dict_keys l) ->
  forall acc fs,
    for_m l actions_step acc fs
    = (Ok (acc ++ flat_map (actions_chunk path) l), fs).
Proof.
  induction l as [|[k v] l IH]; intros Hnot acc fs.
  - simpl. unfold ret. now rewrite app_nil_r.
  - apply not_params_key in Hnot as [Hk Hnot].
    cbn [for_m flat_map]. unfold bind.
    rewrite (actions_step_no_params path k v acc fs Hk), (IH Hnot).
    now rewrite <- app_assoc.
Qed.

Lemma actions_loop_exact (item : dict) :
  wf_dict item ->
  forall acc fs,
    for_m item actions_step acc fs
    = (Ok (acc ++ flat_map (actions_chunk (mktemp (map fst fs))) item),
       store_after fs item).
Proof.
  unfold store_after.
  induction item as [|[k v] l IH]; intros Hwf acc fs.
  - simpl. unfold ret. now rewrite app_nil_r.
  - pose proof (wf_dict_split [] l k v Hwf) as (_ & Hkl & _ & Hwfl).
    cbn [for_m flat_map dict_lookup]. unfold bind.
    rewrite (String.eqb_sym "params" k).
    destruct (String.eqb k "params") eqn:Ep.
    + apply String.eqb_eq in Ep. subst k.
      rewrite actions_step_params.
      rewrite (actions_loop_no_params l (mktemp (map fst fs)) Hkl).
      now rewrite <- app_assoc.
    + rewrite (actions_step_no_params (mktemp (map fst fs)) k v acc fs Ep).
      rewrite (IH Hwfl). now rewrite <- app_assoc.
Qed.

Lemma parse_actions_block_exact (item : dict) (fs : tempfs) :
  wf_dict item ->
  parse_actions_block item fs
  = (Ok (flat_map (actions_chunk (mktemp (map fst fs))) item),
     store_after fs item).
Proof.
  intros Hwf. unfold parse_actions_block.
  now rewrite (actions_loop_exact item Hwf).
Qed.

Lemma pipelines_acc_after_nil (path : string) (acc : pipelines_acc) :
  pipelines_acc_after path acc [] = acc.
Proof.
  destruct acc. unfold pipelines_acc_after. simpl.
  now rewrite !app_nil_r.
Qed.

Lemma pipelines_acc_after_cons (path : string) (acc : pipelines_acc)
    (kv : string * value) (l : dict) :
  pipelines_acc_after path acc (kv :: l)
  = pipelines_acc_after path (pipelines_acc_after path acc [kv]) l.
Proof.
  unfold pipelines_acc_after. simpl.
  now rewrite !app_nil_r, <- !app_assoc.
Qed.

Lemma pipelines_step_no_params (path k : string) (v : value)
    (acc : pipelines_acc) (fs : tempfs) :
  String.eqb k "params" = false ->
  pipelines_step acc (k, v) fs
  = (Ok (pipelines_acc_after path acc [(k, v)]), fs).
Proof.
  intros Hk.
  unfold pipelines_step, pipelines_acc_after, pipelines_cmd_chunk,
    pipelines_repo_chunk, params_chunk.
  cbn [fst snd flat_map]. rewrite Hk.
  destruct (String.eqb k "url"); [unfold ret; now rewrite !app_nil_r|].
  destruct (String.eqb k "file-path"); unfold ret; now rewrite !app_nil_r.
Qed.

Lemma pipelines_step_params (v : value) (acc : pipelines_acc)
    (fs : tempfs) :
  pipelines_step acc ("params", v) fs
  = (Ok (pipelines_acc_after (mktemp (map fst fs)) acc [("params", v)]),
     fs ++ [(mktemp (map fst fs), v)]).
Proof.
  unfold pipelines_acc_after. simpl. rewrite !app_nil_r. reflexivity.
Qed.

Lemma pipelines_loop_no_params (l : dict) (path : string) :
  ~ In "params" (dict_keys l) ->
  forall acc fs,
    for_m l pipelines_step acc fs
    = (Ok (pipelines_acc_after path acc l), fs).
Proof.
  induction l as [|[k v] l IH]; intros Hnot acc fs.
  - simpl. unfold ret. now rewrite pipelines_acc_after_nil.
  - apply not_params_key in Hnot as [Hk Hnot].
    cbn [for_m]. unfold bind.
    rewrite (pipelines_step_no_params path k v acc fs Hk).
    rewrite (IH Hnot). now rewrite <- pipelines_acc_after_cons.
Qed.

Lemma pipelines_loop_exact (item : dict) :
  wf_dict item ->
  forall acc fs,
    for_m item pipelines_step acc fs
    = (Ok (pipelines_acc_after (mktemp (map fst fs)) acc item),
       store_after fs item).
Proof.
  unfold store_after.
  induction item as [|[k v] l IH]; intros Hwf acc fs.
  - simpl. unfold ret. now rewrite pipelines_acc_after_nil.
  - pose proof (wf_dict_split [] l k v Hwf) as (_ & Hkl & _ & Hwfl).
    cbn [for_m dict_lookup]. unfold bind.
    rewrite (String.eqb_sym "params" k).
    destruct (String.eqb k "params") eqn:Ep.
    + apply String.eqb_eq in Ep. subst k.
      rewrite pipelines_step_params.
      rewrite (pipelines_loop_no_params l (mktemp (map fst fs)) Hkl).
      now rewrite <- pipelines_acc_after_cons.
    + rewrite (pipelines_step_no_params (mktemp (map fst fs)) k v acc fs Ep).
      rewrite (IH Hwfl). now rewrite <- pipelines_acc_after_cons.
Qed.

Lemma parse_pipelines_block_exact (item : dict) (fs : tempfs) :
  wf_dict item ->
  parse_pipelines_block item fs
  = (Ok (flat_map pipelines_repo_chunk item
         ++ flat_map (params_chunk (mktemp (map fst fs))) item
         ++ flat_map pipelines_cmd_chunk item),
     store_after fs item).
Proof.
  intros Hwf. unfold parse_pipelines_block, bind.
  now rewrite (pipelines_loop_exact item Hwf).
Qed.

Lemma launch_step_no_params (path k : string) (v : value)
    (acc : list string * list string) (fs : tempfs) :
  String.eqb k "params" = false ->
  launch_step acc (k, v) fs
  = (Ok (fst acc ++ launch_repo_chunk (k, v),
         snd acc ++ launch_cmd_chunk path (k, v)), fs).
Proof.
  intros Hk. destruct acc as [repo cmd].
  unfold launch_step, launch_repo_chunk, launch_cmd_chunk.
  cbn [fst snd]. rewrite Hk.
  destruct (String.eqb k "pipeline" || String.eqb k "url"); unfold ret;
    now rewrite !app_nil_r.
Qed.

Lemma launch_step_params (v : value) (acc : list string * list string)
    (fs : tempfs) :
  launch_step acc ("params", v) fs
  = (Ok (fst acc ++ launch_repo_chunk ("params", v),
         snd acc ++ launch_cmd_chunk (mktemp (map fst fs)) ("params", v)),
     fs ++ [(mktemp (map fst fs), v)]).
Proof.
  destruct acc as [repo cmd]. simpl. rewrite app_nil_r. reflexivity.
Qed.

Lemma launch_loop_no_params (l : dict) (path : string) :
  ~ In "params" (dict_keys l) ->
  forall acc fs,
    for_m l launch_step acc fs
    = (Ok (fst acc ++ flat_map launch_repo_chunk l,
           snd acc ++ flat_map (launch_cmd_chunk path) l), fs).
Proof.
  induction l as [|[k v] l IH]; intros Hnot acc fs.
  - simpl. unfold ret. rewrite !app_nil_r. now destruct acc.
  - apply not_params_key in Hnot as [Hk Hnot].
    cbn [for_m]. unfold bind.
    rewrite (launch_step_no_params path k v acc fs Hk), (IH Hnot).
    cbn [fst snd flat_map]. now rewrite <- !app_assoc.
Qed.

Lemma launch_loop_exact (item : dict) :
  wf_dict item ->
  forall acc fs,
    for_m item launch_step acc fs
    = (Ok (fst acc ++ flat_map launch_repo_chunk item,
           snd acc
           ++ flat_map (launch_cmd_chunk (mktemp (map fst fs))) item),
       store_after fs item).
Proof.
  unfold store_after.
  induction item as [|[k v] l IH]; intros Hwf acc fs.
  - simpl. unfold ret. rewrite !app_nil_r. now destruct acc.
  - pose proof (wf_dict_split [] l k v Hwf) as (_ & Hkl & _ & Hwfl).
    cbn [for_m dict_lookup]. unfold bind.
    rewrite (String.eqb_sym "params" k).
    destruct (String.eqb k "params") eqn:Ep.
    + apply String.eqb_eq in Ep. subst k.
      rewrite launch_step_params.
      rewrite (launch_loop_no_params l (mktemp (map fst fs)) Hkl).
      cbn [fst snd flat_map]. now rewrite <- !app_assoc.
    + rewrite (launch_step_no_params (mktemp (map fst fs)) k v acc fs Ep).
      rewrite (IH Hwfl). cbn [fst snd flat_map].
      now rewrite <- !app_assoc.
Qed.

Lemma parse_launch_block_exact (item : dict) (fs : tempfs) :
  wf_dict item ->
  parse_launch_block item fs
  = (Ok (flat_map launch_repo_chunk item
         ++ flat_map (launch_cmd_chunk (mktemp (map fst fs))) item),
     store_after fs item).
Proof.
  intros Hwf. unfold parse_launch_block, bind.
  now rewrite (launch_loop_exact item Hwf).
Qed.

(** ** Argument order of pipelines and launch *)

Lemma flat_map_filter {A B} (f g : A -> list B) (p : A -> bool)
    (l : list A) :
  (forall x, f x = if p x then g x else []) ->
  flat_map f l = flat_map g (List.filter p l).
Proof.
  intros H. induction l as [|x l IH]; simpl; [reflexivity|].
  rewrite H, IH. now destruct (p x).
Qed.

Lemma flat_map_singleton {A B} (h : A -> B) (l : list A) :
  flat_map (fun x => [h x]) l = map h l.
Proof. induction l as [|x l IH]; simpl; [reflexivity | now rewrite IH]. Qed.

Lemma params_chunk_none (path : string) (l : dict) :
  ~ In "params" (dict_keys l) -> flat_map (params_chunk path) l = [].
Proof.
  induction l as [|[k v] l IH]; intros Hnot; [reflexivity|].
  apply not_params_key in Hnot as [Hk Hnot]. simpl.
  rewrite (IH Hnot). unfold params_chunk. cbn [fst]. rewrite Hk.
  now destruct (String.eqb k "url").
Qed.

Lemma params_chunk_flat (path : string) (item : dict) :
  wf_dict item ->
  flat_map (params_chunk path) item =
  match dict_lookup "params" item with
  | Some _ => ["--params-file"; path]
  | None => []
  end.
Proof.
  intros Hwf. destruct (dict_lookup "params" item) as [v|] eqn:Hp.
  - destruct (dict_split_at _ _ _ Hp) as [Hsplit Hbefore].
    rewrite Hsplit in Hwf. apply wf_dict_split in Hwf as (_ & Hafter & _).
    rewrite Hsplit, flat_map_app. cbn [flat_map].
    rewrite !params_chunk_none by assumption. reflexivity.
  - apply params_chunk_none. now apply dict_lookup_None_notin.
Qed.

Lemma pipelines_repo_positional (item : dict) :
  flat_map pipelines_repo_chunk item
  = positional_args pipelines_positional item.
Proof.
  unfold positional_args. rewrite <- flat_map_singleton.
  apply flat_map_filter. intros [k v].
  unfold pipelines_repo_chunk, pipelines_positional. cbn [fst snd].
  destruct (String.eqb k "url"); [reflexivity|].
  destruct (String.eqb k "params") eqn:Ep.
  - apply String.eqb_eq in Ep. now subst.
  - now destruct (String.eqb k "file-path").
Qed.

Lemma pipelines_cmd_remaining (item : dict) :
  flat_map pipelines_cmd_chunk item
  = flat_map generic_chunk (remaining_fields pipelines_positional item).
Proof.
  apply flat_map_filter. intros [k v].
  unfold pipelines_cmd_chunk, pipelines_positional. cbn [fst snd].
  destruct (String.eqb k "url"); [reflexivity|].
  destruct (String.eqb k "params") eqn:Ep.
  - apply String.eqb_eq in Ep. now subst.
  - now destruct (String.eqb k "file-path").
Qed.

Lemma launch_repo_positional (item : dict) :
  flat_map launch_repo_chunk item = positional_args launch_positional item.
Proof.
  unfold positional_args. rewrite <- flat_map_singleton.
  apply flat_map_filter. intros [k v].
  unfold launch_repo_chunk, launch_positional. reflexivity.
Qed.

Lemma launch_cmd_fields (path : string) (item : dict) :
  flat_map (launch_cmd_chunk path) item
  = flat_map
      (fun kv => if String.eqb (fst kv) "params"
                 then ["--params-file"; path]
                 else generic_chunk kv)
      (List.filter (fun kv => negb (launch_positional (fst kv))) item).
Proof.
  apply flat_map_filter. intros [k v].
  unfold launch_cmd_chunk, launch_positional. cbn [fst snd].
  now destruct (String.eqb k "pipeline" || String.eqb k "url").
Qed.

(** C6, as the code has it: whatever the order of the fields, a pipelines
    item maps to its positional arguments ([url], [file-path]), then the
    [--params-file <path>] pair, then the flags of the remaining fields, a
    [pipeline] field among them; a launch item maps to its positional
    arguments ([pipeline], [url]), then its other fields in the order of
    the item, a [file-path] field among them as a flag, and the
    [--params-file <path>] pair standing where [params] stands. *)
Theorem pipelines_and_launch_argument_order (item : dict) (fs : tempfs) :
  wf_dict item ->
  (exists out,
      fst (parse_pipelines_block item fs) = Ok out
      /\ repo_params_flags pipelines_positional item out)
  /\ (exists out,
        fst (parse_launch_block item fs) = Ok out
        /\ repo_then_fields launch_positional item out).
Proof.
  intros Hwf. split.
  - rewrite (parse_pipelines_block_exact item fs Hwf). eexists.
    split; [reflexivity|].
    exists (flat_map (params_chunk (mktemp (map fst fs))) item). split.
    + now rewrite pipelines_repo_positional, pipelines_cmd_remaining.
    + rewrite (params_chunk_flat _ item Hwf).
      destruct (dict_lookup "params" item); [eexists|]; reflexivity.
  - rewrite (parse_launch_block_exact item fs Hwf). eexists.
    split; [reflexivity|].
    exists (mktemp (map fst fs)).
    now rewrite launch_repo_positional, launch_cmd_fields.
Qed.

(** ** The mapper of each block *)

Lemma get_parser_run (block_name : string) (item : dict) (fs : tempfs) :
  get_parser block_to_function block_name item fs
  = mapper_result block_name item fs.
Proof.
  unfold mapper_result, block_to_function. cbn [get_parser].
  repeat match goal with
         | |- context [if String.eqb block_name ?s then _ else _] =>
             destruct (String.eqb block_name s)
         end;
    unfold generic_parser, bind, lift, ret, wrap_args; try reflexivity.
  now destruct (parse_teams_block item).
Qed.

Lemma parse_block_dict (block_name : string) (d : dict) (fs : tempfs) :
  parse_block block_name (VDict d) fs =
  match mapper_result block_name (dict_remove "overwrite" d) fs with
  | (Ok m, fs') =>
      (Ok {| cmd_args := m;
             overwrite := match dict_lookup "overwrite" d with
                          | Some v => v
                          | None => VBool false
                          end |}, fs')
  | (Raise e, fs') => (Raise e, fs')
  end.
Proof.
  unfold parse_block, dict_pop, bind. rewrite get_parser_run.
  now destruct (mapper_result _ _ _) as [[|] ?].
Qed.

(** ** Teams *)

Lemma teams_member_loop (item : dict) (members : list value) :
  forall acc acc',
    for_r members (teams_member_step item) acc = Ok acc' ->
    exists new, acc' = acc ++ new /\ Forall (member_of item members) new.
Proof.
  induction members as [|m members IH]; intros acc acc'; simpl.
  - intros [= <-]. exists []. now rewrite app_nil_r.
  - unfold teams_member_step at 1, dict_item.
    destruct (dict_lookup "name" item) as [name|] eqn:Hn;
      [|discriminate].
    destruct (dict_lookup "organization" item) as [org|] eqn:Ho;
      [|discriminate].
    cbn [rbind]. intros H. apply IH in H as (new & -> & Hnew).
    exists (member_args name org m :: new). split.
    + now rewrite <- app_assoc.
    + constructor.
      * exists name, org, m. repeat split; auto. now left.
      * eapply List.Forall_impl; [|exact Hnew].
        intros x (n & o & mem & ? & ? & ? & ?).
        exists n, o, mem. repeat split; auto. now right.
Qed.

Lemma teams_loop (item l : dict) :
  forall acc c ms,
    for_r l (teams_step item) acc = Ok (c, ms) ->
    c = fst acc ++ flat_map teams_chunk l
    /\ exists new, ms = snd acc ++ new
                   /\ Forall (team_member_of item l) new.
Proof.
  induction l as [|[k v] l IH]; intros [c0 ms0] c ms; cbn [for_r].
  - intros [= <- <-]. simpl. rewrite app_nil_r. split; [reflexivity|].
    exists []. now rewrite app_nil_r.
  - assert (Hweaken : forall new,
              Forall (team_member_of item l) new ->
              Forall (team_member_of item ((k, v) :: l)) new).
    { intros new. apply List.Forall_impl.
      intros x (val & mems & Hin & Hit & Hm).
      exists val, mems. repeat split; auto. now right. }
    unfold teams_step at 1. unfold teams_chunk at 1. cbn [fst snd flat_map].
    destruct (in_list k ["name"; "organization"; "description"]) eqn:Ek.
    + cbn [rbind]. intros H. apply IH in H as (-> & new & -> & Hnew).
      cbn [fst snd]. split; [now rewrite <- app_assoc|].
      exists new. split; [reflexivity | now apply Hweaken].
    + destruct (in_list k ["name"; "organization"; "members"]
                && String.eqb k "members") eqn:Em.
      * apply andb_true_iff in Em as [_ Em]. apply String.eqb_eq in Em.
        subst k.
        destruct (py_iter v) as [members|] eqn:Hit; [|discriminate].
        cbn [rbind].
        destruct (for_r members (teams_member_step item) ms0)
          as [ms1|] eqn:Hloop; [|discriminate].
        cbn [rbind]. intros H. apply IH in H as (-> & new & -> & Hnew).
        apply teams_member_loop in Hloop as (new1 & -> & Hnew1).
        cbn [fst snd]. split; [reflexivity|].
        exists (new1 ++ new). split; [now rewrite <- app_assoc|].
        apply Forall_app. split; [|now apply Hweaken].
        eapply List.Forall_impl; [|exact Hnew1].
        intros x Hx. exists v, members. repeat split; auto. now left.
      * cbn [rbind]. intros H. apply IH in H as (-> & new & -> & Hnew).
        cbn [fst snd]. split; [reflexivity|].
        exists new. split; [reflexivity | now apply Hweaken].
Qed.

Lemma parse_teams_block_ok (item : dict) (c : list string)
    (ms : list (list string)) :
  parse_teams_block item = Ok (c, ms) ->
  c = flat_map teams_chunk item /\ Forall (team_member_of item item) ms.
Proof.
  unfold parse_teams_block. intros H.
  apply teams_loop in H as (-> & new & -> & Hnew). split; auto.
Qed.

(** ** Where the tokens of a mapped argument list come from *)

Lemma notin_flat_map {A} (f : A -> list string) (l : list A)
    (tok : string) :
  (forall x, In x l -> ~ In tok (f x)) -> ~ In tok (flat_map f l).
Proof.
  intros H Hin. apply in_flat_map in Hin as (x & Hx & Hin).
  exact (H x Hx Hin).
Qed.

Lemma generic_chunk_free (tok : string) (kv : string * value) :
  entry_free tok kv -> ~ In tok (generic_chunk kv).
Proof.
  intros [Hk Hv] [H|[H|[]]]; [now apply Hk | now apply Hv].
Qed.

Lemma credentials_chunk_free (tok : string) (kv : string * value) :
  entry_free tok kv -> ~ In tok (credentials_chunk kv).
Proof.
  intros Hf. unfold credentials_chunk.
  destruct (String.eqb (fst kv) "type"); [|now apply generic_chunk_free].
  intros [H|[]]. now apply Hf.
Qed.

Lemma compute_envs_chunk_free (tok : string) (kv : string * value) :
  entry_free tok kv -> ~ In tok (compute_envs_chunk kv).
Proof.
  intros Hf. unfold compute_envs_chunk.
  destruct (String.eqb (fst kv) "file-path");
    [|now apply generic_chunk_free].
  intros [H|[]]. now apply Hf.
Qed.

Lemma teams_chunk_free (tok : string) (kv : string * value) :
  entry_free tok kv -> ~ In tok (teams_chunk kv).
Proof.
  intros Hf. unfold teams_chunk.
  destruct (in_list (fst kv) _); [now apply generic_chunk_free | tauto_closed].
Qed.

Lemma actions_chunk_free (tok path : string) (kv : string * value) :
  entry_free tok kv -> tok <> "--params-file" -> tok <> path ->
  ~ In tok (actions_chunk path kv).
Proof.
  intros Hf Hp Hpath. unfold actions_chunk.
  destruct (String.eqb (fst kv) "type").
  - intros [H|[]]. now apply Hf.
  - destruct (String.eqb (fst kv) "params");
      [|now apply generic_chunk_free].
    intros [H|[H|[]]]; congruence.
Qed.



Lemma pipelines_cmd_chunk_free (tok : string) (kv : string * value) :
  entry_free tok kv -> ~ In tok (pipelines_cmd_chunk kv).
Proof.
  intros Hf. unfold pipelines_cmd_chunk.
  repeat match goal with
         | |- context [if ?b then _ else _] => destruct b
         end; simpl; try tauto_closed. now apply generic_chunk_free.
Qed.



Lemma header_flags_tokens (l : dict) (t : string) :
  In t (header_flags l) -> t = "--header".
Proof.
  unfold header_flags. intros H. apply in_flat_map in H as (kv & _ & H).
  destruct (_ && _); simpl in H; [|tauto_closed]. now destruct H as [<-|[]].
Qed.



(** ** Mapping the same item twice *)

Lemma flat_map_path_inj (f : string -> string * value -> list string)
    (item : dict) (p : value) (n1 n2 : string) :
  wf_dict item ->
  dict_lookup "params" item = Some p ->
  (forall path1 path2 k v,
      String.eqb k "params" = false -> f path1 (k, v) = f path2 (k, v)) ->
  (forall path v, f path ("params", v) = ["--params-file"; path]) ->
  flat_map (f n1) item = flat_map (f n2) item -> n1 = n2.
Proof.
  intros Hwf Hp Hother Hparams.
  destruct (dict_split_at _ _ _ Hp) as [Hsplit Hbefore].
  rewrite Hsplit in Hwf. apply wf_dict_split in Hwf as (_ & Hafter & _).
  assert (Hsame : forall l, ~ In "params" (dict_keys l) ->
                            flat_map (f n1) l = flat_map (f n2) l).
  { induction l as [|[k v] l IH]; intros Hnot; [reflexivity|].
    apply not_params_key in Hnot as [Hk Hnot]. simpl.
    now rewrite (Hother n1 n2 k v Hk), IH. }
  rewrite Hsplit, !flat_map_app. cbn [flat_map].
  rewrite (Hsame _ Hbefore), (Hsame _ Hafter), !Hparams.
  intros H. apply app_inv_head in H. now injection H.
Qed.

Lemma actions_path_inj (item : dict) (p : value) (n1 n2 : string) :
  wf_dict item -> dict_lookup "params" item = Some p ->
  flat_map (actions_chunk n1) item = flat_map (actions_chunk n2) item ->
  n1 = n2.
Proof.
  intros Hwf Hp. apply (flat_map_path_inj actions_chunk item p); auto.
  intros path1 path2 k v Hk. unfold actions_chunk. cbn [fst snd].
  now rewrite Hk.
Qed.

Lemma params_path_inj (item : dict) (p : value) (n1 n2 : string) :
  wf_dict item -> dict_lookup "params" item = Some p ->
  flat_map (params_chunk n1) item = flat_map (params_chunk n2) item ->
  n1 = n2.
Proof.
  intros Hwf Hp. apply (flat_map_path_inj params_chunk item p); auto.
  intros path1 path2 k v Hk. unfold params_chunk. cbn [fst snd].
  now rewrite Hk.
Qed.

Lemma launch_path_inj (item : dict) (p : value) (n1 n2 : string) :
  wf_dict item -> dict_lookup "params" item = Some p ->
  flat_map (launch_cmd_chunk n1) item = flat_map (launch_cmd_chunk n2) item
  -> n1 = n2.
Proof.
  intros Hwf Hp. apply (flat_map_path_inj launch_cmd_chunk item p); auto.
  intros path1 path2 k v Hk. unfold launch_cmd_chunk. cbn [fst snd].
  now rewrite Hk.
Qed.

Lemma store_after_no_params (fs : tempfs) (d : dict) :
  dict_lookup "params" d = None -> store_after fs d = fs.
Proof. unfold store_after. now intros ->. Qed.

Lemma parse_block_store (block_name : string) (d : dict) (fs : tempfs) :
  snd (parse_block block_name (VDict d) fs)
  = snd (mapper_result block_name (dict_remove "overwrite" d) fs).
Proof.
  rewrite parse_block_dict. now destruct (mapper_result _ _ _) as [[|] ?].
Qed.

Lemma params_after_pop (d : dict) :
  dict_lookup "params" (dict_remove "overwrite" d) = dict_lookup "params" d.
Proof. now apply dict_remove_lookup_ne. Qed.

(** A mapper that writes no temporary file leaves the store as it is. *)
Lemma mapper_result_store_unchanged (block_name : string) (d : dict)
    (fs : tempfs) :
  wf_dict d ->
  writes_params block_name d = false ->
  snd (mapper_result block_name d fs) = fs.
Proof.
  intros Hwf. unfold writes_params, mapper_result, temp_file_blocks, in_list.
  cbn [existsb].
  destruct (String.eqb block_name "credentials"); [reflexivity|].
  destruct (String.eqb block_name "compute-envs"); [reflexivity|].
  destruct (String.eqb block_name "teams"); [reflexivity|].
  destruct (String.eqb block_name "actions").
  { cbn [orb andb]. rewrite (parse_actions_block_exact d fs Hwf).
    cbn [wrap_args snd]. unfold store_after.
    now destruct (dict_lookup "params" d). }
  destruct (String.eqb block_name "datasets").
  { intros _. now destruct (parse_datasets_block d). }
  destruct (String.eqb block_name "pipelines").
  { cbn [orb andb]. rewrite (parse_pipelines_block_exact d fs Hwf).
    cbn [wrap_args snd]. unfold store_after.
    now destruct (dict_lookup "params" d). }
  destruct (String.eqb block_name "launch").
  { cbn [orb andb]. rewrite (parse_launch_block_exact d fs Hwf).
    cbn [wrap_args snd]. unfold store_after.
    now destruct (dict_lookup "params" d). }
  reflexivity.
Qed.

(** With a [params] field written to a file, the argument list holds the
    path of that file: two paths give two lists. *)
Lemma mapper_result_path (block_name : string) (d : dict) (p : value)
    (fs1 fs2 : tempfs) :
  wf_dict d ->
  in_list block_name temp_file_blocks = true ->
  dict_lookup "params" d = Some p ->
  exists a1 a2,
    mapper_result block_name d fs1
    = (Ok (Args a1), fs1 ++ [(mktemp (map fst fs1), p)])
    /\ mapper_result block_name d fs2
       = (Ok (Args a2), fs2 ++ [(mktemp (map fst fs2), p)])
    /\ (a1 = a2 -> mktemp (map fst fs1) = mktemp (map fst fs2)).
Proof.
  intros Hwf Hin Hp.
  unfold temp_file_blocks, in_list in Hin. cbn [existsb] in Hin.
  unfold mapper_result.
  destruct (String.eqb block_name "actions") eqn:Ea.
  { apply String.eqb_eq in Ea. subst block_name.
    cbn [String.eqb Ascii.eqb Bool.eqb].
    rewrite !(parse_actions_block_exact d _ Hwf). unfold store_after.
    rewrite Hp. cbn [wrap_args]. do 2 eexists. repeat split.
    now apply (actions_path_inj d p). }
  destruct (String.eqb block_name "pipelines") eqn:Ep.
  { apply String.eqb_eq in Ep. subst block_name.
    cbn [String.eqb Ascii.eqb Bool.eqb].
    rewrite !(parse_pipelines_block_exact d _ Hwf). unfold store_after.
    rewrite Hp. cbn [wrap_args]. do 2 eexists. repeat split.
    intros H. apply app_inv_head, app_inv_tail in H.
    now apply (params_path_inj d p). }
  destruct (String.eqb block_name "launch") eqn:El; [|discriminate].
  apply String.eqb_eq in El. subst block_name.
  cbn [String.eqb Ascii.eqb Bool.eqb].
  rewrite !(parse_launch_block_exact d _ Hwf). unfold store_after.
  rewrite Hp. cbn [wrap_args]. do 2 eexists. repeat split.
  intros H. apply app_inv_head in H. now apply (launch_path_inj d p).
Qed.

(** C7, as the code has it: the mapping is a function of the item and of
    the store of temporary files.  Mapping an item twice gives the same
    result, and leaves the store alone, whenever no [params] field is
    written to a file; when one is (actions, pipelines, launch), each run
    writes a file of its own and, the names being unique, the two argument
    lists differ in the path after [--params-file]. *)
Theorem mapping_twice (block_name : string) (d : dict) (fs : tempfs) :
  wf_dict d ->
  let run1 := parse_block block_name (VDict d) fs in
  let run2 := parse_block block_name (VDict d) (snd run1) in
  (writes_params block_name d = false ->
   snd run1 = fs /\ fst run2 = fst run1)
  /\ (writes_params block_name d = true ->
      (forall used, ~ In (mktemp used) used) ->
      fst run2 <> fst run1).
Proof.
  intros Hwf run1 run2.
  pose proof (dict_remove_wf "overwrite" d Hwf) as Hwf'.
  assert (Hw : writes_params block_name (dict_remove "overwrite" d)
               = writes_params block_name d).
  { unfold writes_params. now rewrite params_after_pop. }
  split.
  - intros Hno. rewrite <- Hw in Hno.
    assert (Hstore : snd run1 = fs).
    { unfold run1. rewrite parse_block_store.
      now apply mapper_result_store_unchanged. }
    split; [exact Hstore|]. unfold run2. now rewrite Hstore.
  - intros Hyes Hfresh. unfold writes_params in Hyes.
    apply andb_true_iff in Hyes as [Hblock Hp].
    destruct (dict_lookup "params" d) as [p|] eqn:Hparams; [|discriminate].
    rewrite <- params_after_pop in Hparams.
    subst run2. subst run1. rewrite parse_block_store.
    rewrite !parse_block_dict.
    destruct (mapper_result_path block_name _ p fs
                (fs ++ [(mktemp (map fst fs), p)]) Hwf' Hblock Hparams)
      as (a1 & a2 & H1 & H2 & Hinj).
    rewrite H1. cbn [snd]. rewrite H2. cbn [fst].
    intros [= Heq]. symmetry in Heq. apply Hinj in Heq.
    apply (Hfresh (map fst (fs ++ [(mktemp (map fst fs), p)]))).
    rewrite <- Heq, map_app, in_app_iff. right. now left.
Qed.

(** ** Round trip: from the mapped arguments back to the policy keys *)

Lemma notin_never_occurs (k : string) (post : list string) :
  ~ In (flag k) post -> never_occurs k post.
Proof.
  intros Hnot i v (Hi & _ & _). apply Hnot.
  apply list_elem_of_In. eapply list_elem_of_lookup_2. exact Hi.
Qed.

Lemma entry_free_flag (d : dict) (k : string) (kv : string * value) :
  values_not_flags d -> In kv d -> fst kv <> k -> entry_free (flag k) kv.
Proof.
  intros Hd Hin Hne. destruct kv as [k' v']. split; cbn [fst snd].
  - intros Heq. apply Hne. now apply flag_inj.
  - apply nonflag_neq_flag. exact (Hd k' v' Hin).
Qed.

(** A field mapped to its flag and value, among fields that do not
    produce that flag, is read back. *)
Lemma recover_from_chunks (f : string * value -> list string) (d : dict)
    (k : string) (v : value) (keys pre : list string) :
  wf_dict d -> values_not_flags d ->
  dict_lookup k d = Some v -> k ∈ keys -> k <> "" ->
  f (k, v) = generic_chunk (k, v) ->
  (forall kv, In kv d -> entry_free (flag k) kv -> ~ In (flag k) (f kv)) ->
  get_values_from_cmd_args (pre ++ flat_map f d) keys !! k
  = Some (VStr (py_str v)).
Proof.
  intros Hwf Hd Hl Hin Hne Hf Hfree.
  destruct (dict_split_at _ _ _ Hl) as [Hsplit Hbefore].
  pose proof Hwf as Hwf0.
  rewrite Hsplit in Hwf. apply wf_dict_split in Hwf as (_ & Hafter & _).
  apply get_values_last; [assumption | assumption |].
  exists (pre ++ flat_map f (dict_before k d)),
         (flat_map f (dict_after k d)).
  repeat split.
  - rewrite Hsplit at 1. rewrite flat_map_app. cbn [flat_map].
    rewrite Hf. unfold generic_chunk. cbn [fst snd app].
    now rewrite <- app_assoc.
  - apply (Hd k v). now apply dict_lookup_In.
  - apply notin_never_occurs, notin_flat_map. intros kv Hkv.
    assert (Hind : In kv d).
    { rewrite Hsplit. apply in_or_app. right. now right. }
    apply Hfree; [exact Hind|].
    apply (entry_free_flag d); [assumption | assumption |].
    intros Heq. apply Hafter. apply (in_map fst) in Hkv.
    now rewrite Heq in Hkv.
Qed.

Lemma recover_generic (d : dict) (k : string) (v : value)
    (keys : list string) :
  wf_dict d -> values_not_flags d ->
  dict_lookup k d = Some v -> k ∈ keys -> k <> "" ->
  get_values_from_cmd_args (parse_generic_block d) keys !! k
  = Some (VStr (py_str v)).
Proof.
  intros. rewrite parse_generic_block_chunks.
  apply (recover_from_chunks generic_chunk d k v keys []); auto.
  intros kv _. apply generic_chunk_free.
Qed.

Lemma recover_credentials (d : dict) (k : string) (v : value)
    (keys : list string) :
  wf_dict d -> values_not_flags d ->
  dict_lookup k d = Some v -> k ∈ keys -> k <> "" ->
  String.eqb k "type" = false ->
  get_values_from_cmd_args (parse_credentials_block d) keys !! k
  = Some (VStr (py_str v)).
Proof.
  intros ? ? ? ? ? Hk. rewrite parse_credentials_block_chunks.
  apply (recover_from_chunks credentials_chunk d k v keys []); auto.
  - unfold credentials_chunk. cbn [fst]. now rewrite Hk.
  - intros kv _. apply credentials_chunk_free.
Qed.

Lemma recover_compute_envs (d : dict) (k : string) (v : value)
    (keys : list string) :
  wf_dict d -> values_not_flags d ->
  dict_lookup k d = Some v -> k ∈ keys -> k <> "" ->
  String.eqb k "file-path" = false ->
  get_values_from_cmd_args (parse_compute_envs_block d) keys !! k
  = Some (VStr (py_str v)).
Proof.
  intros ? ? ? ? ? Hk. rewrite parse_compute_envs_block_chunks.
  apply (recover_from_chunks compute_envs_chunk d k v keys []); auto.
  - unfold compute_envs_chunk. cbn [fst]. now rewrite Hk.
  - intros kv _. apply compute_envs_chunk_free.
Qed.

Lemma recover_teams (d : dict) (k : string) (v : value)
    (keys : list string) :
  wf_dict d -> values_not_flags d ->
  dict_lookup k d = Some v -> k ∈ keys -> k <> "" ->
  in_list k ["name"; "organization"; "description"] = true ->
  get_values_from_cmd_args (flat_map teams_chunk d) keys !! k
  = Some (VStr (py_str v)).
Proof.
  intros ? ? ? ? ? Hk.
  apply (recover_from_chunks teams_chunk d k v keys []); auto.
  - unfold teams_chunk. cbn [fst]. now rewrite Hk.
  - intros kv _. apply teams_chunk_free.
Qed.

Lemma recover_actions (d : dict) (k : string) (v : value)
    (keys : list string) (path : string) :
  wf_dict d -> values_not_flags d ->
  dict_lookup k d = Some v -> k ∈ keys -> k <> "" ->
  String.eqb k "type" = false -> String.eqb k "params" = false ->
  k <> "params-file" -> startswith "--" path = false ->
  get_values_from_cmd_args (flat_map (actions_chunk path) d) keys !! k
  = Some (VStr (py_str v)).
Proof.
  intros ? ? ? ? ? Ht Hp Hpf Hpath.
  apply (recover_from_chunks (actions_chunk path) d k v keys []); auto.
  - unfold actions_chunk. cbn [fst]. now rewrite Ht, Hp.
  - intros kv _ Hfree. apply actions_chunk_free; auto.
    + intros Heq. apply Hpf. now apply flag_inj.
    + intros Heq. rewrite <- Heq, flag_startswith in Hpath. discriminate.
Qed.

Lemma recover_pipelines (d : dict) (k : string) (v : value)
    (keys pre : list string) :
  wf_dict d -> values_not_flags d ->
  dict_lookup k d = Some v -> k ∈ keys -> k <> "" ->
  String.eqb k "url" = false -> String.eqb k "params" = false ->
  String.eqb k "file-path" = false ->
  get_values_from_cmd_args (pre ++ flat_map pipelines_cmd_chunk d) keys !! k
  = Some (VStr (py_str v)).
Proof.
  intros ? ? ? ? ? Hu Hp Hf.
  apply (recover_from_chunks pipelines_cmd_chunk d k v keys pre); auto.
  - unfold pipelines_cmd_chunk. cbn [fst]. now rewrite Hu, Hp, Hf.
  - intros kv _. apply pipelines_cmd_chunk_free.
Qed.

Lemma recover_datasets (d : dict) (out : list string) (k : string)
    (v : value) (keys : list string) :
  wf_dict d -> values_not_flags d ->
  parse_datasets_block d = Ok out ->
  dict_lookup "file-path" d <> None ->
  dict_lookup k d = Some v -> k ∈ keys ->
  k = "name" \/ k = "workspace" ->
  get_values_from_cmd_args out keys !! k = Some (VStr (py_str v)).
Proof.
  intros Hwf Hd Hout Hfp Hl Hin Hk.
  destruct (dict_lookup "file-path" d) as [fp|] eqn:Efp; [|congruence].
  pose proof (parse_datasets_block_with_path d fp Hwf Efp) as Hcases.
  rewrite Hout in Hcases.
  destruct (dict_lookup "name" d) as [n|] eqn:Hn; [|discriminate].
  destruct (dict_lookup "workspace" d) as [w|] eqn:Hw; [|discriminate].
  destruct (dict_lookup "description" d) as [ds|] eqn:Hds; [|discriminate].
  injection Hcases as ->.
  assert (Hnf : forall k' v', dict_lookup k' d = Some v' ->
                              startswith "--" (py_str v') = false).
  { intros k' v' Hl'. apply (Hd k' v'). now apply dict_lookup_In. }
  assert (Hhdr : forall l k', flag k' <> "--header" ->
                              ~ In (flag k') (header_flags l)).
  { intros l k' Hne Hin'. now apply header_flags_tokens in Hin'. }
  destruct Hk as [-> | ->].
  - assert (v = n) as -> by congruence.
    apply get_values_last; [assumption | discriminate |].
    exists (header_flags (dict_before "file-path" d) ++ [py_str fp]),
           ([ "--workspace"; py_str w; "--description"; py_str ds ]
            ++ header_flags (dict_after "file-path" d)).
    repeat split.
    + now rewrite <- app_assoc.
    + now apply (Hnf "name").
    + apply notin_never_occurs. intros Hin'.
      apply in_app_or in Hin' as [Hin'|Hin'];
        [|revert Hin'; apply Hhdr; discriminate].
      destruct Hin' as [H|[H|[H|[H|[]]]]]; try discriminate.
      * revert H. apply nonflag_neq_flag.
        now apply (Hnf "workspace").
      * revert H. apply nonflag_neq_flag.
        now apply (Hnf "description").
  - assert (v = w) as -> by congruence.
    apply get_values_last; [assumption | discriminate |].
    exists (header_flags (dict_before "file-path" d)
            ++ [py_str fp; "--name"; py_str n]),
           ([ "--description"; py_str ds ]
            ++ header_flags (dict_after "file-path" d)).
    repeat split.
    + now rewrite <- app_assoc.
    + now apply (Hnf "workspace").
    + apply notin_never_occurs. intros Hin'.
      apply in_app_or in Hin' as [Hin'|Hin'];
        [|revert Hin'; apply Hhdr; discriminate].
      destruct Hin' as [H|[H|[]]]; try discriminate.
      revert H. apply nonflag_neq_flag.
      now apply (Hnf "description").
Qed.

Lemma ops_lookup_set (block : string) (op : operation)
    (ops : list (string * operation)) :
  ops_lookup block (ops_set block op ops) = Some op.
Proof.
  induction ops as [|[b op'] ops IH]; simpl.
  - now rewrite String.eqb_refl.
  - destruct (String.eqb block b) eqn:E; simpl; now rewrite E.
Qed.

(** The blocks that have a deletion policy, and the keys of each. *)
Lemma policy_keys_cases (block : string) (keys : list string) :
  policy_keys block = Some keys ->
  (In block generic_deletion /\ keys = ["name"; "workspace"])
  \/ (block = "organizations" /\ keys = ["name"])
  \/ (block = "teams" /\ keys = ["name"; "organization"])
  \/ (block = "participants" /\ keys = ["name"; "type"; "workspace"])
  \/ (block = "workspaces" /\ keys = ["name"; "organization"]).
Proof.
  unfold policy_keys, block_operations.
  destruct (in_list block generic_deletion) eqn:Eg.
  - rewrite ops_lookup_set. intros [= <-]. left. split; [|reflexivity].
    apply in_list_elem in Eg. now apply list_elem_of_In.
  - unfold base_block_operations. cbn [ops_lookup].
    destruct (String.eqb block "organizations") eqn:E1.
    { apply String.eqb_eq in E1. intros [= <-]. auto. }
    destruct (String.eqb block "teams") eqn:E2.
    { apply String.eqb_eq in E2. intros [= <-]. auto. }
    destruct (String.eqb block "participants") eqn:E3.
    { apply String.eqb_eq in E3. intros [= <-]. auto 6. }
    destruct (String.eqb block "workspaces") eqn:E4.
    { apply String.eqb_eq in E4. intros [= <-]. auto 6. }
    discriminate.
Qed.

Ltac mapper_is r H :=
  match type of H with
  | mapper_result ?b ?d ?fs = _ => change (mapper_result b d fs) with r in H
  end.

Ltac reconciler_reads H :=
  unfold reconciler_args in H;
  cbn [String.eqb Ascii.eqb Bool.eqb andb as_cmd_args first_as_cmd_args]
    in H;
  injection H as <-.

Ltac policy_key H :=
  apply list_elem_of_In in H; cbn [In] in H;
  repeat (destruct H as [<- | H]); try contradiction.

(** C8, as the code has it: for every block with a deletion policy, when
    no field value (and no temporary path) is rendered with a leading
    [--], and a datasets item has its [file-path], reverse-mapping the
    mapped arguments recovers, for every policy key the item has, the
    string form of its value. *)
Theorem round_trip_recovers_policy_keys (block : string) (d : dict)
    (fs fs' : tempfs) (keys args : list string) (spec : CommandSpec)
    (k : string) (v : value) :
  wf_dict d ->
  (forall k' v', In (k', v') d -> k' <> "overwrite" ->
                 startswith "--" (py_str v') = false) ->
  (forall used, startswith "--" (mktemp used) = false) ->
  (block = "datasets" -> dict_lookup "file-path" d <> None) ->
  policy_keys block = Some keys ->
  parse_block block (VDict d) fs = (Ok spec, fs') ->
  reconciler_args block (cmd_args spec) = Ok args ->
  k ∈ keys -> dict_lookup k d = Some v ->
  get_values_from_cmd_args args keys !! k = Some (VStr (py_str v)).
Proof.
  intros Hwf Hvals Htmp Hds Hpol Hparse Hargs Hk Hl.
  pose proof (dict_remove_wf "overwrite" d Hwf) as Hwf'.
  assert (Hd' : values_not_flags (dict_remove "overwrite" d)).
  { intros k' v' Hin. apply dict_remove_In in Hin as [Hin Hne].
    now apply (Hvals k' v'). }
  assert (Hl' : forall k0, k0 <> "overwrite" -> dict_lookup k0 d = Some v ->
                dict_lookup k0 (dict_remove "overwrite" d) = Some v).
  { intros k0 Hne H. now rewrite dict_remove_lookup_ne. }
  rewrite parse_block_dict in Hparse.
  destruct (mapper_result block (dict_remove "overwrite" d) fs)
    as [[m|e] fs1] eqn:Hm; [|discriminate].
  injection Hparse as <- <-. cbn [cmd_args] in Hargs.
  pose proof Hk as Hin.
  destruct (policy_keys_cases _ _ Hpol)
    as [[Hb ->]|[[-> ->]|[[-> ->]|[[-> ->]|[-> ->]]]]].
  - unfold generic_deletion in Hb. cbn [In] in Hb.
    destruct Hb as [<-|[<-|[<-|[<-|[<-|[<-|[]]]]]]].
    + mapper_is (Ok (Args (parse_credentials_block
                             (dict_remove "overwrite" d))), fs) Hm.
      injection Hm as <- <-. reconciler_reads Hargs.
      policy_key Hk; apply recover_credentials; auto; discriminate.
    + mapper_is (Ok (Args (parse_generic_block
                             (dict_remove "overwrite" d))), fs) Hm.
      injection Hm as <- <-. reconciler_reads Hargs.
      policy_key Hk; apply recover_generic; auto; discriminate.
    + mapper_is (Ok (Args (parse_compute_envs_block
                             (dict_remove "overwrite" d))), fs) Hm.
      injection Hm as <- <-. reconciler_reads Hargs.
      policy_key Hk; apply recover_compute_envs; auto; discriminate.
    + mapper_is (wrap_args (parse_datasets_block
                              (dict_remove "overwrite" d), fs)) Hm.
      destruct (parse_datasets_block (dict_remove "overwrite" d))
        as [out|] eqn:Hout; [|discriminate].
      injection Hm as <- <-. reconciler_reads Hargs.
      assert (Hfp : dict_lookup "file-path" (dict_remove "overwrite" d)
                    <> None).
      { rewrite dict_remove_lookup_ne by discriminate. now apply Hds. }
      policy_key Hk;
        apply (recover_datasets (dict_remove "overwrite" d)); auto;
        apply Hl'; auto; discriminate.
    + mapper_is (wrap_args (parse_actions_block
                              (dict_remove "overwrite" d) fs)) Hm.
      rewrite (parse_actions_block_exact _ fs Hwf') in Hm.
      injection Hm as <- <-. reconciler_reads Hargs.
      policy_key Hk; apply recover_actions; auto; discriminate.
    + mapper_is (wrap_args (parse_pipelines_block
                              (dict_remove "overwrite" d) fs)) Hm.
      rewrite (parse_pipelines_block_exact _ fs Hwf') in Hm.
      injection Hm as <- <-. reconciler_reads Hargs.
      rewrite app_assoc.
      policy_key Hk; apply recover_pipelines; auto; discriminate.
  - mapper_is (Ok (Args (parse_generic_block
                           (dict_remove "overwrite" d))), fs) Hm.
    injection Hm as <- <-. reconciler_reads Hargs.
    policy_key Hk; apply recover_generic; auto; discriminate.
  - mapper_is (match parse_teams_block (dict_remove "overwrite" d) with
               | Ok r => Ok (TeamArgs (fst r) (snd r))
               | Raise e => Raise e
               end, fs) Hm.
    destruct (parse_teams_block (dict_remove "overwrite" d))
      as [[c ms]|] eqn:Ht; [|discriminate].
    injection Hm as <- <-. reconciler_reads Hargs.
    apply parse_teams_block_ok in Ht as [-> _].
    policy_key Hk; apply recover_teams; auto; discriminate.
  - mapper_is (Ok (Args (parse_generic_block
                           (dict_remove "overwrite" d))), fs) Hm.
    injection Hm as <- <-. reconciler_reads Hargs.
    policy_key Hk; apply recover_generic; auto; discriminate.
  - mapper_is (Ok (Args (parse_generic_block
                           (dict_remove "overwrite" d))), fs) Hm.
    injection Hm as <- <-. reconciler_reads Hargs.
    policy_key Hk; apply recover_generic; auto; discriminate.
Qed.

(** ** Overwriting a workspace *)

Lemma tw_item_lookup (tw_args : gmap string value) (k : string) (v : value) :
  tw_args !! k = Some v -> tw_item tw_args k = Ok v.
Proof. unfold tw_item. now intros ->. Qed.

(** The run of [handle_overwrite] on a workspaces block: the unscoped
    listing, the identifier looked up in it by organization and name, the
    existence check on that identifier, and at most one delete, by that
    identifier. *)
Lemma handle_overwrite_workspaces (args : list string) (t : trace)
    (organization name : value) :
  let tw_args := get_values_from_cmd_args args ["name"; "organization"] in
  let json_data := tw_exec t list_workspaces_cmd in
  tw_args !! "organization" = Some organization ->
  tw_args !! "name" = Some name ->
  handle_overwrite "workspaces" (Args args) t =
  match find_workspace_id json_data organization name with
  | Raise e => (Raise e, t ++ [list_workspaces_cmd])
  | Ok id =>
      match check_if_exists json_data "workspaceId" id with
      | Raise e => (Raise e, t ++ [list_workspaces_cmd])
      | Ok false => (Ok tt, t ++ [list_workspaces_cmd])
      | Ok true =>
          (Ok tt,
           (t ++ [list_workspaces_cmd])
           ++ [delete_workspace_cmd (py_str id)])
      end
  end.
Proof.
  intros tw_args json_data Horg Hname. subst tw_args json_data.
  unfold handle_overwrite.
  cbn [ops_lookup block_operations in_list existsb generic_deletion
       base_block_operations String.eqb Ascii.eqb Bool.eqb andb orb
       op_keys op_method_args op_name_key as_cmd_args].
  change [VStr "workspaces"; VStr "list"]
    with (map VStr ["workspaces"; "list"]).
  unfold bind, lift, ret.
  rewrite TwCommand_call_strs.
  change (command_line (tw_getattr "-o json") ["workspaces"; "list"])
    with list_workspaces_cmd.
  cbv beta iota.
  rewrite (tw_item_lookup _ _ _ Horg), (tw_item_lookup _ _ _ Hname).
  destruct (find_workspace_id _ organization name) as [id|e];
    cbv beta iota; [|reflexivity].
  cbn [lu_tw_args lu_json_data lu_operation op_name_key op_method_args].
  rewrite (tw_item_lookup _ "name" id) by apply lookup_insert_eq.
  destruct (check_if_exists _ "workspaceId" id) as [[|]|e];
    cbv beta iota; reflexivity.
Qed.

Lemma find_workspace_loop_first (workspaces : list value)
    (organization workspace_name id : value) :
  find_workspace_loop workspaces organization workspace_name = Ok id ->
  (exists pre w post,
      workspaces = pre ++ VDict w :: post
      /\ workspace_matches organization workspace_name w = true
      /\ id = dict_get w "workspaceId"
      /\ forall w', In (VDict w') pre ->
                    workspace_matches organization workspace_name w' = false)
  \/ (id = VNone
      /\ forall w', In (VDict w') workspaces ->
                    workspace_matches organization workspace_name w' = false).
Proof.
  induction workspaces as [|x rest IH]; cbn [find_workspace_loop].
  - intros [= <-]. right. split; [reflexivity | intros w' []].
  - destruct x as [| | | | |w]; try discriminate.
    fold (workspace_matches organization workspace_name w).
    destruct (workspace_matches organization workspace_name w) eqn:Hm.
    + intros [= <-]. left. exists [], w, rest. repeat split; auto.
      intros w' [].
    + intros H. destruct (IH H) as [(pre & w0 & post & -> & Hw0 & -> & Hpre)
                                   |[-> Hnone]].
      * left. exists (VDict w :: pre), w0, post. repeat split; auto.
        intros w' [[= <-]|Hin]; [exact Hm | now apply Hpre].
      * right. split; [reflexivity|].
        intros w' [[= <-]|Hin]; [exact Hm | now apply Hnone].
Qed.

Lemma find_workspace_id_listing (json_data : string) (top : dict)
    (workspaces : list value) (organization workspace_name : value) :
  json_loads json_data = Ok (VDict top) ->
  dict_lookup "workspaces" top = Some (VList workspaces) ->
  find_workspace_id json_data organization workspace_name
  = find_workspace_loop workspaces organization workspace_name.
Proof.
  intros Hload Hws. unfold find_workspace_id, dict_item.
  rewrite Hload. cbn [rbind]. rewrite Hws. reflexivity.
Qed.

Lemma find_workspace_loop_skips (pre : list dict) (rest : list value)
    (organization workspace_name : value) :
  Forall (fun w => workspace_matches organization workspace_name w = false)
         pre ->
  find_workspace_loop (map VDict pre ++ rest) organization workspace_name
  = find_workspace_loop rest organization workspace_name.
Proof.
  induction 1 as [|w pre Hw _ IH]; cbn [map app find_workspace_loop];
    [reflexivity|].
  fold (workspace_matches organization workspace_name w).
  now rewrite Hw.
Qed.

(** When no listed workspace has both the organization and the name, no
    identifier is resolved: a delete, if the existence check lets one
    through, names [None] and no listed identifier. *)
Lemma workspaces_overwrite_no_match (args : list string) (t : trace)
    (top : dict) (workspaces : list value) (organization name : value) :
  let tw_args := get_values_from_cmd_args args ["name"; "organization"] in
  tw_args !! "organization" = Some organization ->
  tw_args !! "name" = Some name ->
  json_loads (tw_exec t list_workspaces_cmd) = Ok (VDict top) ->
  dict_lookup "workspaces" top = Some (VList workspaces) ->
  (forall w, In (VDict w) workspaces ->
             workspace_matches organization name w = false) ->
  snd (handle_overwrite "workspaces" (Args args) t)
  = t ++ [list_workspaces_cmd]
  \/ snd (handle_overwrite "workspaces" (Args args) t)
     = (t ++ [list_workspaces_cmd]) ++ [delete_workspace_cmd "None"].
Proof.
  intros tw_args Horg Hname Hload Hws Hnone.
  rewrite (handle_overwrite_workspaces args t _ _ Horg Hname).
  rewrite (find_workspace_id_listing _ top workspaces _ _ Hload Hws).
  destruct (find_workspace_loop workspaces organization name) as [id|e]
    eqn:Hfind; [|now left].
  apply find_workspace_loop_first in Hfind
    as [(pre & w & post & Hsplit & Hw & _)|[-> _]].
  - rewrite Hnone in Hw; [discriminate|].
    rewrite Hsplit. apply in_or_app. right. now left.
  - destruct (check_if_exists _ "workspaceId" VNone) as [[|]|e];
      [now right | now left | now left].
Qed.

(** C3: on a workspaces block whose arguments name an organization and a
    workspace, with a listing that holds workspaces of other organizations
    or other names and then one that has both the organization and the
    name, the reconciler issues the unscoped listing, resolves the
    identifier of that first workspace matching both, asks the existence
    check about that identifier, and deletes by that identifier exactly
    when the check answers true; otherwise the listing is the only command.
    No delete of any other identifier is issued: a workspace of the same
    name in another organization is never the target. *)
Theorem workspaces_overwrite_deletes_only_match (args : list string)
    (t : trace) (top : dict) (pre : list dict) (w : dict)
    (post : list value) (o n : string) :
  let tw_args := get_values_from_cmd_args args ["name"; "organization"] in
  let json_data := tw_exec t list_workspaces_cmd in
  let id := dict_get w "workspaceId" in
  tw_args !! "organization" = Some (VStr o) ->
  tw_args !! "name" = Some (VStr n) ->
  json_loads json_data = Ok (VDict top) ->
  dict_lookup "workspaces" top
  = Some (VList (map VDict pre ++ VDict w :: post)) ->
  Forall (fun w' => workspace_matches (VStr o) (VStr n) w' = false) pre ->
  workspace_matches (VStr o) (VStr n) w = true ->
  find_workspace_id json_data (VStr o) (VStr n) = Ok id
  /\ handle_overwrite "workspaces" (Args args) t =
     match check_if_exists json_data "workspaceId" id with
     | Ok true =>
         (Ok tt,
          t ++ [list_workspaces_cmd; delete_workspace_cmd (py_str id)])
     | Ok false => (Ok tt, t ++ [list_workspaces_cmd])
     | Raise e => (Raise e, t ++ [list_workspaces_cmd])
     end
  /\ forall (other : dict) (issued : list command),
       snd (handle_overwrite "workspaces" (Args args) t)
       = (t ++ [list_workspaces_cmd]) ++ issued ->
       py_str (dict_get other "workspaceId") <> py_str id ->
       ~ In (delete_workspace_cmd (py_str (dict_get other "workspaceId")))
            issued.
Proof.
  intros tw_args json_data id Horg Hname Hload Hws Hpre Hw.
  assert (Hid : find_workspace_id json_data (VStr o) (VStr n) = Ok id).
  { rewrite (find_workspace_id_listing _ top _ _ _ Hload Hws).
    rewrite (find_workspace_loop_skips pre _ _ _ Hpre).
    cbn [find_workspace_loop].
    fold (workspace_matches (VStr o) (VStr n) w). now rewrite Hw. }
  assert (Hrun :
    handle_overwrite "workspaces" (Args args) t =
    match check_if_exists json_data "workspaceId" id with
    | Ok true =>
        (Ok tt, t ++ [list_workspaces_cmd; delete_workspace_cmd (py_str id)])
    | Ok false => (Ok tt, t ++ [list_workspaces_cmd])
    | Raise e => (Raise e, t ++ [list_workspaces_cmd])
    end).
  { rewrite (handle_overwrite_workspaces args t _ _ Horg Hname).
    fold json_data. rewrite Hid.
    destruct (check_if_exists json_data "workspaceId" id) as [[|]|e];
      try reflexivity.
    now rewrite <- app_assoc. }
  split; [exact Hid|]. split; [exact Hrun|].
  intros other issued Hlog Hother Hin. rewrite Hrun in Hlog.
  destruct (check_if_exists json_data "workspaceId" id) as [[|]|e];
    cbn [snd] in Hlog.
  - change [list_workspaces_cmd; delete_workspace_cmd (py_str id)]
      with ([list_workspaces_cmd] ++ [delete_workspace_cmd (py_str id)])
      in Hlog.
    rewrite app_assoc in Hlog. apply app_inv_head in Hlog. subst issued.
    destruct Hin as [Heq|[]]. apply Hother.
    unfold delete_workspace_cmd in Heq. now injection Heq.
  - rewrite <- (app_nil_r (t ++ [list_workspaces_cmd])) in Hlog at 1.
    apply app_inv_head in Hlog. subst issued. destruct Hin.
  - rewrite <- (app_nil_r (t ++ [list_workspaces_cmd])) in Hlog at 1.
    apply app_inv_head in Hlog. subst issued. destruct Hin.
Qed.



(** ** The handlers on any argument list *)

Lemma without_role_pairs_bounded (n : nat) :
  forall args, length args <= n ->
    ~ In "--role" (without_role_pairs args)
    /\ sublist (without_role_pairs args) args.
Proof.
  induction n as [|n IH]; intros [|a rest] Hlen; cbn [without_role_pairs];
    try (split; [intros [] | constructor]).
  - cbn in Hlen. lia.
  - cbn [length] in Hlen. destruct (String.eqb a "--role") eqn:Ha.
    + destruct rest as [|b rest'].
      * split; [intros [] | apply sublist_nil_l].
      * destruct (IH rest') as [Hno Hsub]; [cbn [length] in Hlen; lia|].
        split; [exact Hno|]. now do 2 apply sublist_cons.
    + destruct (IH rest) as [Hno Hsub]; [lia|].
      split.
      * intros [->|Hin]; [|now apply Hno]. now rewrite String.eqb_refl in Ha.
      * now apply sublist_skip.
Qed.

Lemma without_role_pairs_id (args : list string) :
  ~ In "--role" args -> without_role_pairs args = args.
Proof.
  induction args as [|a rest IH]; cbn [without_role_pairs];
    [reflexivity|].
  intros Hno. destruct (String.eqb_spec a "--role") as [->|_].
  - exfalso. apply Hno. now left.
  - f_equal. apply IH. intros Hin. apply Hno. now right.
Qed.

Lemma handle_participants_run (args : list string) (t : trace) :
  handle_participants args t =
  (Ok tt,
   t ++ [ ["tw"; "participants"; "add"] ++ without_role_pairs args;
          ["tw"; "participants"; "update"] ++ args ]).
Proof.
  unfold handle_participants, bind, ret.
  rewrite strip_role_loop_spec, !TwCommand_call_verb.
  now rewrite <- app_assoc.
Qed.

(** X1: the [add] command of [handle_participants] carries no [--role]
    token at all, whatever the arguments, and what it carries is the
    argument list with some tokens left out, in the same order: none when
    no argument is [--role]; the [update] command carries the argument
    list as it is. *)
Theorem handle_participants_add_has_no_role (args : list string)
    (t : trace) :
  exists new_args,
    handle_participants args t =
    (Ok tt,
     t ++ [ ["tw"; "participants"; "add"] ++ new_args;
            ["tw"; "participants"; "update"] ++ args ])
    /\ ~ In "--role" new_args
    /\ sublist new_args args
    /\ (~ In "--role" args -> new_args = args).
Proof.
  exists (without_role_pairs args). split.
  - apply handle_participants_run.
  - destruct (without_role_pairs_bounded (length args) args (le_n _))
      as [Hno Hsub].
    repeat split; [exact Hno | exact Hsub | apply without_role_pairs_id].
Qed.

(** X2: the commands of [handle_pipelines] on any argument list: one
    [import] for every argument before the first URL that contains
    [.json], then one [add] when some argument is a URL, and nothing
    after it; every command carries the whole argument list. *)
Theorem handle_pipelines_imports_then_add (args : list string) (t : trace) :
  handle_pipelines args t =
  (Ok tt,
   t ++ repeat (["tw"; "pipelines"; "import"] ++ args)
               (length (List.filter (contains ".json") (before_url args)))
     ++ (if existsb is_url args
         then [["tw"; "pipelines"; "add"] ++ args] else [])).
Proof.
  unfold handle_pipelines. rewrite pipelines_loop_trace. f_equal. f_equal.
  enough (forall rest,
    pipelines_issued args rest =
    repeat (["tw"; "pipelines"; "import"] ++ args)
           (length (List.filter (contains ".json") (before_url rest)))
    ++ (if existsb is_url rest
        then [["tw"; "pipelines"; "add"] ++ args] else [])) as E
    by apply E.
  induction rest as [|a rest IH];
    cbn [pipelines_issued before_url existsb]; [reflexivity|].
  destruct (is_url a); cbn [orb List.filter length repeat app];
    [reflexivity|].
  destruct (contains ".json" a); cbn [length repeat app]; now rewrite IH.
Qed.

(** X3: [handle_info], [handle_launch] and [handle_compute_envs] issue
    one command each, with the arguments as supplied; the attribute
    [compute_envs] reaches the command line as [compute-envs]. *)
Theorem pass_through_handlers (args : list string) (t : trace) :
  handle_info args t = (Ok tt, t ++ [["tw"; "info"] ++ args])
  /\ handle_launch args t = (Ok tt, t ++ [["tw"; "launch"] ++ args])
  /\ handle_compute_envs args t
     = (Ok tt, t ++ [["tw"; "compute-envs"; "import"] ++ args]).
Proof.
  unfold handle_info, handle_launch, handle_compute_envs, bind, ret.
  rewrite !TwCommand_call_strs, TwCommand_call_verb.
  repeat split.
Qed.

Lemma teams_members_loop_run (members_cmd_args : list (list string)) :
  forall t : trace,
    for_m members_cmd_args
      (fun (_ : unit) sublist =>
         run TwCommand_call (tw_getattr "teams")
               (VStr "members" :: map VStr sublist) then
         ret tt)
      tt t
    = (Ok tt,
       t ++ map (fun sublist => ["tw"; "teams"; "members"] ++ sublist)
                members_cmd_args).
Proof.
  induction members_cmd_args as [|m rest IH]; intros t; cbn [for_m map].
  - unfold ret. now rewrite app_nil_r.
  - unfold bind at 1. unfold bind at 1.
    rewrite TwCommand_call_verb. unfold ret at 1. rewrite IH.
    now rewrite <- app_assoc.
Qed.

Lemma handle_teams_run (cmd_args : list string)
    (members_cmd_args : list (list string)) (t : trace) :
  handle_teams (cmd_args, members_cmd_args) t =
  (Ok tt,
   t ++ (["tw"; "teams"; "add"] ++ cmd_args)
        :: map (fun sublist => ["tw"; "teams"; "members"] ++ sublist)
               members_cmd_args).
Proof.
  unfold handle_teams. unfold bind at 1. rewrite TwCommand_call_verb.
  unfold bind at 1. rewrite teams_members_loop_run.
  unfold ret. now rewrite <- app_assoc.
Qed.

(** ** Teams *)

Lemma teams_loop_no_members (item l : dict) :
  ~ In "members" (dict_keys l) ->
  forall acc,
    for_r l (teams_step item) acc
    = Ok (fst acc ++ flat_map teams_chunk l, snd acc).
Proof.
  induction l as [|[k v] l IH]; intros Hno [c ms];
    cbn [for_r flat_map fst snd].
  - now rewrite app_nil_r.
  - assert (Hl : ~ In "members" (dict_keys l))
      by (intros Hin; apply Hno; now right).
    unfold teams_step at 1, teams_chunk at 1. cbn [fst snd].
    destruct (in_list k ["name"; "organization"; "description"]).
    + cbn [rbind]. rewrite (IH Hl). cbn [fst snd].
      now rewrite <- app_assoc.
    + destruct (String.eqb_spec k "members") as [->|Hne].
      * exfalso. apply Hno. now left.
      * rewrite andb_false_r. cbn [rbind]. now rewrite (IH Hl).
Qed.

Lemma teams_member_loop_exact (item : dict) (n o : value)
    (members : list value) :
  dict_lookup "name" item = Some n ->
  dict_lookup "organization" item = Some o ->
  forall acc,
    for_r members (teams_member_step item) acc
    = Ok (acc ++ map (member_args n o) members).
Proof.
  intros Hn Ho. induction members as [|m members IH]; intros acc;
    cbn [for_r map].
  - now rewrite app_nil_r.
  - unfold teams_member_step at 1, dict_item. rewrite Hn, Ho.
    cbn [rbind]. rewrite IH. now rewrite <- app_assoc.
Qed.

Lemma teams_loop_at_members (item before after : dict) (mv : value) :
  ~ In "members" (dict_keys before) ->
  ~ In "members" (dict_keys after) ->
  for_r (before ++ ("members", mv) :: after) (teams_step item) ([], [])
  = (let? members := py_iter mv in
     let? members_cmd_args :=
       for_r members (teams_member_step item) [] in
     Ok (flat_map teams_chunk (before ++ ("members", mv) :: after),
         members_cmd_args)).
Proof.
  intros Hb Ha. rewrite for_r_app, (teams_loop_no_members item before Hb).
  cbn [rbind for_r fst snd app]. unfold teams_step at 1.
  cbn [in_list existsb String.eqb Ascii.eqb Bool.eqb orb andb].
  destruct (py_iter mv) as [members|e]; cbn [rbind]; [|reflexivity].
  destruct (for_r members (teams_member_step item) []) as [ms|e];
    cbn [rbind]; [|reflexivity].
  rewrite (teams_loop_no_members item after Ha). cbn [fst snd].
  rewrite flat_map_app. reflexivity.
Qed.

Lemma parse_teams_block_at_members (item : dict) (mv : value) :
  wf_dict item ->
  dict_lookup "members" item = Some mv ->
  parse_teams_block item =
  (let? members := py_iter mv in
   let? members_cmd_args := for_r members (teams_member_step item) [] in
   Ok (flat_map teams_chunk item, members_cmd_args)).
Proof.
  intros Hwf Hm. destruct (dict_split_at _ _ _ Hm) as [Hsplit Hb].
  pose proof Hwf as Hwf'. rewrite Hsplit in Hwf'.
  apply wf_dict_split in Hwf' as (_ & Ha & _ & _).
  unfold parse_teams_block.
  transitivity
    (for_r (dict_before "members" item
            ++ ("members", mv) :: dict_after "members" item)
           (teams_step item) ([], [])).
  - now rewrite <- Hsplit.
  - rewrite (teams_loop_at_members item _ _ mv Hb Ha). now rewrite <- Hsplit.
Qed.

(** X4: a team item mapped by [parse_teams_block] and handed to
    [handle_teams] issues [teams add] with the flags of [name],
    [organization] and [description] in the order of the item, then one
    [teams members ... add --member] command for each member, in the
    order of the members, each naming the team and its organization. *)
Theorem teams_add_then_one_command_per_member (item : dict)
    (n o mv : value) (members : list value) (t : trace) :
  wf_dict item ->
  dict_lookup "name" item = Some n ->
  dict_lookup "organization" item = Some o ->
  dict_lookup "members" item = Some mv ->
  py_iter mv = Ok members ->
  exists args,
    parse_teams_block item = Ok args
    /\ handle_teams args t =
       (Ok tt,
        t ++ (["tw"; "teams"; "add"] ++ flat_map teams_chunk item)
             :: map (fun member =>
                       [ "tw"; "teams"; "members"; "--team"; py_str n;
                         "--organization"; py_str o; "add"; "--member";
                         py_str member ])
                    members).
Proof.
  intros Hwf Hn Ho Hm Hit.
  exists (flat_map teams_chunk item, map (member_args n o) members). split.
  - rewrite (parse_teams_block_at_members item mv Hwf Hm), Hit.
    cbn [rbind]. now rewrite (teams_member_loop_exact item n o members Hn Ho).
  - rewrite handle_teams_run, map_map. reflexivity.
Qed.

(** X5: a team item with a [members] field.  A value that cannot be
    iterated raises [TypeError]; an empty one maps the item whether or not
    it has [name] and [organization]; with at least one member, the item
    is mapped only if it has both: without [name] the mapper raises
    [KeyError] on [name], with [name] and without [organization] on
    [organization], and with both every member gets its argument list. *)
Theorem parse_teams_block_with_members (item : dict) (mv : value) :
  wf_dict item ->
  dict_lookup "members" item = Some mv ->
  parse_teams_block item =
  match py_iter mv with
  | Raise _ => Raise TypeError
  | Ok [] => Ok (flat_map teams_chunk item, [])
  | Ok members =>
      match dict_lookup "name" item, dict_lookup "organization" item with
      | None, _ => Raise (KeyError "name")
      | Some _, None => Raise (KeyError "organization")
      | Some n, Some o =>
          Ok (flat_map teams_chunk item, map (member_args n o) members)
      end
  end.
Proof.
  intros Hwf Hm. rewrite (parse_teams_block_at_members item mv Hwf Hm).
  destruct (py_iter mv) as [[|m rest]|e] eqn:Hit; cbn [rbind for_r].
  - reflexivity.
  - unfold teams_member_step at 1, dict_item.
    destruct (dict_lookup "name" item) as [n|] eqn:Hn; [|reflexivity].
    destruct (dict_lookup "organization" item) as [o|] eqn:Ho;
      [|reflexivity].
    cbn [rbind]. now rewrite (teams_member_loop_exact item n o rest Hn Ho).
  - destruct mv; try discriminate; cbn [py_iter] in Hit;
      now injection Hit as <-.
Qed.

(** X6: a team item without a [members] field is mapped to the flags of
    [name], [organization] and [description] it has, in the order of the
    item, and to no member list; every other field is left out, and
    neither [name] nor [organization] is required. *)
Theorem parse_teams_block_without_members (item : dict) :
  dict_lookup "members" item = None ->
  parse_teams_block item = Ok (flat_map teams_chunk item, []).
Proof.
  intros Hm. apply dict_lookup_None_notin in Hm. unfold parse_teams_block.
  now rewrite (teams_loop_no_members item item Hm).
Qed.

(** ** The command wrapper *)

Lemma all_str_non_string (vs : list value) (v : value) :
  In v vs -> (forall s, v <> VStr s) -> all_str vs = None.
Proof.
  intros Hin Hv. induction vs as [|x vs IH]; [destruct Hin|].
  destruct Hin as [->|Hin].
  - destruct v; try reflexivity. now destruct (Hv s).
  - cbn [all_str]. rewrite (IH Hin). now destruct x.
Qed.

(** X7: a call of a [tw] method with an argument that is not a string
    raises [AttributeError] when the command line is put together, and
    no command is run. *)
Theorem TwCommand_call_non_string (c : TwCommand) (args : list value)
    (v : value) (t : trace) :
  In v args -> (forall s, v <> VStr s) ->
  TwCommand_call c args t = (Raise AttributeError, t).
Proof.
  intros Hin Hv. unfold TwCommand_call, _tw_run.
  change (VStr "tw" :: map VStr (py_split (tc_cmd c)) ++ args)
    with (map VStr ("tw" :: py_split (tc_cmd c)) ++ args).
  rewrite all_str_app_strs, (all_str_non_string args v Hin Hv).
  reflexivity.
Qed.

Lemma str_app_nil_r (s : string) : s +:+ "" = s.
Proof.
  induction s as [|c s IH]; [reflexivity|].
  change (String c (s +:+ "") = String c s). now f_equal.
Qed.

Lemma str_app_assoc (a b c : string) : (a +:+ b) +:+ c = a +:+ (b +:+ c).
Proof.
  induction a as [|x a IH]; [reflexivity|].
  change (String x ((a +:+ b) +:+ c) = String x (a +:+ (b +:+ c))).
  now f_equal.
Qed.

Lemma all_chars_app (p : ascii -> bool) (a b : string) :
  all_chars p (a +:+ b) = all_chars p a && all_chars p b.
Proof.
  induction a as [|x a IH]; [reflexivity|].
  change (String x a +:+ b) with (String x (a +:+ b)). cbn [all_chars].
  now rewrite IH, andb_assoc.
Qed.

Lemma split_ws_no_space (s : string) :
  no_space s = true ->
  forall cur,
    split_ws cur s
    = if String.eqb (cur +:+ s) "" then [] else [cur +:+ s].
Proof.
  unfold no_space. induction s as [|c s IH]; intros Hs cur;
    cbn [split_ws all_chars] in *.
  - now rewrite str_app_nil_r.
  - apply andb_true_iff in Hs as [Hc Hs].
    apply negb_true_iff in Hc. rewrite Hc, (IH Hs), str_app_assoc.
    reflexivity.
Qed.

Lemma split_ws_tokens (p : ascii -> bool) (s : string) :
  all_chars p s = true ->
  forall cur,
    all_chars p cur = true -> no_space cur = true ->
    Forall (fun tok => all_chars p tok = true /\ no_space tok = true
                       /\ tok <> "")
           (split_ws cur s).
Proof.
  assert (Hcur : forall cur,
    all_chars p cur = true -> no_space cur = true ->
    Forall (fun tok => all_chars p tok = true /\ no_space tok = true
                       /\ tok <> "")
           (if String.eqb cur "" then [] else [cur])).
  { intros cur Hp Hn. destruct (String.eqb_spec cur ""); constructor; auto. }
  induction s as [|c s IH]; intros Hs cur Hp Hn;
    cbn [split_ws all_chars] in *.
  - now apply Hcur.
  - apply andb_true_iff in Hs as [Hc Hs].
    destruct (is_space c) eqn:Hsp.
    + apply Forall_app. split; [now apply Hcur | now apply IH].
    + apply IH; auto.
      * rewrite all_chars_app, Hp. cbn [all_chars andb]. now rewrite Hc.
      * unfold no_space in *. rewrite all_chars_app, Hn.
        cbn [all_chars andb]. now rewrite Hsp.
Qed.

Lemma no_underscore_contains (s : string) :
  no_underscore s = true -> contains "_" s = false.
Proof.
  unfold no_underscore. induction s as [|c s IH]; cbn [all_chars contains].
  - reflexivity.
  - intros H. apply andb_true_iff in H as [Hc Hs].
    apply negb_true_iff, Ascii.eqb_neq in Hc.
    rewrite (IH Hs), orb_false_r. cbn [String.prefix].
    destruct (ascii_dec "_" c) as [E|_]; [now destruct Hc | reflexivity].
Qed.

Lemma replace_char_no_underscore (s : string) :
  no_underscore (replace_char "_" "-" s) = true.
Proof.
  unfold no_underscore. induction s as [|c s IH];
    cbn [replace_char all_chars]; [reflexivity|].
  rewrite IH, andb_true_r. destruct (Ascii.eqb c "_") eqn:Hc;
    [reflexivity | now rewrite Hc].
Qed.

Lemma replace_char_no_space (s : string) :
  no_space s = true -> no_space (replace_char "_" "-" s) = true.
Proof.
  unfold no_space. induction s as [|c s IH];
    cbn [replace_char all_chars]; [reflexivity|].
  intros H. apply andb_true_iff in H as [Hc Hs]. rewrite (IH Hs), andb_true_r.
  now destruct (Ascii.eqb c "_").
Qed.

(** X8: a method name that attribute access hands to [__getattr__], that
    is neither [TwCommand] nor a name with a leading underscore, and that
    is not empty and holds no whitespace, becomes the one subcommand token
    of the command line, each underscore of the name turned into a
    hyphen, between [tw] and the arguments. *)
Theorem method_name_is_one_token (name : string) (method : TwCommand)
    (args : list string) (t : trace) :
  getattr_tw name = Some method ->
  name <> "" -> no_space name = true ->
  TwCommand_call method (map VStr args) t =
  (Ok (tw_exec t ("tw" :: replace_char "_" "-" name :: args)),
   t ++ ["tw" :: replace_char "_" "-" name :: args]).
Proof.
  intros Hget Hne Hn. unfold getattr_tw in Hget.
  destruct (String.eqb name "TwCommand" || startswith "_" name);
    [discriminate|].
  injection Hget as <-. rewrite TwCommand_call_strs.
  unfold command_line, tw_getattr, py_split. cbn [tc_cmd].
  rewrite (split_ws_no_space _ (replace_char_no_space name Hn)).
  change ("" +:+ replace_char "_" "-" name)
    with (replace_char "_" "-" name).
  destruct name as [|c name]; [now destruct Hne | reflexivity].
Qed.

(** X9: whatever the method name that attribute access hands to
    [__getattr__], any name but [TwCommand] without a leading underscore,
    the subcommand tokens it puts on the command line hold no underscore
    and no whitespace, and none is empty. *)
Theorem method_tokens_have_no_underscore (name : string)
    (method : TwCommand) (args : list string) (t : trace) :
  getattr_tw name = Some method ->
  exists line,
    TwCommand_call method (map VStr args) t =
    (Ok (tw_exec t ("tw" :: line ++ args)), t ++ ["tw" :: line ++ args])
    /\ Forall (fun tok => contains "_" tok = false
                          /\ no_space tok = true /\ tok <> "")
              line.
Proof.
  intros Hget. unfold getattr_tw in Hget.
  destruct (String.eqb name "TwCommand" || startswith "_" name);
    [discriminate|].
  injection Hget as <-.
  exists (py_split (tc_cmd (tw_getattr name))). split.
  - apply TwCommand_call_strs.
  - unfold tw_getattr, py_split. cbn [tc_cmd].
    eapply List.Forall_impl;
      [|apply (split_ws_tokens (fun c => negb (Ascii.eqb c "_")));
        [apply replace_char_no_underscore | reflexivity | reflexivity]].
    intros tok (Hu & Hs & Hne). repeat split; auto.
    now apply no_underscore_contains.
Qed.

Lemma all_str_app (a b : list value) :
  all_str (a ++ b) =
  match all_str a, all_str b with
  | Some x, Some y => Some (x ++ y)
  | _, _ => None
  end.
Proof.
  induction a as [|v a IH]; cbn [app all_str].
  - now destruct (all_str b).
  - destruct v; try reflexivity. rewrite IH.
    destruct (all_str a), (all_str b); reflexivity.
Qed.

Lemma in_list_keys (k : string) (d : dict) :
  in_list k (dict_keys d)
  = match dict_lookup k d with Some _ => true | None => false end.
Proof.
  induction d as [|[k' v] d IH];
    cbn [dict_keys map fst in_list existsb dict_lookup]; [reflexivity|].
  destruct (String.eqb k k'); [reflexivity | exact IH].
Qed.

Lemma TwCommand_call_kwargs_strs (c : TwCommand) (args : list string)
    (kwargs : dict) (t : trace) :
  dict_lookup "self" kwargs = None ->
  dict_lookup "cmd" kwargs = None ->
  TwCommand_call_kwargs c (map VStr args) kwargs t =
  (Ok (tw_exec t (kwargs_command_line c args kwargs)),
   t ++ [kwargs_command_line c args kwargs]).
Proof.
  intros Hself Hcmd.
  unfold TwCommand_call_kwargs, _tw_run_kwargs, kwargs_command_line.
  rewrite !in_list_keys, Hself, Hcmd. cbn [orb].
  rewrite <- map_app.
  generalize (py_split (tc_cmd c) ++ args) as cmd. intros cmd. cbv zeta.
  destruct (truthy (dict_get kwargs "to_json")),
    (dict_get kwargs "config") as [| | | | |],
    (dict_lookup "params_file" kwargs) as [params_path|];
    rewrite ?all_str_app, all_str_strs; cbn [all_str app];
    rewrite <- ?app_assoc, ?app_nil_r; reflexivity.
Qed.

Lemma dict_remove_lookup_eq (k : string) (d : dict) :
  dict_lookup k (dict_remove k d) = None.
Proof.
  apply dict_lookup_notin. unfold dict_keys. intros Hin.
  apply in_map_iff in Hin as ([k' v] & Hk & Hin). cbn [fst] in Hk.
  subst k'. apply dict_remove_In in Hin as [_ Hne]. now apply Hne.
Qed.

(** X10: a call with [params_file=None], and no keyword that collides
    with a parameter of [_tw_run], still ends its command line with a
    [--params-file=] token, holding the text [None]: the keyword is tested
    for presence, not for its value. *)
Theorem params_file_none_reaches_the_command_line (c : TwCommand)
    (args : list string) (kwargs : dict) (t : trace) :
  dict_lookup "params_file" kwargs = Some VNone ->
  dict_lookup "self" kwargs = None ->
  dict_lookup "cmd" kwargs = None ->
  exists line,
    TwCommand_call_kwargs c (map VStr args) kwargs t =
    (Ok (tw_exec t (line ++ ["--params-file=None"])),
     t ++ [line ++ ["--params-file=None"]]).
Proof.
  intros Hp Hself Hcmd.
  rewrite (TwCommand_call_kwargs_strs c args kwargs t Hself Hcmd).
  unfold kwargs_command_line. rewrite Hp.
  change ["--params-file=" +:+ py_str VNone] with ["--params-file=None"].
  rewrite !app_assoc. eexists. reflexivity.
Qed.

(** X11: a call with [config=None] runs the command a call without the
    keyword [config] runs: this keyword is tested for its value. *)
Theorem config_none_is_no_config (c : TwCommand) (args : list value)
    (kwargs : dict) (t : trace) :
  dict_lookup "config" kwargs = Some VNone ->
  TwCommand_call_kwargs c args kwargs t
  = TwCommand_call_kwargs c args (dict_remove "config" kwargs) t.
Proof.
  intros Hc. unfold TwCommand_call_kwargs, _tw_run_kwargs, dict_get.
  rewrite !in_list_keys, Hc, dict_remove_lookup_eq.
  now rewrite !dict_remove_lookup_ne by discriminate.
Qed.

(** ** Overwriting, block by block *)

Lemma get_values_dom (cmd_args keys : list string) :
  dom (get_values_from_cmd_args cmd_args keys)
  = (list_to_set keys : gset string).
Proof.
  unfold get_values_from_cmd_args. apply get_values_loop_dom.
  apply init_values_dom.
Qed.

Lemma get_values_not_requested (cmd_args keys : list string) (k : string) :
  k ∉ keys -> get_values_from_cmd_args cmd_args keys !! k = None.
Proof.
  intros Hk. apply not_elem_of_dom. rewrite get_values_dom.
  now rewrite elem_of_list_to_set.
Qed.

Ltac overwrite_table :=
  unfold handle_overwrite;
  cbn [ops_lookup block_operations ops_set in_list existsb
       generic_deletion base_block_operations String.eqb Ascii.eqb
       Bool.eqb andb orb generic_operation op_keys op_method_args
       op_name_key as_cmd_args first_as_cmd_args];
  unfold bind, lift, ret.

Lemma handle_overwrite_generic (block : string) (args : list string)
    (t : trace) (name : value) (w : string) :
  In block generic_deletion ->
  let tw_args := get_values_from_cmd_args args ["name"; "workspace"] in
  let listing := ["tw"; "-o"; "json"; block; "list"; "-w"; w] in
  tw_args !! "name" = Some name ->
  tw_args !! "workspace" = Some (VStr w) ->
  handle_overwrite block (Args args) t =
  match check_if_exists (tw_exec t listing) "name" name with
  | Raise e => (Raise e, t ++ [listing])
  | Ok false => (Ok tt, t ++ [listing])
  | Ok true =>
      match name with
      | VStr n =>
          (Ok tt,
           (t ++ [listing])
           ++ [["tw"; block; "delete"; "--name"; n; "--workspace"; w]])
      | _ => (Raise AttributeError, t ++ [listing])
      end
  end.
Proof.
  intros Hin tw_args listing Hname Hws. subst tw_args listing.
  assert (Htype : get_values_from_cmd_args args ["name"; "workspace"]
                  !! "type" = None).
  { apply get_values_not_requested. rewrite !elem_of_cons.
    intros [H|[H|H]]; [discriminate | discriminate | inversion H]. }
  cbn [generic_deletion In] in Hin.
  destruct Hin as [<-|[<-|[<-|[<-|[<-|[<-|[]]]]]]];
    overwrite_table; rewrite (tw_item_lookup _ _ _ Hws);
    match goal with
    | |- context [TwCommand_call _ [VStr ?b; VStr "list"; VStr "-w"; VStr w]] =>
        change [VStr b; VStr "list"; VStr "-w"; VStr w]
          with (map VStr [b; "list"; "-w"; w])
    end;
    rewrite TwCommand_call_strs; cbv beta iota;
    cbn [lu_tw_args lu_json_data lu_operation op_name_key op_method_args];
    rewrite Htype, (tw_item_lookup _ _ _ Hname);
    match goal with
    | |- context [command_line (tw_getattr "-o json") ?l] =>
        change (command_line (tw_getattr "-o json") l)
          with ("tw" :: "-o" :: "json" :: l)
    end;
    cbn [generic_operation op_name_key op_method_args];
    destruct (check_if_exists _ "name" name) as [[|]|e];
    cbv beta iota; try reflexivity;
    unfold bind, lift, ret;
    rewrite (tw_item_lookup _ _ _ Hname), (tw_item_lookup _ _ _ Hws);
    destruct name as [| | |n| |]; reflexivity.
Qed.


Lemma match_TEAM {A} (a b : A) (y : string) :
  match y with
  | "TEAM"%string => a
  | _ => b
  end = if String.eqb y "TEAM" then a else b.
Proof.
  do 4 (destruct y as [|[[] [] [] [] [] [] [] []] y]; try reflexivity).
  destruct y; reflexivity.
Qed.

Lemma retarget_TEAM (op : operation) (ty : value) :
  match ty with
  | VStr "TEAM" => set_name_key "teamName" op
  | _ => op
  end = if py_eq ty (VStr "TEAM")
        then set_name_key "teamName" op else op.
Proof.
  destruct ty; try reflexivity. cbn [py_eq]. apply match_TEAM.
Qed.

Lemma handle_overwrite_participants (args : list string) (t : trace)
    (name ty : value) (w : string) :
  let tw_args :=
    get_values_from_cmd_args args ["name"; "type"; "workspace"] in
  let listing := ["tw"; "-o"; "json"; "participants"; "list"; "-w"; w] in
  tw_args !! "name" = Some name ->
  tw_args !! "type" = Some ty ->
  tw_args !! "workspace" = Some (VStr w) ->
  handle_overwrite "participants" (Args args) t =
  match check_if_exists (tw_exec t listing)
          (if py_eq ty (VStr "TEAM") then "teamName" else "email")
          name with
  | Raise e => (Raise e, t ++ [listing])
  | Ok false => (Ok tt, t ++ [listing])
  | Ok true =>
      match name, ty with
      | VStr n, VStr y =>
          (Ok tt,
           (t ++ [listing])
           ++ [[ "tw"; "participants"; "delete"; "--name"; n; "--type"; y;
                 "--workspace"; w ]])
      | _, _ => (Raise AttributeError, t ++ [listing])
      end
  end.
Proof.
  intros tw_args listing Hname Hty Hws. subst tw_args listing.
  overwrite_table. rewrite (tw_item_lookup _ _ _ Hws).
  change [VStr "participants"; VStr "list"; VStr "-w"; VStr w]
    with (map VStr ["participants"; "list"; "-w"; w]).
  rewrite TwCommand_call_strs. cbv beta iota.
  cbn [lu_tw_args lu_json_data lu_operation op_name_key op_method_args].
  rewrite Hty, (tw_item_lookup _ _ _ Hname).
  change (command_line (tw_getattr "-o json")
            ["participants"; "list"; "-w"; w])
    with ["tw"; "-o"; "json"; "participants"; "list"; "-w"; w].
  rewrite retarget_TEAM.
  destruct (py_eq ty (VStr "TEAM"));
    cbn [set_name_key op_name_key op_method_args];
    destruct (check_if_exists _ _ name) as [[|]|e];
    cbv beta iota; try reflexivity;
    unfold bind, lift, ret;
    rewrite (tw_item_lookup _ _ _ Hname), (tw_item_lookup _ _ _ Hty),
      (tw_item_lookup _ _ _ Hws);
    destruct name as [| | |n| |]; try reflexivity;
    destruct ty as [| | |y| |]; reflexivity.
Qed.

Lemma handle_overwrite_organizations (args : list string) (t : trace)
    (name : value) :
  let tw_args := get_values_from_cmd_args args ["name"] in
  let listing := ["tw"; "-o"; "json"; "organizations"; "list"] in
  tw_args !! "name" = Some name ->
  handle_overwrite "organizations" (Args args) t =
  match check_if_exists (tw_exec t listing) "orgName" name with
  | Raise e => (Raise e, t ++ [listing])
  | Ok false => (Ok tt, t ++ [listing])
  | Ok true =>
      match name with
      | VStr n =>
          (Ok tt,
           (t ++ [listing]) ++ [["tw"; "organizations"; "delete"; "--name"; n]])
      | _ => (Raise AttributeError, t ++ [listing])
      end
  end.
Proof.
  intros tw_args listing Hname. subst tw_args listing.
  overwrite_table.
  change [VStr "organizations"; VStr "list"]
    with (map VStr ["organizations"; "list"]).
  rewrite TwCommand_call_strs. cbv beta iota.
  cbn [lu_tw_args lu_json_data lu_operation op_name_key op_method_args].
  rewrite (tw_item_lookup _ _ _ Hname).
  change (command_line (tw_getattr "-o json") ["organizations"; "list"])
    with ["tw"; "-o"; "json"; "organizations"; "list"].
  destruct (check_if_exists _ _ name) as [[|]|e];
    cbv beta iota; try reflexivity.
  destruct name as [| | |n| |]; reflexivity.
Qed.

Lemma handle_overwrite_teams (cmd_args : list string)
    (members_cmd_args : list (list string)) (t : trace) (name : value)
    (o : string) :
  let tw_args := get_values_from_cmd_args cmd_args ["name"; "organization"] in
  let listing := ["tw"; "-o"; "json"; "teams"; "list"; "-o"; o] in
  tw_args !! "name" = Some name ->
  tw_args !! "organization" = Some (VStr o) ->
  handle_overwrite "teams" (TeamArgs cmd_args members_cmd_args) t =
  match check_if_exists (tw_exec t listing) "name" name with
  | Raise e => (Raise e, t ++ [listing])
  | Ok false => (Ok tt, t ++ [listing])
  | Ok true =>
      match (let? data := json_loads (tw_exec (t ++ [listing]) listing) in
             find_key_value_in_dict data "name" name "teamId") with
      | Raise e => (Raise e, (t ++ [listing]) ++ [listing])
      | Ok id =>
          (Ok tt,
           ((t ++ [listing]) ++ [listing])
           ++ [[ "tw"; "teams"; "delete"; "--id"; py_str id;
                 "--organization"; o ]])
      end
  end.
Proof.
  intros tw_args listing Hname Horg. subst tw_args listing.
  overwrite_table. rewrite (tw_item_lookup _ _ _ Horg).
  change [VStr "teams"; VStr "list"; VStr "-o"; VStr o]
    with (map VStr ["teams"; "list"; "-o"; o]).
  rewrite TwCommand_call_strs. cbv beta iota.
  cbn [lu_tw_args lu_json_data lu_operation op_name_key op_method_args].
  rewrite (tw_item_lookup _ _ _ Hname).
  change (command_line (tw_getattr "-o json") ["teams"; "list"; "-o"; o])
    with ["tw"; "-o"; "json"; "teams"; "list"; "-o"; o].
  destruct (check_if_exists _ _ name) as [[|]|e];
    cbv beta iota; try reflexivity.
  unfold bind, lift, ret.
  rewrite ?(tw_item_lookup _ _ _ Hname), ?(tw_item_lookup _ _ _ Horg).
  unfold get_delete_identifier, bind, lift.
  cbn [String.eqb Ascii.eqb Bool.eqb].
  change [VStr "teams"; VStr "list"; VStr "-o"; VStr o]
    with (map VStr ["teams"; "list"; "-o"; o]).
  rewrite TwCommand_call_strs.
  change (command_line (tw_getattr "-o json") ["teams"; "list"; "-o"; o])
    with ["tw"; "-o"; "json"; "teams"; "list"; "-o"; o].
  destruct (json_loads _) as [data|e]; cbn [rbind]; [|reflexivity].
  destruct (find_key_value_in_dict data "name" name "teamId") as [id|e];
    reflexivity.
Qed.

Lemma in_list_requested (k : string) (keys : list string) :
  in_list k keys = true -> k ∈ keys.
Proof. apply in_list_elem. Qed.

(** X12: a block that is none of the four with a policy of their own and
    none of the six deleted by name and workspace is left alone: no
    command is issued, whatever the arguments. *)
Theorem handle_overwrite_without_policy (block : string) (args : mapped)
    (t : trace) :
  ~ In block ["organizations"; "teams"; "participants"; "workspaces"] ->
  ~ In block generic_deletion ->
  handle_overwrite block args t = (Ok tt, t).
Proof.
  intros Hown Hgen.
  assert (Hg : in_list block generic_deletion = false).
  { apply not_true_iff_false. rewrite in_list_elem, list_elem_of_In.
    exact Hgen. }
  unfold handle_overwrite, block_operations. rewrite Hg.
  cbn [ops_lookup base_block_operations].
  repeat match goal with
         | |- context [String.eqb block ?s] =>
             destruct (String.eqb_spec block s) as [->|_];
             [exfalso; apply Hown; cbn [In]; tauto_closed|]
         end.
  reflexivity.
Qed.

(** X13: overwriting one of the six blocks deleted by name and workspace
    lists the block in the workspace, as JSON, checks the listing for the
    name under the key [name], and deletes by name and workspace only when
    the check finds it; the values are those after the last [--name] and
    the last [--workspace]. *)
Theorem generic_overwrite_by_name_and_workspace (block : string)
    (args : list string) (t : trace) (n w : string) :
  In block generic_deletion ->
  last_occurrence "name" args n ->
  last_occurrence "workspace" args w ->
  let listing := ["tw"; "-o"; "json"; block; "list"; "-w"; w] in
  handle_overwrite block (Args args) t =
  match check_if_exists (tw_exec t listing) "name" (VStr n) with
  | Raise e => (Raise e, t ++ [listing])
  | Ok false => (Ok tt, t ++ [listing])
  | Ok true =>
      (Ok tt,
       t ++ [ listing;
              ["tw"; block; "delete"; "--name"; n; "--workspace"; w] ])
  end.
Proof.
  intros Hin Hn Hw listing.
  rewrite (handle_overwrite_generic block args t (VStr n) w Hin).
  - fold listing. destruct (check_if_exists _ _ _) as [[|]|e];
      try reflexivity. now rewrite <- app_assoc.
  - apply get_values_last;
      [now apply in_list_requested | discriminate | exact Hn].
  - apply get_values_last;
      [now apply in_list_requested | discriminate | exact Hw].
Qed.

(** X14: for the six blocks deleted by name and workspace and for
    participants, arguments without a [--workspace] value make the
    listing fail on its [None] argument: [AttributeError] is raised and no
    command is issued. *)
Theorem overwrite_without_workspace (block : string) (args : list string)
    (t : trace) :
  In block generic_deletion \/ block = "participants" ->
  never_occurs "workspace" args ->
  handle_overwrite block (Args args) t = (Raise AttributeError, t).
Proof.
  intros Hin Hno.
  assert (Hg : get_values_from_cmd_args args ["name"; "workspace"]
               !! "workspace" = Some VNone)
    by (apply get_values_never; [now apply in_list_requested | exact Hno]).
  assert (Hp : get_values_from_cmd_args args ["name"; "type"; "workspace"]
               !! "workspace" = Some VNone)
    by (apply get_values_never; [now apply in_list_requested | exact Hno]).
  cbn [generic_deletion In] in Hin.
  destruct Hin as [[<-|[<-|[<-|[<-|[<-|[<-|[]]]]]]] | ->];
    overwrite_table;
    rewrite ?(tw_item_lookup _ _ _ Hg), ?(tw_item_lookup _ _ _ Hp);
    reflexivity.
Qed.

(** X15: overwriting one of the six blocks deleted by name and workspace
    with no [--name] value among the arguments never deletes: the listing
    is the only command, and when the check on [None] finds something the
    delete fails on its [None] argument with [AttributeError]. *)
Theorem generic_overwrite_without_name (block : string)
    (args : list string) (t : trace) (w : string) :
  In block generic_deletion ->
  never_occurs "name" args ->
  last_occurrence "workspace" args w ->
  let listing := ["tw"; "-o"; "json"; block; "list"; "-w"; w] in
  snd (handle_overwrite block (Args args) t) = t ++ [listing]
  /\ (check_if_exists (tw_exec t listing) "name" VNone = Ok true ->
      fst (handle_overwrite block (Args args) t) = Raise AttributeError).
Proof.
  intros Hin Hn Hw listing.
  rewrite (handle_overwrite_generic block args t VNone w Hin).
  - fold listing. destruct (check_if_exists _ _ _) as [[|]|e];
      split; try reflexivity; discriminate.
  - apply get_values_never;
      [now apply in_list_requested | exact Hn].
  - apply get_values_last;
      [now apply in_list_requested | discriminate | exact Hw].
Qed.

(** X16: overwriting a participant lists the participants of the
    workspace, checks the listing for the name under [teamName] when the
    type is [TEAM] and under [email] otherwise, and deletes by name, type
    and workspace only when the check finds it. *)
Theorem participants_overwrite_by_type (args : list string) (t : trace)
    (n y w : string) :
  last_occurrence "name" args n ->
  last_occurrence "type" args y ->
  last_occurrence "workspace" args w ->
  let listing := ["tw"; "-o"; "json"; "participants"; "list"; "-w"; w] in
  handle_overwrite "participants" (Args args) t =
  match check_if_exists (tw_exec t listing)
          (if String.eqb y "TEAM" then "teamName" else "email")
          (VStr n) with
  | Raise e => (Raise e, t ++ [listing])
  | Ok false => (Ok tt, t ++ [listing])
  | Ok true =>
      (Ok tt,
       t ++ [ listing;
              [ "tw"; "participants"; "delete"; "--name"; n; "--type"; y;
                "--workspace"; w ] ])
  end.
Proof.
  intros Hn Hy Hw listing.
  rewrite (handle_overwrite_participants args t (VStr n) (VStr y) w).
  - fold listing. cbn [py_eq].
    destruct (check_if_exists _ _ _) as [[|]|e]; try reflexivity.
    now rewrite <- app_assoc.
  - apply get_values_last;
      [now apply in_list_requested | discriminate | exact Hn].
  - apply get_values_last;
      [now apply in_list_requested | discriminate | exact Hy].
  - apply get_values_last;
      [now apply in_list_requested | discriminate | exact Hw].
Qed.

(** X17: overwriting an organization lists all organizations, checks the
    listing for the name under [orgName], and deletes by name only when
    the check finds it. *)
Theorem organizations_overwrite_by_name (args : list string) (t : trace)
    (n : string) :
  last_occurrence "name" args n ->
  let listing := ["tw"; "-o"; "json"; "organizations"; "list"] in
  handle_overwrite "organizations" (Args args) t =
  match check_if_exists (tw_exec t listing) "orgName" (VStr n) with
  | Raise e => (Raise e, t ++ [listing])
  | Ok false => (Ok tt, t ++ [listing])
  | Ok true =>
      (Ok tt,
       t ++ [listing; ["tw"; "organizations"; "delete"; "--name"; n]])
  end.
Proof.
  intros Hn listing.
  rewrite (handle_overwrite_organizations args t (VStr n)).
  - fold listing. destruct (check_if_exists _ _ _) as [[|]|e];
      try reflexivity. now rewrite <- app_assoc.
  - apply get_values_last;
      [now apply in_list_requested | discriminate | exact Hn].
Qed.

(** X18: overwriting a team reads the name and the organization from the
    first component of the mapped pair, lists the teams of the
    organization, and, when the check finds the name, lists them a second
    time to look up the [teamId] of the name, then deletes by that
    identifier and the organization; the member lists play no part. *)
Theorem teams_overwrite_by_identifier (cmd_args : list string)
    (members_cmd_args : list (list string)) (t : trace) (n o : string) :
  last_occurrence "name" cmd_args n ->
  last_occurrence "organization" cmd_args o ->
  let listing := ["tw"; "-o"; "json"; "teams"; "list"; "-o"; o] in
  handle_overwrite "teams" (TeamArgs cmd_args members_cmd_args) t =
  match check_if_exists (tw_exec t listing) "name" (VStr n) with
  | Raise e => (Raise e, t ++ [listing])
  | Ok false => (Ok tt, t ++ [listing])
  | Ok true =>
      match (let? data := json_loads (tw_exec (t ++ [listing]) listing) in
             find_key_value_in_dict data "name" (VStr n) "teamId") with
      | Raise e => (Raise e, t ++ [listing; listing])
      | Ok id =>
          (Ok tt,
           t ++ [ listing; listing;
                  [ "tw"; "teams"; "delete"; "--id"; py_str id;
                    "--organization"; o ] ])
      end
  end.
Proof.
  intros Hn Ho listing.
  rewrite (handle_overwrite_teams cmd_args members_cmd_args t (VStr n) o).
  - fold listing. destruct (check_if_exists _ _ _) as [[|]|e];
      try reflexivity.
    destruct (rbind _ _) as [id|e]; now rewrite <- !app_assoc.
  - apply get_values_last;
      [now apply in_list_requested | discriminate | exact Hn].
  - apply get_values_last;
      [now apply in_list_requested | discriminate | exact Ho].
Qed.

(** ** The identifier of a workspace *)

(** X19: [find_workspace_id] returns the identifier of the first listed
    workspace that has both the organization and the name, whatever is
    listed after it. *)
Theorem find_workspace_id_first_match (json_data : string) (top : dict)
    (pre : list dict) (w : dict) (post : list value)
    (organization workspace_name : value) :
  json_loads json_data = Ok (VDict top) ->
  dict_lookup "workspaces" top
  = Some (VList (map VDict pre ++ VDict w :: post)) ->
  Forall (fun w' => workspace_matches organization workspace_name w' = false)
         pre ->
  workspace_matches organization workspace_name w = true ->
  find_workspace_id json_data organization workspace_name
  = Ok (dict_get w "workspaceId").
Proof.
  intros Hload Hws Hpre Hw.
  rewrite (find_workspace_id_listing _ top _ _ _ Hload Hws).
  rewrite (find_workspace_loop_skips pre _ _ _ Hpre).
  cbn [find_workspace_loop].
  fold (workspace_matches organization workspace_name w).
  now rewrite Hw.
Qed.

(** X20: [find_workspace_id] returns [None] when the listing has no
    [workspaces] entry, and when none of the listed workspaces has both
    the organization and the name. *)
Theorem find_workspace_id_none (json_data : string) (top : dict)
    (organization workspace_name : value) :
  json_loads json_data = Ok (VDict top) ->
  dict_lookup "workspaces" top = None
  \/ (exists workspaces,
        dict_lookup "workspaces" top = Some (VList (map VDict workspaces))
        /\ Forall (fun w => workspace_matches organization workspace_name w
                            = false)
                  workspaces) ->
  find_workspace_id json_data organization workspace_name = Ok VNone.
Proof.
  intros Hload [Hnone|(workspaces & Hws & Hall)].
  - unfold find_workspace_id. rewrite Hload. cbn [rbind].
    now rewrite Hnone.
  - rewrite (find_workspace_id_listing _ top _ _ _ Hload Hws).
    rewrite <- (app_nil_r (map VDict workspaces)).
    now rewrite (find_workspace_loop_skips workspaces [] _ _ Hall).
Qed.

(** X21: a listing that decodes to anything but an object never yields an
    identifier: [find_workspace_id] returns [None] or raises
    [TypeError]. *)
Theorem find_workspace_id_not_an_object (json_data : string) (v : value)
    (organization workspace_name : value) :
  json_loads json_data = Ok v ->
  (forall d, v <> VDict d) ->
  find_workspace_id json_data organization workspace_name = Ok VNone
  \/ find_workspace_id json_data organization workspace_name
     = Raise TypeError.
Proof.
  intros Hload Hv. unfold find_workspace_id. rewrite Hload. cbn [rbind].
  destruct v as [| | |s|l|d]; cbn [rbind]; auto.
  - destruct (contains "workspaces" s); cbn [rbind]; auto.
  - destruct (existsb _ l); cbn [rbind]; auto.
  - now destruct (Hv d).
Qed.

(** ** The mappers, field by field *)

(** X22: the generic mapper turns every field into two tokens, in the
    order of the item: the field at position [i] gives the flag of its
    key at position [2 i] and the text of its value right after. *)
Theorem parse_generic_block_positions (item : dict) :
  length (parse_generic_block item) = 2 * length item
  /\ forall i k v,
       item !! i = Some (k, v) ->
       parse_generic_block item !! (2 * i) = Some (flag k)
       /\ parse_generic_block item !! S (2 * i) = Some (py_str v).
Proof.
  rewrite parse_generic_block_chunks.
  induction item as [|[k0 v0] item [IHlen IHpos]].
  - split; [reflexivity | intros i k v H; destruct i; discriminate].
  - split.
    + cbn [flat_map generic_chunk app length fst snd]. rewrite IHlen. lia.
    + intros [|i] k v Hi.
      * injection Hi as -> ->. split; reflexivity.
      * replace (2 * S i) with (S (S (2 * i))) by lia.
        exact (IHpos i k v Hi).
Qed.

Lemma flat_map_agree {A B} (f g : A -> list B) (l : list A) :
  (forall x, In x l -> f x = g x) -> flat_map f l = flat_map g l.
Proof.
  induction l as [|x l IH]; intros H; cbn [flat_map]; [reflexivity|].
  rewrite (H x) by now left.
  rewrite IH; [reflexivity|]. intros y Hy. apply H. now right.
Qed.

Lemma flat_map_none {A B} (f : A -> list B) (l : list A) :
  (forall x, In x l -> f x = []) -> flat_map f l = [].
Proof.
  induction l as [|x l IH]; intros H; cbn [flat_map]; [reflexivity|].
  rewrite (H x) by now left.
  apply IH. intros y Hy. apply H. now right.
Qed.

Lemma absent_key (k : string) (item : dict) (kv : string * value) :
  dict_lookup k item = None -> In kv item -> String.eqb (fst kv) k = false.
Proof.
  intros Hk Hin. apply String.eqb_neq. intros <-.
  apply dict_lookup_None_notin in Hk. apply Hk.
  unfold dict_keys. now apply in_map.
Qed.

(** X23: on an item with none of the keys [type], [file-path], [params],
    [url] and [pipeline], the mapper of every block but teams and
    datasets returns what the generic mapper returns, and writes no
    file. *)
Theorem mappers_agree_on_plain_items (block_name : string) (item : dict)
    (fs : tempfs) :
  block_name <> "teams" -> block_name <> "datasets" ->
  (forall k, In k special_keys -> dict_lookup k item = None) ->
  get_parser block_to_function block_name item fs
  = (Ok (Args (parse_generic_block item)), fs).
Proof.
  intros Hteams Hdatasets Hplain.
  assert (Htype := Hplain "type" ltac:(cbn; tauto_closed)).
  assert (Hpath := Hplain "file-path" ltac:(cbn; tauto_closed)).
  assert (Hparams := Hplain "params" ltac:(cbn; tauto_closed)).
  assert (Hurl := Hplain "url" ltac:(cbn; tauto_closed)).
  assert (Hpipeline := Hplain "pipeline" ltac:(cbn; tauto_closed)).
  assert (Hno : ~ In "params" (dict_keys item))
    by now apply dict_lookup_None_notin.
  rewrite get_parser_run, parse_generic_block_chunks. unfold mapper_result.
  destruct (String.eqb block_name "credentials").
  { rewrite parse_credentials_block_chunks. do 3 f_equal.
    apply flat_map_agree. intros kv Hkv. unfold credentials_chunk.
    now rewrite (absent_key _ _ _ Htype Hkv). }
  destruct (String.eqb block_name "compute-envs").
  { rewrite parse_compute_envs_block_chunks. do 3 f_equal.
    apply flat_map_agree. intros kv Hkv. unfold compute_envs_chunk.
    now rewrite (absent_key _ _ _ Hpath Hkv). }
  destruct (String.eqb_spec block_name "teams") as [E|_];
    [now destruct Hteams|].
  destruct (String.eqb block_name "actions").
  { unfold parse_actions_block.
    rewrite (actions_loop_no_params item "" Hno). cbn [wrap_args app].
    do 3 f_equal. apply flat_map_agree. intros kv Hkv.
    unfold actions_chunk.
    now rewrite (absent_key _ _ _ Htype Hkv),
      (absent_key _ _ _ Hparams Hkv). }
  destruct (String.eqb_spec block_name "datasets") as [E|_];
    [now destruct Hdatasets|].
  destruct (String.eqb block_name "pipelines").
  { unfold parse_pipelines_block, bind, ret.
    rewrite (pipelines_loop_no_params item "" Hno).
    cbn [wrap_args pipelines_acc_after pa_repo_args pa_params_args
         pa_cmd_args app].
    rewrite (flat_map_none pipelines_repo_chunk),
      (flat_map_none (params_chunk "")); cbn [app].
    - do 3 f_equal. apply flat_map_agree. intros kv Hkv.
      unfold pipelines_cmd_chunk.
      now rewrite (absent_key _ _ _ Hurl Hkv),
        (absent_key _ _ _ Hparams Hkv), (absent_key _ _ _ Hpath Hkv).
    - intros kv Hkv. unfold params_chunk.
      now rewrite (absent_key _ _ _ Hurl Hkv),
        (absent_key _ _ _ Hparams Hkv).
    - intros kv Hkv. unfold pipelines_repo_chunk.
      now rewrite (absent_key _ _ _ Hurl Hkv),
        (absent_key _ _ _ Hparams Hkv), (absent_key _ _ _ Hpath Hkv). }
  destruct (String.eqb block_name "launch");
    [|now rewrite parse_generic_block_chunks].
  unfold parse_launch_block, bind, ret.
  rewrite (launch_loop_no_params item "" Hno). cbn [wrap_args fst snd app].
  rewrite (flat_map_none launch_repo_chunk); cbn [app].
  - do 3 f_equal. apply flat_map_agree. intros kv Hkv.
    unfold launch_cmd_chunk.
    now rewrite (absent_key _ _ _ Hpipeline Hkv),
      (absent_key _ _ _ Hurl Hkv), (absent_key _ _ _ Hparams Hkv).
  - intros kv Hkv. unfold launch_repo_chunk.
    now rewrite (absent_key _ _ _ Hpipeline Hkv),
      (absent_key _ _ _ Hurl Hkv).
Qed.

Lemma dict_lookup_filter (q : string -> bool) (k : string) (d : dict) :
  q k = true ->
  dict_lookup k (List.filter (fun kv => q (fst kv)) d) = dict_lookup k d.
Proof.
  intros Hk. induction d as [|[k' v'] d IH];
    cbn [List.filter dict_lookup fst]; [reflexivity|].
  destruct (q k') eqn:Hk'; cbn [dict_lookup].
  - now rewrite IH.
  - destruct (String.eqb_spec k k') as [->|_]; [congruence | exact IH].
Qed.

(** X24: the datasets mapper reads the five fields [file-path], [name],
    [workspace], [description] and [header] and nothing else: an item and
    the same item without its other fields are mapped alike, be it to
    arguments or to an error. *)
Theorem parse_datasets_block_ignores_other_fields (item : dict) :
  parse_datasets_block item =
  parse_datasets_block
    (List.filter (fun kv => in_list (fst kv) datasets_fields) item).
Proof.
  unfold parse_datasets_block.
  set (item' := List.filter (fun kv => in_list (fst kv) datasets_fields) item).
  assert (Hstep : forall acc kv,
            datasets_step item' acc kv = datasets_step item acc kv).
  { intros acc [k v]. unfold datasets_step, dict_item, item'.
    now rewrite !(dict_lookup_filter (fun k => in_list k datasets_fields)). }
  assert (Hskip : forall acc k v,
            in_list k datasets_fields = false ->
            datasets_step item acc (k, v) = Ok acc).
  { intros acc k v Hk. unfold datasets_step.
    cbn [datasets_fields in_list existsb] in Hk.
    apply orb_false_iff in Hk as [Hfp Hk].
    do 3 apply orb_false_iff in Hk as [_ Hk].
    apply orb_false_iff in Hk as [Hh _].
    now rewrite Hfp, Hh. }
  generalize (@nil string) as acc. subst item'.
  generalize item at 1 3 as l.
  induction l as [|[k v] l IH]; intros acc;
    cbn [List.filter for_r fst]; [reflexivity|].
  destruct (in_list k datasets_fields) eqn:Hk; cbn [for_r].
  - rewrite Hstep. destruct (datasets_step item acc (k, v)) as [acc'|e];
      cbn [rbind]; [apply IH | reflexivity].
  - rewrite (Hskip acc k v Hk). cbn [rbind]. apply IH.
Qed.

Lemma dict_remove_twice (k : string) (d : dict) :
  dict_remove k (dict_remove k d) = dict_remove k d.
Proof.
  unfold dict_remove. induction d as [|kv d IH]; cbn [List.filter];
    [reflexivity|].
  destruct (negb (String.eqb k (fst kv))) eqn:E; [|exact IH].
  cbn [List.filter]. now rewrite E, IH.
Qed.

(** X25: where the [overwrite] field stands in an item, and what it
    holds, has no bearing on the arguments: two items that are the same
    once the field is left out are mapped to the same arguments, write the
    same files, and fail alike. *)
Theorem overwrite_field_is_no_argument (block_name : string)
    (d1 d2 : dict) (fs : tempfs) :
  dict_remove "overwrite" d1 = dict_remove "overwrite" d2 ->
  match parse_block block_name (VDict d1) fs,
        parse_block block_name (VDict d2) fs with
  | (Ok spec1, fs1), (Ok spec2, fs2) =>
      cmd_args spec1 = cmd_args spec2 /\ fs1 = fs2
  | (Raise e1, fs1), (Raise e2, fs2) => e1 = e2 /\ fs1 = fs2
  | _, _ => False
  end.
Proof.
  intros Hsame. rewrite !parse_block_dict, Hsame.
  destruct (mapper_result block_name (dict_remove "overwrite" d2) fs)
    as [[m|e] fs']; now split.
Qed.

(** ** Reading one key back *)

Lemma get_values_loop_key_by_key (keys keys' : list string) (k : string)
    (cmd_args : list string) :
  in_list k keys = true -> in_list k keys' = true ->
  forall (vals vals' : gmap string value) (key : option string),
    vals !! k = vals' !! k ->
    fst (fold_left (get_values_step keys) cmd_args (vals, key)) !! k
    = fst (fold_left (get_values_step keys') cmd_args (vals', key)) !! k.
Proof.
  intros Hk Hk'. induction cmd_args as [|a rest IH];
    intros vals vals' key Hv; cbn [fold_left]; [exact Hv|].
  unfold get_values_step at 2 4.
  destruct (startswith "--" a); [now apply IH|].
  apply IH. destruct key as [k0|]; [|exact Hv].
  destruct (String.eqb_spec k0 k) as [->|Hne].
  - rewrite Hk, Hk'. destruct (negb (String.eqb k "")); cbn [andb];
      [|exact Hv].
    now rewrite !lookup_insert_eq.
  - destruct (negb (String.eqb k0 "") && in_list k0 keys),
      (negb (String.eqb k0 "") && in_list k0 keys');
      rewrite ?lookup_insert_ne by exact Hne; exact Hv.
Qed.

(** X26: the value read back for a requested key does not depend on
    which other keys are requested with it. *)
Theorem get_values_key_by_key (cmd_args keys keys' : list string)
    (k : string) :
  k ∈ keys -> k ∈ keys' ->
  get_values_from_cmd_args cmd_args keys !! k
  = get_values_from_cmd_args cmd_args keys' !! k.
Proof.
  intros Hk Hk'. unfold get_values_from_cmd_args.
  apply get_values_loop_key_by_key; try now apply in_list_elem.
  fold (init_values keys ∅) (init_values keys' ∅).
  rewrite !init_values_lookup. now rewrite !decide_True.
Qed.

(** ** Sections of the document *)

Lemma parse_block_generic (block_name : string) (d : dict) (fs : tempfs) :
  ~ In block_name mapped_blocks ->
  parse_block block_name (VDict d) fs = (Ok (generic_spec d), fs).
Proof.
  intros Hb. rewrite parse_block_dict. unfold mapper_result.
  repeat match goal with
         | |- context [String.eqb block_name ?s] =>
             destruct (String.eqb_spec block_name s) as [->|_];
             [exfalso; apply Hb; cbn [mapped_blocks In]; tauto_closed|]
         end.
  reflexivity.
Qed.

(** X27: a section of a block without a mapper of its own, given as a
    list of mappings, is parsed into one specification per item, in the
    order of the document, each with the generic arguments of the item
    and its [overwrite] value; no file is written. *)
Theorem parse_yaml_block_generic_section (file_path block_name : string)
    (doc : dict) (items : list dict) (fs : tempfs) :
  ~ In block_name mapped_blocks ->
  yaml_load file_path = Ok (VDict doc) ->
  dict_lookup block_name doc = Some (VList (map VDict items)) ->
  parse_yaml_block file_path block_name fs
  = (Ok (block_name, map generic_spec items), fs).
Proof.
  intros Hb Hload Hsec.
  unfold parse_yaml_block, parse_yaml_block_in. unfold bind at 1, lift at 1.
  rewrite Hload. unfold bind at 1, lift at 1.
  cbn [document_get]. unfold dict_get. rewrite Hsec.
  unfold bind at 1, ret at 1. unfold bind at 1, lift at 1.
  cbn [py_iter].
  enough (forall acc,
    for_m (map VDict items)
      (fun cmd_args_list item =>
         let* spec := parse_block block_name item in
         ret (cmd_args_list ++ [spec]))
      acc fs
    = (Ok (acc ++ map generic_spec items), fs)) as E
    by (unfold bind at 1; now rewrite E).
  clear Hsec. induction items as [|d items IH]; intros acc; cbn [map for_m].
  - unfold ret. now rewrite app_nil_r.
  - unfold bind at 1. unfold bind at 1.
    rewrite (parse_block_generic block_name d fs Hb).
    unfold ret at 1. rewrite IH. now rewrite <- app_assoc.
Qed.

(** X28: a section whose first item is a text, as when the section is
    written as a mapping or as a text instead of a list, raises
    [AttributeError] on that item, whatever the block; no file is
    written. *)
Theorem parse_yaml_block_item_not_a_mapping (file_path block_name : string)
    (doc : dict) (section : value) (s : string) (rest : list value)
    (fs : tempfs) :
  yaml_load file_path = Ok (VDict doc) ->
  dict_lookup block_name doc = Some section ->
  py_iter section = Ok (VStr s :: rest) ->
  parse_yaml_block file_path block_name fs = (Raise AttributeError, fs).
Proof.
  intros Hload Hsec Hit.
  unfold parse_yaml_block, parse_yaml_block_in. unfold bind at 1, lift at 1.
  rewrite Hload. unfold bind at 1, lift at 1.
  cbn [document_get]. unfold dict_get. rewrite Hsec.
  destruct section as [| | |s'|l|d]; try discriminate;
    unfold bind at 1, ret at 1; unfold bind at 1, lift at 1;
    rewrite Hit; reflexivity.
Qed.

Lemma parse_yaml_block_absent (file_path block_name : string) (doc : dict)
    (fs : tempfs) :
  yaml_load file_path = Ok (VDict doc) ->
  dict_get doc block_name = VNone ->
  parse_yaml_block file_path block_name fs
  = (Raise (NameError "logging"), fs).
Proof.
  intros Hload Hnone.
  unfold parse_yaml_block, parse_yaml_block_in, bind, lift.
  rewrite Hload. cbn [document_get]. rewrite Hnone. reflexivity.
Qed.

(** X29: [parse_all_yaml] returns nothing when one of the requested
    blocks is absent from the document, or null in it: an exception is
    raised, at that block or before. *)
Theorem parse_all_yaml_absent_block (file_path : string)
    (block_names : list string) (b : string) (doc : dict) (fs : tempfs) :
  yaml_load file_path = Ok (VDict doc) ->
  In b block_names ->
  dict_get doc b = VNone ->
  exists e fs', parse_all_yaml file_path block_names fs = (Raise e, fs').
Proof.
  intros Hload Hin Hnone. unfold parse_all_yaml.
  generalize (@nil (string * list CommandSpec)) as acc. revert fs.
  induction block_names as [|a rest IH]; intros fs acc; [destruct Hin|].
  cbn [for_m]. unfold bind at 1. unfold bind at 1.
  destruct (String.eqb_spec a b) as [->|Hne].
  - rewrite (parse_yaml_block_absent file_path b doc fs Hload Hnone).
    now eexists _, _.
  - destruct (parse_yaml_block file_path a fs) as [[parsed|e] fs1].
    + unfold ret at 1. apply IH. destruct Hin as [E|Hin]; [congruence|].
      exact Hin.
    + now eexists _, _.
Qed.

Lemma assoc_set_keys {A} (k : string) (v : A) (d : list (string * A)) :
  map fst (assoc_set k v d)
  = if in_list k (map fst d) then map fst d else map fst d ++ [k].
Proof.
  induction d as [|[k' v'] d IH]; cbn [assoc_set map fst in_list existsb app];
    [reflexivity|].
  destruct (String.eqb k k'); cbn [map fst orb]; [reflexivity|].
  rewrite IH. unfold in_list. now destruct (existsb (String.eqb k) (map fst d)).
Qed.

Lemma assoc_set_in {A} (k : string) (v : A) (d : list (string * A)) :
  In (k, v) (assoc_set k v d).
Proof.
  induction d as [|[k' v'] d IH]; cbn [assoc_set]; [now left|].
  destruct (String.eqb_spec k k') as [->|_]; [now left | now right].
Qed.

Lemma assoc_set_other {A} (k k0 : string) (v v0 : A)
    (d : list (string * A)) :
  k0 <> k -> In (k0, v0) d -> In (k0, v0) (assoc_set k v d).
Proof.
  intros Hne. induction d as [|[k' v'] d IH]; cbn [assoc_set];
    [intros []|].
  destruct (String.eqb_spec k k') as [->|_].
  - intros [[= <- <-]|Hin]; [now destruct Hne | now right].
  - intros [E|Hin]; [now left | right; now apply IH].
Qed.

Lemma assoc_set_NoDup {A} (k : string) (v : A) (d : list (string * A)) :
  List.NoDup (map fst d) -> List.NoDup (map fst (assoc_set k v d)).
Proof.
  intros Hd. rewrite assoc_set_keys.
  destruct (in_list k (map fst d)) eqn:Hk; [exact Hd|].
  apply NoDup_ListNoDup, NoDup_app. repeat split.
  - now apply NoDup_ListNoDup.
  - intros x Hx Hx'. apply list_elem_of_singleton in Hx' as ->.
    apply in_list_elem in Hx. congruence.
  - apply NoDup_singleton.
Qed.

Lemma parse_all_yaml_loop (file_path : string)
    (specs : string -> list CommandSpec) (fs : tempfs)
    (block_names : list string) :
  (forall b, In b block_names ->
             parse_yaml_block file_path b fs = (Ok (b, specs b), fs)) ->
  forall acc,
    for_m block_names
      (fun cmd_args_dict block_name =>
         let* parsed := parse_yaml_block file_path block_name in
         ret (assoc_set (fst parsed) (snd parsed) cmd_args_dict))
      acc fs
    = (Ok (fold_left (fun d b => assoc_set b (specs b) d) block_names acc),
       fs).
Proof.
  induction block_names as [|a rest IH]; intros Hall acc;
    cbn [for_m fold_left]; [reflexivity|].
  unfold bind at 1. unfold bind at 1.
  rewrite (Hall a) by now left. unfold ret at 1. cbn [fst snd].
  apply IH. intros b Hb. apply Hall. now right.
Qed.

Lemma assoc_fold (specs : string -> list CommandSpec)
    (block_names : list string) :
  forall acc,
    List.NoDup (map fst acc) ->
    (forall b, In b (map fst acc) -> In (b, specs b) acc) ->
    let out := fold_left (fun d b => assoc_set b (specs b) d)
                         block_names acc in
    List.NoDup (map fst out)
    /\ (forall b, In b (map fst out)
                  <-> In b (map fst acc) \/ In b block_names)
    /\ (forall b, In b (map fst out) -> In (b, specs b) out).
Proof.
  induction block_names as [|a rest IH]; intros acc Hnd Hacc;
    cbn [fold_left].
  - split; [exact Hnd|]. split; [|exact Hacc].
    intros b. split; [now left | now intros [H|[]]].
  - destruct (IH (assoc_set a (specs a) acc)) as (Hn & Hk & Hv).
    + now apply assoc_set_NoDup.
    + intros b Hb. destruct (String.eqb_spec b a) as [->|Hne].
      * apply assoc_set_in.
      * apply assoc_set_other; [exact Hne|]. apply Hacc.
        rewrite assoc_set_keys in Hb.
        destruct (in_list a (map fst acc)); [exact Hb|].
        apply in_app_or in Hb as [Hb|[E|[]]]; [exact Hb | congruence].
    + split; [exact Hn|]. split; [|exact Hv]. intros b. split.
      * intros Hb. apply Hk in Hb as [Hb|Hb]; [|right; now right].
        rewrite assoc_set_keys in Hb.
        destruct (in_list a (map fst acc)); [now left|].
        apply in_app_or in Hb as [Hb|[E|[]]]; [now left|].
        right. now left.
      * intros Hb. apply Hk. rewrite assoc_set_keys.
        destruct Hb as [Hb|[<-|Hb]].
        -- left. destruct (in_list a (map fst acc)); [exact Hb|].
           apply in_or_app. now left.
        -- left. destruct (in_list a (map fst acc)) eqn:Ha.
           ++ apply list_elem_of_In, in_list_elem. exact Ha.
           ++ apply in_or_app. right. now left.
        -- now right.
Qed.

(** X30: when every requested block parses, [parse_all_yaml] returns one
    entry for each block requested, however often it is requested, under
    the name of the block and holding its specifications, and no other
    entry. *)
Theorem parse_all_yaml_one_entry_per_block (file_path : string)
    (block_names : list string) (specs : string -> list CommandSpec)
    (fs : tempfs) :
  (forall b, In b block_names ->
             parse_yaml_block file_path b fs = (Ok (b, specs b), fs)) ->
  exists out,
    parse_all_yaml file_path block_names fs = (Ok out, fs)
    /\ List.NoDup (map fst out)
    /\ (forall b, In b (map fst out) <-> In b block_names)
    /\ (forall b, In b block_names -> In (b, specs b) out).
Proof.
  intros Hall. unfold parse_all_yaml.
  rewrite (parse_all_yaml_loop file_path specs fs block_names Hall).
  eexists. split; [reflexivity|].
  destruct (assoc_fold specs block_names []) as (Hn & Hk & Hv).
  - constructor.
  - intros b [].
  - split; [exact Hn|]. split.
    + intros b. rewrite Hk. cbn [map In]. split; [now intros [[]|H] | auto].
    + intros b Hb. apply Hv, Hk. now right.
Qed.

End Helper.

(** * The model on explicit inputs *)

Lemma distinct_NoDup (l : list string) : distinct l = true -> List.NoDup l.
Proof.
  induction l as [|k l IH]; simpl; [constructor|].
  intros H. apply andb_true_iff in H as [Hk Hl].
  constructor; [|now apply IH].
  intros Hin. apply negb_true_iff in Hk.
  assert (in_list k l = true) as E; [|congruence].
  unfold in_list. apply existsb_exists. exists k.
  split; [assumption | apply String.eqb_refl].
Qed.

Lemma wf_dict_check (d : dict) : distinct (dict_keys d) = true -> wf_dict d.
Proof. apply distinct_NoDup. Qed.

Lemma str_length_append (a b : string) :
  String.length (a +:+ b) = String.length a + String.length b.
Proof. induction a as [|c a IH]; simpl; [reflexivity | now rewrite IH]. Qed.

Lemma filler_length (n : nat) : String.length (filler n) = n.
Proof. induction n as [|n IH]; simpl; [reflexivity | now rewrite IH]. Qed.

Lemma longer_name_fresh (used : list string) : ~ In (longer_name used) used.
Proof.
  intros Hin.
  assert (Hle : String.length (longer_name used)
                <= list_max (map String.length used)).
  { pose proof (proj1 (list_max_le (map String.length used) _) (le_n _)) as H.
    rewrite List.Forall_forall in H. apply H. now apply in_map. }
  unfold longer_name in Hle.
  rewrite !str_length_append, filler_length in Hle. simpl in Hle. lia.
Qed.

Lemma longer_name_not_flag (used : list string) :
  startswith "--" (longer_name used) = false.
Proof. reflexivity. Qed.


(** ** Participants and pipelines *)

(** A participant with a role: [add] without the role, [update] with it. *)
Lemma handle_participants_example :
  handle_participants silent_exec
    ["--name"; "bob"; "--type"; "MEMBER"; "--role"; "admin"] []
  = (Ok tt,
     [ ["tw"; "participants"; "add"; "--name"; "bob"; "--type"; "MEMBER"];
       ["tw"; "participants"; "update"; "--name"; "bob"; "--type"; "MEMBER";
        "--role"; "admin"] ]).
Proof. reflexivity. Qed.

Lemma handle_pipelines_imports_twice_witness :
  handle_pipelines silent_exec http_is_url
    ["pipeline.json"; "--name"; "my.json"] []
  = (Ok tt,
     [ ["tw"; "pipelines"; "import"; "pipeline.json"; "--name"; "my.json"];
       ["tw"; "pipelines"; "import"; "pipeline.json"; "--name"; "my.json"] ]).
Proof.
  exact (handle_pipelines_imports_twice silent_exec http_is_url []
           eq_refl eq_refl eq_refl).
Defined.

(** A [.json] argument ahead of a URL: an [import] and then the [add]. *)
Lemma handle_pipelines_import_then_add :
  handle_pipelines silent_exec http_is_url
    ["--config"; "extra.json"; "https://github.com/nf-core/rnaseq"] []
  = (Ok tt,
     [ ["tw"; "pipelines"; "import"; "--config"; "extra.json";
        "https://github.com/nf-core/rnaseq"];
       ["tw"; "pipelines"; "add"; "--config"; "extra.json";
        "https://github.com/nf-core/rnaseq"] ]).
Proof. reflexivity. Qed.

(** ** The absent section *)

Lemma parse_yaml_block_absent_section_witness :
  parse_yaml_block bracket_repr longer_name organizations_only
    "config.yaml" "info" []
  = (Raise (NameError "logging"), []).
Proof.
  exact (parse_yaml_block_absent_section_raises bracket_repr longer_name
           organizations_only "config.yaml" "info" _ [] eq_refl eq_refl).
Defined.

(** ** Datasets *)

(** The scenario of the specification: header after the file path. *)
Lemma parse_datasets_block_cases_witness :
  parse_datasets_block bracket_repr datasets_scenario
  = Ok [ "env.csv"; "--name"; "envs"; "--workspace"; "ws1";
         "--description"; "desc"; "--header" ].
Proof.
  exact (parse_datasets_block_cases bracket_repr datasets_scenario
           (wf_dict_check datasets_scenario eq_refl)).
Defined.

(** [header] ahead of [file-path]: the bare flag comes first. *)
Lemma parse_datasets_block_header_first :
  parse_datasets_block bracket_repr
    [ ("header", VBool true); ("file-path", VStr "env.csv");
      ("name", VStr "envs"); ("workspace", VStr "ws1");
      ("description", VStr "desc") ]
  = Ok [ "--header"; "env.csv"; "--name"; "envs"; "--workspace"; "ws1";
         "--description"; "desc" ].
Proof. reflexivity. Qed.

(** C5 fails on an item without [file-path]: nothing is raised. *)
Lemma datasets_without_file_path_not_rejected :
  parse_datasets_block bracket_repr datasets_without_path = Ok []
  /\ ~ datasets_mapping_as_specified bracket_repr datasets_without_path.
Proof.
  split; [reflexivity|]. intros [Hmissing _].
  destruct Hmissing as [k Hk].
  - exists "file-path". split; [now left | reflexivity].
  - discriminate Hk.
Qed.

(** ** Argument order *)

Lemma pipelines_and_launch_argument_order_witness :
  (exists out,
      fst (parse_pipelines_block bracket_repr longer_name
             pipeline_with_params []) = Ok out
      /\ repo_params_flags bracket_repr pipelines_positional
           pipeline_with_params out)
  /\ (exists out,
         fst (parse_launch_block bracket_repr longer_name
                pipeline_with_params []) = Ok out
         /\ repo_then_fields bracket_repr launch_positional
              pipeline_with_params out).
Proof.
  exact (pipelines_and_launch_argument_order bracket_repr longer_name
           pipeline_with_params []
           (wf_dict_check pipeline_with_params eq_refl)).
Defined.

(** C6 fails on a launch item whose [params] follows another field: the
    [--params-file] pair comes after that field's flag. *)
Lemma launch_params_after_flags :
  fst (parse_launch_block bracket_repr longer_name launch_with_params [])
  = Ok ["rnaseq"; "--name"; "x"; "--params-file"; "/tmp/x.yaml"]
  /\ ~ repo_params_flags bracket_repr launch_positional launch_with_params
         ["rnaseq"; "--name"; "x"; "--params-file"; "/tmp/x.yaml"].
Proof.
  split; [reflexivity|].
  intros (params_args & Hout & Hparams). simpl in Hparams.
  destruct Hparams as [path ->]. simpl in Hout. discriminate Hout.
Qed.

(** C6 fails on the fields it takes as positional, too: [pipeline] is
    positional for a launch item only, and [file-path] for a pipelines item
    only.  A pipelines item with a [pipeline] field and a launch item with
    a [file-path] field have them mapped to flags; and a launch item whose
    [params] follows another field has the [--params-file] pair after that
    field's flag. *)
Lemma argument_order_as_claimed_fails :
  (fst (parse_pipelines_block bracket_repr longer_name pipeline_by_name [])
   = Ok ["--pipeline"; "rnaseq"; "--name"; "x"]
   /\ ~ repo_params_flags bracket_repr claimed_positional pipeline_by_name
          ["--pipeline"; "rnaseq"; "--name"; "x"])
  /\ (fst (parse_launch_block bracket_repr longer_name
             launch_with_file_path [])
      = Ok ["rnaseq"; "--file-path"; "main.nf"]
      /\ ~ repo_params_flags bracket_repr claimed_positional
             launch_with_file_path ["rnaseq"; "--file-path"; "main.nf"])
  /\ (fst (parse_launch_block bracket_repr longer_name launch_with_params [])
      = Ok ["rnaseq"; "--name"; "x"; "--params-file"; "/tmp/x.yaml"]
      /\ ~ repo_params_flags bracket_repr claimed_positional
             launch_with_params
             ["rnaseq"; "--name"; "x"; "--params-file"; "/tmp/x.yaml"]).
Proof.
  repeat split; try reflexivity.
  - intros (params_args & Hout & Hparams). simpl in Hparams.
    subst params_args. simpl in Hout. discriminate Hout.
  - intros (params_args & Hout & Hparams). simpl in Hparams.
    subst params_args. simpl in Hout. discriminate Hout.
  - intros (params_args & Hout & Hparams). simpl in Hparams.
    destruct Hparams as [path ->]. simpl in Hout. discriminate Hout.
Qed.

(** ** Mapping twice *)

(** An item without [params] maps twice to the same arguments; the two
    mappings of an item with [params] differ. *)
Lemma mapping_twice_witness :
  (let run1 := parse_block bracket_repr longer_name "organizations"
                 (VDict organization_plain) [] in
   let run2 := parse_block bracket_repr longer_name "organizations"
                 (VDict organization_plain) (snd run1) in
   snd run1 = [] /\ fst run2 = fst run1)
  /\ (let run1 := parse_block bracket_repr longer_name "pipelines"
                    (VDict pipeline_with_params) [] in
      let run2 := parse_block bracket_repr longer_name "pipelines"
                    (VDict pipeline_with_params) (snd run1) in
      fst run2 <> fst run1).
Proof.
  split.
  - exact (proj1 (mapping_twice bracket_repr longer_name "organizations"
                    organization_plain []
                    (wf_dict_check organization_plain eq_refl)) eq_refl).
  - exact (proj2 (mapping_twice bracket_repr longer_name "pipelines"
                    pipeline_with_params []
                    (wf_dict_check pipeline_with_params eq_refl))
             eq_refl longer_name_fresh).
Defined.

(** C7 fails on a pipelines item with [params]: the second mapping names
    another temporary file. *)
Lemma mapping_twice_differs_on_params :
  fst (parse_block bracket_repr longer_name "pipelines"
         (VDict pipeline_with_params) [])
  = Ok {| cmd_args :=
            Args [ "https://github.com/nf-core/rnaseq";
                   "--params-file"; "/tmp/x.yaml"; "--name"; "x" ];
          overwrite := VBool false |}
  /\ ~ mapping_twice_identical bracket_repr longer_name "pipelines"
         (VDict pipeline_with_params) [].
Proof.
  split; [reflexivity|].
  unfold mapping_twice_identical. vm_compute. discriminate.
Qed.

(** ** Round trip *)

Lemma round_trip_recovers_policy_keys_witness :
  get_values_from_cmd_args workspace_item_args ["name"; "organization"]
    !! "organization"
  = Some (VStr "acme").
Proof.
  apply (round_trip_recovers_policy_keys bracket_repr longer_name
           silent_exec listing_loads no_key_value
           "workspaces" workspace_item [] []
           ["name"; "organization"] workspace_item_args
           {| cmd_args := Args workspace_item_args;
              overwrite := VBool true |}
           "organization" (VStr "acme")).
  - apply wf_dict_check. reflexivity.
  - intros k' v' [H|[H|[H|[]]]] Hne; injection H as <- <-;
      first [reflexivity | now elim Hne].
  - exact longer_name_not_flag.
  - discriminate.
  - reflexivity.
  - reflexivity.
  - reflexivity.
  - apply list_elem_of_further, list_elem_of_here.
  - reflexivity.
Defined.

(** C8 fails on a datasets item without [file-path], whose name and
    workspace are not mapped at all, and on a value with a leading [--],
    which reads back as a flag. *)
Lemma round_trip_loses_policy_keys :
  ~ round_trip_recovers bracket_repr longer_name silent_exec listing_loads
      no_key_value "datasets" datasets_without_path []
  /\ ~ round_trip_recovers bracket_repr longer_name silent_exec
         listing_loads no_key_value "organizations" organization_dashed [].
Proof.
  split; intros H.
  - specialize (H ["name"; "workspace"]
                  {| cmd_args := Args []; overwrite := VBool false |}
                  [] [] eq_refl eq_refl eq_refl
                  "name" (VStr "envs") (list_elem_of_here _ _) eq_refl).
    vm_compute in H. discriminate H.
  - specialize (H ["name"]
                  {| cmd_args := Args ["--name"; "--acme"];
                     overwrite := VBool false |}
                  [] ["--name"; "--acme"] eq_refl eq_refl eq_refl
                  "name" (VStr "--acme") (list_elem_of_here _ _) eq_refl).
    vm_compute in H. discriminate H.
Qed.

(** ** Overwrite *)



(** ** Reverse mapping *)

Lemma get_values_total_key_exact_witness :
  get_values_from_cmd_args workspace_item_args ["name"; "organization"]
    !! "organization"
  = Some (VStr "acme").
Proof.
  apply (get_values_total_key_exact workspace_item_args
           ["name"; "organization"]).
  - apply list_elem_of_further, list_elem_of_here.
  - discriminate.
  - exists ["--name"; "dev"], []. repeat split.
    intros i v (Hi & _). discriminate Hi.
Defined.

(** C10 fails on the empty key: [--] followed by a value is an occurrence
    of its flag, yet the empty key maps to [None]. *)
Lemma reverse_map_skips_empty_key :
  get_values_from_cmd_args ["--"; "v"] [""] !! "" = Some VNone
  /\ ~ reverse_map_key_exact ["--"; "v"] [""].
Proof.
  split; [reflexivity|]. intros [_ H].
  destruct (H "" (list_elem_of_here _ _)) as [_ Hlast].
  assert (Hocc : last_occurrence "" ["--"; "v"] "v").
  { exists [], []. repeat split. intros i v (Hi & _). discriminate Hi. }
  specialize (Hlast "v" Hocc). vm_compute in Hlast. discriminate Hlast.
Qed.

(** ** Workspaces of the same name *)

(** Two workspaces named [dev]: only the one of [acme] is deleted. *)
Lemma workspaces_overwrite_example :
  handle_overwrite bracket_repr silent_exec listing_loads no_key_value
    always_exists "workspaces" (Args workspace_item_args) []
  = (Ok tt,
     [ ["tw"; "-o"; "json"; "workspaces"; "list"];
       ["tw"; "workspaces"; "delete"; "--id"; "22"] ]).
Proof. vm_compute. reflexivity. Qed.

Lemma workspaces_overwrite_deletes_only_match_witness :
  handle_overwrite bracket_repr silent_exec listing_loads no_key_value
    always_exists "workspaces" (Args workspace_item_args) []
  = (Ok tt, [list_workspaces_cmd; delete_workspace_cmd "22"])
  /\ ~ In (delete_workspace_cmd "11") [delete_workspace_cmd "22"].
Proof.
  assert (Hpre : Forall (fun w' => workspace_matches (VStr "acme")
                                      (VStr "dev") w' = false)
                        [other_dev])
    by (constructor; [reflexivity | constructor]).
  destruct (workspaces_overwrite_deletes_only_match bracket_repr silent_exec
              listing_loads no_key_value always_exists
              workspace_item_args [] [("workspaces", VList listed_workspaces)]
              [other_dev] acme_dev [] "acme" "dev"
              eq_refl eq_refl eq_refl eq_refl Hpre eq_refl)
    as (_ & Hrun & Hother).
  split; [exact Hrun|].
  apply (Hother other_dev [delete_workspace_cmd "22"]).
  - reflexivity.
  - discriminate.
Defined.

(** ** Occurrences of a flag, decided *)

Lemma never_occurs_check (k : string) (args : list string) :
  in_list (flag k) args = false -> never_occurs k args.
Proof.
  intros H. apply notin_never_occurs. intros Hin.
  apply list_elem_of_In, in_list_elem in Hin. congruence.
Qed.

Lemma last_occurrence_check (k v : string) (pre post : list string) :
  startswith "--" v = false -> in_list (flag k) post = false ->
  last_occurrence k (pre ++ flag k :: v :: post) v.
Proof.
  intros Hv Hpost. exists pre, post. split; [reflexivity|].
  split; [exact Hv | now apply never_occurs_check].
Qed.

(** ** Teams *)

Lemma teams_add_then_one_command_per_member_witness :
  exists args,
    parse_teams_block bracket_repr team_item = Ok args
    /\ handle_teams silent_exec args []
       = (Ok tt,
          [ ["tw"; "teams"; "add"; "--name"; "devs"; "--organization"; "acme"];
            ["tw"; "teams"; "members"; "--team"; "devs"; "--organization";
             "acme"; "add"; "--member"; "ann@acme.org"];
            ["tw"; "teams"; "members"; "--team"; "devs"; "--organization";
             "acme"; "add"; "--member"; "bob@acme.org"] ]).
Proof.
  exact (teams_add_then_one_command_per_member bracket_repr silent_exec
           team_item (VStr "devs") (VStr "acme")
           (VList [VStr "ann@acme.org"; VStr "bob@acme.org"])
           [VStr "ann@acme.org"; VStr "bob@acme.org"] []
           (wf_dict_check team_item eq_refl)
           eq_refl eq_refl eq_refl eq_refl).
Defined.

Lemma parse_teams_block_with_members_witness :
  parse_teams_block bracket_repr team_without_name = Raise (KeyError "name").
Proof.
  exact (parse_teams_block_with_members bracket_repr team_without_name
           (VList [VStr "ann@acme.org"])
           (wf_dict_check team_without_name eq_refl) eq_refl).
Defined.

Lemma parse_teams_block_without_members_witness :
  parse_teams_block bracket_repr team_described
  = Ok (["--description"; "core"], []).
Proof.
  exact (parse_teams_block_without_members bracket_repr team_described
           eq_refl).
Defined.

(** ** The command wrapper *)

Lemma TwCommand_call_non_string_witness :
  TwCommand_call silent_exec (tw_getattr "teams")
    [VStr "delete"; VStr "--id"; VInt 7] []
  = (Raise AttributeError, []).
Proof.
  apply (TwCommand_call_non_string silent_exec (tw_getattr "teams")
           [VStr "delete"; VStr "--id"; VInt 7] (VInt 7) []).
  - simpl. auto.
  - discriminate.
Defined.

Lemma method_name_is_one_token_witness :
  TwCommand_call silent_exec (tw_getattr "compute_envs")
    (map VStr ["list"]) []
  = (Ok "", [["tw"; "compute-envs"; "list"]]).
Proof.
  apply (method_name_is_one_token silent_exec "compute_envs"
           (tw_getattr "compute_envs") ["list"] []).
  - reflexivity.
  - discriminate.
  - reflexivity.
Defined.

Lemma method_tokens_have_no_underscore_witness :
  exists line,
    TwCommand_call silent_exec (tw_getattr "compute_envs list")
      (map VStr ["--workspace"; "acme/dev"]) []
    = (Ok (silent_exec [] ("tw" :: line ++ ["--workspace"; "acme/dev"])),
       [] ++ ["tw" :: line ++ ["--workspace"; "acme/dev"]])
    /\ Forall (fun tok => contains "_" tok = false
                          /\ no_space tok = true /\ tok <> "")
              line.
Proof.
  exact (method_tokens_have_no_underscore silent_exec "compute_envs list"
           (tw_getattr "compute_envs list") ["--workspace"; "acme/dev"] []
           eq_refl).
Defined.

Lemma params_file_none_reaches_the_command_line_witness :
  exists line,
    TwCommand_call_kwargs bracket_repr silent_exec (tw_getattr "launch")
      (map VStr ["rnaseq"]) [("params_file", VNone)] []
    = (Ok (silent_exec [] (line ++ ["--params-file=None"])),
       [] ++ [line ++ ["--params-file=None"]]).
Proof.
  exact (params_file_none_reaches_the_command_line bracket_repr silent_exec
           (tw_getattr "launch") ["rnaseq"] [("params_file", VNone)] []
           eq_refl eq_refl eq_refl).
Defined.

Lemma config_none_is_no_config_witness :
  TwCommand_call_kwargs bracket_repr silent_exec (tw_getattr "launch")
    [VStr "rnaseq"] [("config", VNone); ("to_json", VBool true)] []
  = TwCommand_call_kwargs bracket_repr silent_exec (tw_getattr "launch")
      [VStr "rnaseq"] [("to_json", VBool true)] [].
Proof.
  exact (config_none_is_no_config bracket_repr silent_exec
           (tw_getattr "launch") [VStr "rnaseq"]
           [("config", VNone); ("to_json", VBool true)] [] eq_refl).
Defined.

(** ** Overwriting, block by block *)

Lemma handle_overwrite_without_policy_witness :
  handle_overwrite bracket_repr silent_exec listing_loads no_key_value
    always_exists "launch" (Args ["rnaseq"; "--name"; "x"]) []
  = (Ok tt, []).
Proof.
  apply (handle_overwrite_without_policy bracket_repr silent_exec
           listing_loads no_key_value always_exists "launch"
           (Args ["rnaseq"; "--name"; "x"]) []).
  - simpl. intros [H|[H|[H|[H|[]]]]]; discriminate H.
  - simpl. intros [H|[H|[H|[H|[H|[H|[]]]]]]]; discriminate H.
Defined.

Lemma generic_overwrite_by_name_and_workspace_witness :
  handle_overwrite bracket_repr silent_exec listing_loads no_key_value
    always_exists "credentials" (Args credentials_args) []
  = (Ok tt,
     [ ["tw"; "-o"; "json"; "credentials"; "list"; "-w"; "acme/dev"];
       ["tw"; "credentials"; "delete"; "--name"; "aws"; "--workspace";
        "acme/dev"] ]).
Proof.
  exact (generic_overwrite_by_name_and_workspace bracket_repr silent_exec
           listing_loads no_key_value always_exists "credentials"
           credentials_args [] "aws" "acme/dev" (or_introl eq_refl)
           (last_occurrence_check "name" "aws" []
              ["--workspace"; "acme/dev"] eq_refl eq_refl)
           (last_occurrence_check "workspace" "acme/dev" ["--name"; "aws"] []
              eq_refl eq_refl)).
Defined.

Lemma overwrite_without_workspace_witness :
  handle_overwrite bracket_repr silent_exec listing_loads no_key_value
    always_exists "datasets" (Args ["--name"; "envs"]) []
  = (Raise AttributeError, []).
Proof.
  exact (overwrite_without_workspace bracket_repr silent_exec listing_loads
           no_key_value always_exists "datasets" ["--name"; "envs"] []
           (or_introl (or_intror (or_intror (or_intror (or_introl eq_refl)))))
           (never_occurs_check "workspace" ["--name"; "envs"] eq_refl)).
Defined.

Lemma generic_overwrite_without_name_witness :
  snd (handle_overwrite bracket_repr silent_exec listing_loads no_key_value
         always_exists "credentials" (Args ["--workspace"; "acme/dev"]) [])
  = [["tw"; "-o"; "json"; "credentials"; "list"; "-w"; "acme/dev"]]
  /\ fst (handle_overwrite bracket_repr silent_exec listing_loads
            no_key_value always_exists "credentials"
            (Args ["--workspace"; "acme/dev"]) [])
     = Raise AttributeError.
Proof.
  destruct (generic_overwrite_without_name bracket_repr silent_exec
              listing_loads no_key_value always_exists "credentials"
              ["--workspace"; "acme/dev"] [] "acme/dev" (or_introl eq_refl)
              (never_occurs_check "name" ["--workspace"; "acme/dev"] eq_refl)
              (last_occurrence_check "workspace" "acme/dev" [] []
                 eq_refl eq_refl))
    as [Hlog Hraise].
  split; [exact Hlog | exact (Hraise eq_refl)].
Defined.

Lemma participants_overwrite_by_type_witness :
  handle_overwrite bracket_repr silent_exec listing_loads no_key_value
    (fun json_data name_key name_value => Ok (String.eqb name_key "teamName"))
    "participants" (Args participant_args) []
  = (Ok tt,
     [ ["tw"; "-o"; "json"; "participants"; "list"; "-w"; "acme/dev"];
       ["tw"; "participants"; "delete"; "--name"; "devs"; "--type"; "TEAM";
        "--workspace"; "acme/dev"] ]).
Proof.
  exact (participants_overwrite_by_type bracket_repr silent_exec
           listing_loads no_key_value
           (fun json_data name_key name_value =>
              Ok (String.eqb name_key "teamName"))
           participant_args [] "devs" "TEAM" "acme/dev"
           (last_occurrence_check "name" "devs" []
              ["--type"; "TEAM"; "--workspace"; "acme/dev"] eq_refl eq_refl)
           (last_occurrence_check "type" "TEAM" ["--name"; "devs"]
              ["--workspace"; "acme/dev"] eq_refl eq_refl)
           (last_occurrence_check "workspace" "acme/dev"
              ["--name"; "devs"; "--type"; "TEAM"] [] eq_refl eq_refl)).
Defined.

Lemma organizations_overwrite_by_name_witness :
  handle_overwrite bracket_repr silent_exec listing_loads no_key_value
    always_exists "organizations" (Args ["--name"; "acme"]) []
  = (Ok tt,
     [ ["tw"; "-o"; "json"; "organizations"; "list"];
       ["tw"; "organizations"; "delete"; "--name"; "acme"] ]).
Proof.
  exact (organizations_overwrite_by_name bracket_repr silent_exec
           listing_loads no_key_value always_exists ["--name"; "acme"] []
           "acme"
           (last_occurrence_check "name" "acme" [] [] eq_refl eq_refl)).
Defined.

Lemma teams_overwrite_by_identifier_witness :
  handle_overwrite bracket_repr silent_exec listing_loads found_seven
    always_exists "teams" (TeamArgs team_args []) []
  = (Ok tt,
     [ ["tw"; "-o"; "json"; "teams"; "list"; "-o"; "acme"];
       ["tw"; "-o"; "json"; "teams"; "list"; "-o"; "acme"];
       ["tw"; "teams"; "delete"; "--id"; "7"; "--organization"; "acme"] ]).
Proof.
  exact (teams_overwrite_by_identifier bracket_repr silent_exec
           listing_loads found_seven always_exists team_args [] [] "devs"
           "acme"
           (last_occurrence_check "name" "devs" []
              ["--organization"; "acme"] eq_refl eq_refl)
           (last_occurrence_check "organization" "acme" ["--name"; "devs"] []
              eq_refl eq_refl)).
Defined.

(** ** The identifier of a workspace *)

Lemma find_workspace_id_first_match_witness :
  find_workspace_id listing_loads "" (VStr "acme") (VStr "dev")
  = Ok (VInt 22).
Proof.
  apply (find_workspace_id_first_match listing_loads ""
           [("workspaces", VList listed_workspaces)] [other_dev] acme_dev []
           (VStr "acme") (VStr "dev")).
  - reflexivity.
  - reflexivity.
  - constructor; [reflexivity | constructor].
  - reflexivity.
Defined.

Lemma find_workspace_id_none_witness :
  find_workspace_id listing_loads "" (VStr "nobody") (VStr "dev") = Ok VNone.
Proof.
  apply (find_workspace_id_none listing_loads ""
           [("workspaces", VList listed_workspaces)]
           (VStr "nobody") (VStr "dev")).
  - reflexivity.
  - right. exists [other_dev; acme_dev]. split; [reflexivity|].
    constructor; [reflexivity|]. constructor; [reflexivity | constructor].
Defined.

Lemma find_workspace_id_not_an_object_witness :
  find_workspace_id list_loads "" (VStr "acme") (VStr "dev") = Ok VNone
  \/ find_workspace_id list_loads "" (VStr "acme") (VStr "dev")
     = Raise TypeError.
Proof.
  apply (find_workspace_id_not_an_object list_loads ""
           (VList [VStr "workspaces"]) (VStr "acme") (VStr "dev")).
  - reflexivity.
  - discriminate.
Defined.

(** ** The mappers, field by field *)

Lemma mappers_agree_on_plain_items_witness :
  get_parser bracket_repr (block_to_function bracket_repr longer_name)
    "credentials" credentials_item []
  = (Ok (Args (parse_generic_block bracket_repr credentials_item)), []).
Proof.
  apply (mappers_agree_on_plain_items bracket_repr longer_name
           "credentials" credentials_item []).
  - discriminate.
  - discriminate.
  - simpl. intros k [<-|[<-|[<-|[<-|[<-|[]]]]]]; reflexivity.
Defined.

Lemma overwrite_field_is_no_argument_witness :
  match parse_block bracket_repr longer_name "organizations"
          (VDict organization_plain) [],
        parse_block bracket_repr longer_name "organizations"
          (VDict organization_overwrite_first) [] with
  | (Ok spec1, fs1), (Ok spec2, fs2) =>
      cmd_args spec1 = cmd_args spec2 /\ fs1 = fs2
  | (Raise e1, fs1), (Raise e2, fs2) => e1 = e2 /\ fs1 = fs2
  | _, _ => False
  end.
Proof.
  exact (overwrite_field_is_no_argument bracket_repr longer_name
           "organizations" organization_plain organization_overwrite_first
           [] eq_refl).
Defined.

Lemma get_values_key_by_key_witness :
  get_values_from_cmd_args workspace_item_args ["name"; "organization"]
    !! "organization"
  = get_values_from_cmd_args workspace_item_args ["organization"]
      !! "organization".
Proof.
  apply (get_values_key_by_key workspace_item_args ["name"; "organization"]
           ["organization"] "organization").
  - apply list_elem_of_further, list_elem_of_here.
  - apply list_elem_of_here.
Defined.

(** ** Sections of the document *)

Lemma parse_yaml_block_generic_section_witness :
  parse_yaml_block bracket_repr longer_name organizations_only
    "config.yaml" "organizations" []
  = (Ok ("organizations",
         [ {| cmd_args := Args ["--name"; "acme"];
              overwrite := VBool false |} ]),
     []).
Proof.
  apply (parse_yaml_block_generic_section bracket_repr longer_name
           organizations_only "config.yaml" "organizations"
           [ ("organizations", VList [ VDict [ ("name", VStr "acme") ] ]) ]
           [ [ ("name", VStr "acme") ] ] []).
  - simpl. intros [H|[H|[H|[H|[H|[H|[H|[]]]]]]]]; discriminate H.
  - reflexivity.
  - reflexivity.
Defined.

Lemma parse_yaml_block_item_not_a_mapping_witness :
  parse_yaml_block bracket_repr longer_name organizations_as_mapping
    "config.yaml" "organizations" []
  = (Raise AttributeError, []).
Proof.
  exact (parse_yaml_block_item_not_a_mapping bracket_repr longer_name
           organizations_as_mapping "config.yaml" "organizations"
           [ ("organizations", VDict [ ("name", VStr "acme") ]) ]
           (VDict [ ("name", VStr "acme") ]) "name" [] []
           eq_refl eq_refl eq_refl).
Defined.

Lemma parse_all_yaml_absent_block_witness :
  exists e fs',
    parse_all_yaml bracket_repr longer_name organizations_only
      "config.yaml" ["organizations"; "teams"] []
    = (Raise e, fs').
Proof.
  apply (parse_all_yaml_absent_block bracket_repr longer_name
           organizations_only "config.yaml" ["organizations"; "teams"]
           "teams"
           [ ("organizations", VList [ VDict [ ("name", VStr "acme") ] ]) ]
           []).
  - reflexivity.
  - simpl. auto.
  - reflexivity.
Defined.

Lemma parse_all_yaml_one_entry_per_block_witness :
  exists out,
    parse_all_yaml bracket_repr longer_name organizations_only
      "config.yaml" ["organizations"; "organizations"] []
    = (Ok out, [])
    /\ List.NoDup (map fst out)
    /\ (forall b, In b (map fst out)
                  <-> In b ["organizations"; "organizations"])
    /\ (forall b, In b ["organizations"; "organizations"] ->
                  In (b, [ {| cmd_args := Args ["--name"; "acme"];
                              overwrite := VBool false |} ]) out).
Proof.
  apply (parse_all_yaml_one_entry_per_block bracket_repr longer_name
           organizations_only "config.yaml"
           ["organizations"; "organizations"]
           (fun _ => [ {| cmd_args := Args ["--name"; "acme"];
                          overwrite := VBool false |} ])
           []).
  intros b [<-|[<-|[]]]; reflexivity.
Defined.
